(** * number-fluent: the conversion core of [src/lib/number-converter.ts]

    A shallow embedding of the TypeScript functions [convertHundreds],
    [numberToWords], [parseShorthand], [numberToShorthand],
    [extractCurrency] and [convertNumber], together with the parts of the
    JavaScript platform they call (IEEE 754 binary64 arithmetic, [parseFloat],
    [Number.prototype.toString], [Number.prototype.toFixed],
    [String.prototype.trim], the two regular expressions).

    - A JavaScript string is a list of UTF-16 code units.
    - A JavaScript number is a binary64 value, carried by [spec_float] of the
      Standard Library with precision 53 and maximal exponent 1024; [*], [/]
      and [-] are [SFmul], [SFdiv] and [SFsub].
    - The [while] loop of [numberToWords] is run with fuel, [None] meaning
      that the loop has not finished within the fuel given. *)

From Stdlib Require Import ZArith NArith List Bool Lia String Ascii.
From Stdlib Require Import SpecFloat.
From Stdlib Require Import DecimalString.
Import ListNotations.

Local Open Scope Z_scope.

(** ** Strings *)

Module JsString.

(** A UTF-16 code unit. *)
Definition char := N.
Definition jsstring := list char.

(** An ASCII literal of the source as a list of code units. *)
Definition lit (s : string) : jsstring :=
  map N_of_ascii (list_ascii_of_string s).

Definition char_eqb (a b : char) : bool := N.eqb a b.

Fixpoint str_eqb (a b : jsstring) : bool :=
  match a, b with
  | [], [] => true
  | x :: a', y :: b' => char_eqb x y && str_eqb a' b'
  | _, _ => false
  end.

(** [s.startsWith(p)] and [s.includes(p)]. *)
Fixpoint starts_with (p s : jsstring) : bool :=
  match p, s with
  | [], _ => true
  | x :: p', y :: s' => char_eqb x y && starts_with p' s'
  | _ :: _, [] => false
  end.

Fixpoint includes (s p : jsstring) : bool :=
  starts_with p s ||
  match s with
  | [] => false
  | _ :: s' => includes s' p
  end.

(** WhiteSpace and LineTerminator code points of ECMA-262, the characters
    removed by [String.prototype.trim] and skipped by [parseFloat]. *)
Definition is_space (c : char) : bool :=
  let c := Z.of_N c in
  ((9 <=? c) && (c <=? 13)) || (c =? 32) || (c =? 160) || (c =? 5760)
  || ((8192 <=? c) && (c <=? 8202)) || (c =? 8232) || (c =? 8233)
  || (c =? 8239) || (c =? 8287) || (c =? 12288) || (c =? 65279).

Fixpoint trim_start (s : jsstring) : jsstring :=
  match s with
  | c :: s' => if is_space c then trim_start s' else s
  | [] => []
  end.

Definition trim_end (s : jsstring) : jsstring := rev (trim_start (rev s)).

Definition trim (s : jsstring) : jsstring := trim_end (trim_start s).

Definition is_digit (c : char) : bool := (48 <=? c)%N && (c <=? 57)%N.

(** The longest prefix of characters satisfying [p], and the rest. *)
Fixpoint span (p : char -> bool) (s : jsstring) : jsstring * jsstring :=
  match s with
  | c :: s' =>
      if p c then let (a, b) := span p s' in (c :: a, b) else ([], s)
  | [] => ([], [])
  end.

(** [parts.join(sep)]. *)
Fixpoint join (sep : jsstring) (parts : list jsstring) : jsstring :=
  match parts with
  | [] => []
  | [p] => p
  | p :: rest => p ++ sep ++ join sep rest
  end.

(** The decimal digits of a non-negative integer. *)
Definition decimal (n : Z) : jsstring :=
  lit (NilZero.string_of_uint (N.to_uint (Z.to_N n))).

(** The value of a string of decimal digits. *)
Definition digit_val (c : char) : Z := Z.of_N c - 48.

Definition digits_val (s : jsstring) : Z :=
  fold_left (fun acc c => 10 * acc + digit_val c) s 0.

(** String concatenation with a value that may be [undefined]. *)
Definition or_undefined (o : option jsstring) : jsstring :=
  match o with
  | Some s => s
  | None => lit "undefined"
  end.

End JsString.
Import JsString.

(** ** Numbers *)

Module JsNumber.

Definition number := spec_float.

Definition prec : Z := 53.
Definition emax : Z := 1024.

Definition NaN : number := S754_nan.
Definition Infinity : number := S754_infinity false.
Definition zero : number := S754_zero false.

(** An integer literal of the source. *)
Definition Z2F (n : Z) : number := binary_normalize prec emax n 0 false.

(** The binary64 value nearest to [a / b] (ties to even), for [a >= 0] and
    [b > 0], with sign [neg]. *)
Definition round_ratio (neg : bool) (a b : Z) : number :=
  let '(m, e, l) := SFdiv_core_binary prec emax a 0 b 0 in
  binary_round_aux prec emax neg m e l.

Definition mul : number -> number -> number := SFmul prec emax.
Definition div : number -> number -> number := SFdiv prec emax.
Definition sub : number -> number -> number := SFsub prec emax.
Definition neg : number -> number := SFopp.
Definition abs : number -> number := SFabs.

(** [x === y], [x < y], [x > y], [x >= y] on numbers. *)
Definition num_eq (x y : number) : bool := SFeqb x y.
Definition num_lt (x y : number) : bool := SFltb x y.
Definition num_gt (x y : number) : bool := SFltb y x.
Definition num_ge (x y : number) : bool := SFleb y x.

Definition isNaN (x : number) : bool :=
  match x with S754_nan => true | _ => false end.

(** The sign bit, [false] for NaN. *)
Definition sign_bit (x : number) : bool :=
  match x with
  | S754_zero s | S754_infinity s | S754_finite s _ _ => s
  | S754_nan => false
  end.

(** A finite number as [m * 2^e] with a signed [m]. *)
Definition signed (s : bool) (m : positive) : Z :=
  if s then Z.neg m else Z.pos m.

(** [Math.floor]: the largest integer below the argument; zeros, infinities
    and NaN are returned unchanged, and a result of zero keeps the sign of the
    argument. *)
Definition floor (x : number) : number :=
  match x with
  | S754_finite s m e =>
      let z := if 0 <=? e then Z.shiftl (signed s m) e
               else Z.shiftr (signed s m) (- e) in
      binary_normalize prec emax z 0 s
  | _ => x
  end.

(** [x % y]: the remainder of the truncating division, computed exactly; it
    has the sign of the dividend. *)
Definition fmod (x y : number) : number :=
  match x, y with
  | S754_nan, _ | _, S754_nan => S754_nan
  | S754_infinity _, _ => S754_nan
  | _, S754_zero _ => S754_nan
  | S754_zero _, _ => x
  | S754_finite _ _ _, S754_infinity _ => x
  | S754_finite sx mx ex, S754_finite _ my ey =>
      let e := Z.min ex ey in
      let a := Z.shiftl (Z.pos mx) (ex - e) in
      let b := Z.shiftl (Z.pos my) (ey - e) in
      binary_normalize prec emax (if sx then - (a mod b) else a mod b) e sx
  end.

(** The rational [a / b] divided by [10^j], as a numerator and a
    denominator. *)
Definition scale10 (a b j : Z) : Z * Z :=
  if 0 <=? j then (a, b * 10 ^ j) else (a * 10 ^ (- j), b).

(** A positive finite number [m * 2^e] as a numerator and a denominator. *)
Definition ratio_of (m : positive) (e : Z) : Z * Z :=
  if 0 <=? e then (Z.pos m * 2 ^ e, 1) else (Z.pos m, 2 ^ (- e)).

(** The decimal exponent of a positive rational, [10^(n-1) <= a/b < 10^n],
    searched downwards from a start [n] with [a/b < 10^n]. *)
Fixpoint decimal_exponent (fuel : nat) (a b n : Z) : Z :=
  match fuel with
  | O => n
  | S fuel' =>
      let '(a', b') := scale10 a b (n - 1) in
      if a' <? b' then decimal_exponent fuel' a b (n - 1) else n
  end.

(** [s * 10^(n - k)] rounded to binary64. *)
Definition of_decimal (s n k : Z) : number :=
  let '(a, b) := scale10 s 1 (k - n) in round_ratio false a b.

(** The digits [s], their number [k] and the exponent [n] of
    [Number::toString]: the shortest [s] with [s * 10^(n - k)] rounding to the
    number, the one nearest to it when two have that length. *)
Fixpoint shortest_digits (fuel : nat) (x : number) (a b n k : Z) : Z * Z * Z :=
  let '(a', b') := scale10 a b (n - k) in
  let lo := a' / b' in
  let r := a' mod b' in
  let hi := if lo + 1 <? 10 ^ k then (lo + 1, n) else (10 ^ (k - 1), n + 1) in
  let ok_lo := SFeqb (of_decimal lo n k) x in
  let ok_hi := SFeqb (of_decimal (fst hi) (snd hi) k) x in
  let pick_lo := (lo, k, n) in
  let pick_hi := (fst hi, k, snd hi) in
  match fuel with
  | O => pick_lo
  | S fuel' =>
      if ok_lo && ok_hi then
        match 2 * r ?= b' with
        | Lt => pick_lo
        | Gt => pick_hi
        | Eq => if Z.even lo then pick_lo else pick_hi
        end
      else if ok_lo then pick_lo
      else if ok_hi then pick_hi
      else shortest_digits fuel' x a b n (k + 1)
  end.

Definition zeros (n : Z) : jsstring := repeat 48%N (Z.to_nat n).

(** [Number::toString(x, 10)] of ECMA-262. The number is below
    [2^(digits + e)], which gives the start of the search for the decimal
    exponent, [log10 2] being just below 0.30103. *)
Definition toString_pos (m : positive) (e : Z) : jsstring :=
  let '(a, b) := ratio_of m e in
  let n0 :=
    decimal_exponent 700 a b
      ((Z.pos (digits2_pos m) + e) * 30103 / 100000 + 3) in
  let '(s, k, n) := shortest_digits 17 (S754_finite false m e) a b n0 1 in
  let ds := decimal s in
  if (k <=? n) && (n <=? 21) then ds ++ zeros (n - k)
  else if (0 <? n) && (n <=? 21) then
    firstn (Z.to_nat n) ds ++ lit "." ++ skipn (Z.to_nat n) ds
  else if (-6 <? n) && (n <=? 0) then lit "0." ++ zeros (- n) ++ ds
  else
    let ex := (if 0 <=? n - 1 then lit "+" else lit "-")
              ++ decimal (Z.abs (n - 1)) in
    if k =? 1 then ds ++ lit "e" ++ ex
    else firstn 1 ds ++ lit "." ++ skipn 1 ds ++ lit "e" ++ ex.

Definition toString (x : number) : jsstring :=
  match x with
  | S754_nan => lit "NaN"
  | S754_zero _ => lit "0"
  | S754_infinity s => (if s then lit "-" else []) ++ lit "Infinity"
  | S754_finite s m e => (if s then lit "-" else []) ++ toString_pos m e
  end.

(** [x.toFixed(f)] of ECMA-262 for [0 <= f <= 100]: the integer nearest to
    [x * 10^f], the larger one of two, printed with [f] decimals. *)
Definition toFixed (x : number) (f : Z) : jsstring :=
  match x with
  | S754_nan | S754_infinity _ => toString x
  | S754_zero _ =>
      if f =? 0 then lit "0" else lit "0." ++ zeros f
  | S754_finite s m e =>
      let sg := if s then lit "-" else [] in
      if num_ge (S754_finite false m e) (Z2F (10 ^ 21)) then
        sg ++ toString (S754_finite false m e)
      else
        let '(a, b) := ratio_of m e in
        let n := (2 * a * 10 ^ f + b) / (2 * b) in
        let ds := decimal n in
        let k := Z.of_nat (List.length ds) in
        if f =? 0 then sg ++ ds
        else
          let ds' := if k <=? f then zeros (f + 1 - k) ++ ds else ds in
          let k' := Z.of_nat (List.length ds') in
          sg ++ firstn (Z.to_nat (k' - f)) ds' ++ lit "."
             ++ skipn (Z.to_nat (k' - f)) ds'
  end.

(** The exponent part [e] or [E], an optional sign and digits; [None] when no
    digit follows. *)
Definition exponent_part (s : jsstring) : option Z :=
  match s with
  | c :: r =>
      if (c =? 101)%N || (c =? 69)%N then
        let '(sg, r') :=
          match r with
          | d :: r' =>
              if (d =? 43)%N then (1, r')
              else if (d =? 45)%N then (-1, r') else (1, r)
          | [] => (1, r)
          end in
        match fst (span is_digit r') with
        | [] => None
        | ds => Some (sg * digits_val ds)
        end
      else None
  | [] => None
  end.

(** [parseFloat(s)]: leading white space is skipped, the longest prefix that
    is a StrDecimalLiteral is read and its value is rounded to binary64; NaN
    when there is no such prefix. *)
Definition parseFloat (s : jsstring) : number :=
  let s := trim_start s in
  let '(sg, s) :=
    match s with
    | c :: r =>
        if (c =? 45)%N then (true, r)
        else if (c =? 43)%N then (false, r) else (false, s)
    | [] => (false, s)
    end in
  if starts_with (lit "Infinity") s then S754_infinity sg
  else
    let '(ip, r1) := span is_digit s in
    let '(fp, r2) :=
      match r1 with
      | c :: r => if (c =? 46)%N then span is_digit r else ([], r1)
      | [] => ([], r1)
      end in
    match ip ++ fp with
    | [] => S754_nan
    | ds =>
        let ex := match exponent_part r2 with Some z => z | None => 0 end in
        let '(a, b) :=
          scale10 (digits_val ds) 1 (Z.of_nat (List.length fp) - ex) in
        round_ratio sg a b
    end.

End JsNumber.
Import JsNumber.

(** ** The converter *)

Module Converter.

Record ConversionResult := {
  originalInput : jsstring;
  numericValue : number;
  shorthandForm : jsstring;
  wordsForm : jsstring;
  currency : option jsstring;
  isValid : bool
}.

(** Currency symbols and their word representations, in the order of the
    object literal, which is the order of [Object.keys]:
    [$], euro, pound, yen, rupee, ruble, won, cent. *)
Definition CURRENCY_MAP : list (jsstring * jsstring) :=
  [ ([36%N], lit "dollars");
    ([8364%N], lit "euros");
    ([163%N], lit "pounds");
    ([165%N], lit "yen");
    ([8377%N], lit "rupees");
    ([8381%N], lit "rubles");
    ([8361%N], lit "won");
    ([162%N], lit "cents") ].

Definition ONES : list jsstring :=
  map lit [""; "one"; "two"; "three"; "four"; "five"; "six"; "seven";
           "eight"; "nine"]%string.

Definition TEENS : list jsstring :=
  map lit ["ten"; "eleven"; "twelve"; "thirteen"; "fourteen"; "fifteen";
           "sixteen"; "seventeen"; "eighteen"; "nineteen"]%string.

Definition TENS : list jsstring :=
  map lit [""; ""; "twenty"; "thirty"; "forty"; "fifty"; "sixty"; "seventy";
           "eighty"; "ninety"]%string.

Definition SCALES : list jsstring :=
  map lit [""; "thousand"; "million"; "billion"; "trillion"]%string.

(** [tbl[v]] for an array of strings and a number: the element when [v] is an
    integer within the array ([-0] is the index [0]), [undefined] otherwise. *)
Definition index (tbl : list jsstring) (v : number) : option jsstring :=
  match v with
  | S754_zero _ => nth_error tbl 0
  | S754_finite false m e =>
      let '(a, b) := ratio_of m e in
      if (a mod b =? 0) && (a / b <? Z.of_nat (List.length tbl))
      then nth_error tbl (Z.to_nat (a / b))
      else None
  | _ => None
  end.

Definition convertHundreds (num : number) : jsstring :=
  let '(result, num) :=
    if num_ge num (Z2F 100) then
      let result :=
        or_undefined (index ONES (floor (div num (Z2F 100))))
        ++ lit " hundred" in
      let num := fmod num (Z2F 100) in
      (if num_gt num zero then result ++ lit " " else result, num)
    else ([], num) in
  if num_ge num (Z2F 20) then
    let result :=
      result ++ or_undefined (index TENS (floor (div num (Z2F 10)))) in
    let num := fmod num (Z2F 10) in
    if num_gt num zero then result ++ lit "-" ++ or_undefined (index ONES num)
    else result
  else if num_ge num (Z2F 10) then
    result ++ or_undefined (index TEENS (sub num (Z2F 10)))
  else if num_gt num zero then
    result ++ or_undefined (index ONES num)
  else result.

(** The [while (num > 0)] loop of [numberToWords]; [scaleIndex] counts the
    iterations, [parts.unshift] adds at the front. *)
Fixpoint words_loop (fuel : nat) (num : number) (scaleIndex : nat)
    (parts : list jsstring) : option (list jsstring) :=
  if num_gt num zero then
    match fuel with
    | O => None
    | S fuel' =>
        let chunk := fmod num (Z2F 1000) in
        let parts :=
          if num_gt chunk zero then
            let chunkWords := convertHundreds chunk in
            if (0 <? scaleIndex)%nat then
              (chunkWords ++ lit " "
                 ++ or_undefined (nth_error SCALES scaleIndex)) :: parts
            else chunkWords :: parts
          else parts in
        words_loop fuel' (floor (div num (Z2F 1000))) (S scaleIndex) parts
    end
  else Some parts.

Fixpoint numberToWords (fuel : nat) (num : number) : option jsstring :=
  if num_eq num zero then Some (lit "zero")
  else
    match fuel with
    | O => None
    | S fuel' =>
        if num_lt num zero then
          option_map (app (lit "negative ")) (numberToWords fuel' (neg num))
        else option_map (join (lit " ")) (words_loop fuel' num 0 [])
    end.

(** The characters kept by [replace(/[^0-9.KMBTkmbt]/g, '')]. *)
Definition is_suffix (c : char) : bool :=
  existsb (N.eqb c) [75; 77; 66; 84; 107; 109; 98; 116]%N.

Definition is_shorthand_char (c : char) : bool :=
  is_digit c || (c =? 46)%N || is_suffix c.

(** The [match] of [parseShorthand]: one or more digits, an optional period
    and further digits (first group), then an optional suffix letter (second
    group), anchored at both ends. The greedy choices are the only ones that
    can succeed, so no backtracking is needed. *)
Definition match_shorthand (s : jsstring) : option (jsstring * jsstring) :=
  let '(ip, r1) := span is_digit s in
  match ip with
  | [] => None
  | _ =>
      let '(dot, r2) :=
        match r1 with
        | c :: r => if (c =? 46)%N then ([c], r) else ([], r1)
        | [] => ([], r1)
        end in
      let '(fp, r3) := span is_digit r2 in
      match r3 with
      | [] => Some (ip ++ dot ++ fp, [])
      | [c] => if is_suffix c then Some (ip ++ dot ++ fp, [c]) else None
      | _ => None
      end
  end.

Definition multipliers : list (char * number) :=
  [ (107%N, Z2F 1000); (75%N, Z2F 1000);
    (109%N, Z2F 1000000); (77%N, Z2F 1000000);
    (98%N, Z2F 1000000000); (66%N, Z2F 1000000000);
    (116%N, Z2F 1000000000000); (84%N, Z2F 1000000000000) ].

Definition multiplier_of (suffix : jsstring) : number :=
  match suffix with
  | [c] =>
      match find (fun kv => N.eqb (fst kv) c) multipliers with
      | Some kv => snd kv
      | None => Z2F 1
      end
  | _ => Z2F 1
  end.

Definition parseShorthand (input : jsstring) : option number :=
  let cleanInput := filter is_shorthand_char input in
  match match_shorthand cleanInput with
  | None => None
  | Some (numberPart, suffix) =>
      let baseNumber := parseFloat numberPart in
      if isNaN baseNumber then None
      else Some (mul baseNumber (multiplier_of suffix))
  end.

Definition numberToShorthand (num : number) : jsstring :=
  if num_eq num zero then lit "0"
  else
    let absNum := abs num in
    let sign := if num_lt num zero then lit "-" else [] in
    let scaled (scale : number) (letter : string) :=
      sign
      ++ toFixed (div absNum scale)
           (if num_eq (fmod absNum scale) zero then 0 else 1)
      ++ lit letter in
    if num_ge absNum (Z2F 1000000000000) then
      scaled (Z2F 1000000000000) "T"%string
    else if num_ge absNum (Z2F 1000000000) then
      scaled (Z2F 1000000000) "B"%string
    else if num_ge absNum (Z2F 1000000) then
      scaled (Z2F 1000000) "M"%string
    else if num_ge absNum (Z2F 1000) then
      scaled (Z2F 1000) "K"%string
    else toString num.

Definition extractCurrency (input : jsstring) : option jsstring :=
  find (fun symbol => includes input symbol) (map fst CURRENCY_MAP).

Definition currency_word (symbol : jsstring) : option jsstring :=
  option_map snd (find (fun kv => str_eqb (fst kv) symbol) CURRENCY_MAP).

(** The characters kept by [replace(/[^0-9.-]/g, '')]. *)
Definition is_plain_char (c : char) : bool :=
  is_digit c || (c =? 46)%N || (c =? 45)%N.

(** The number decoded from the trimmed input: the shorthand parser first,
    the plain fallback when it returns [null]. *)
Definition decode (trimmedInput : jsstring) : number :=
  match parseShorthand trimmedInput with
  | Some v => v
  | None => parseFloat (filter is_plain_char trimmedInput)
  end.

(** The record of the first [return] has no [currency] key and the record of
    the second one has the key with the value found, possibly [undefined];
    both are [None] here. *)
Definition convertNumber (fuel : nat) (input : jsstring)
    : option ConversionResult :=
  let trimmedInput := trim input in
  match trimmedInput with
  | [] =>
      Some {| originalInput := input;
              numericValue := zero;
              shorthandForm := lit "0";
              wordsForm := lit "zero";
              currency := None;
              isValid := false |}
  | _ :: _ =>
      let currency := extractCurrency trimmedInput in
      let currencyWord :=
        match currency with
        | Some c => currency_word c
        | None => None
        end in
      let numericValue := decode trimmedInput in
      if isNaN numericValue then
        Some {| originalInput := input;
                numericValue := zero;
                shorthandForm := lit "0";
                wordsForm := lit "invalid input";
                currency := currency;
                isValid := false |}
      else
        let shorthandForm :=
          match currency with
          | Some c => c ++ numberToShorthand numericValue
          | None => numberToShorthand numericValue
          end in
        match numberToWords fuel numericValue with
        | None => None
        | Some words =>
            let wordsForm :=
              match currencyWord with
              | Some w => words ++ lit " " ++ w
              | None => words
              end in
            Some {| originalInput := input;
                    numericValue := numericValue;
                    shorthandForm := shorthandForm;
                    wordsForm := wordsForm;
                    currency := currency;
                    isValid := true |}
        end
  end.

End Converter.
Import Converter.

(** ** Definitions used to state the properties *)

Module Spec.

(** A character that is one of the currency symbols. *)
Definition is_currency_char (c : char) : bool :=
  existsb (fun kv => str_eqb (fst kv) [c]) CURRENCY_MAP.

(** The input with every currency symbol removed. *)
Definition strip_currency (s : jsstring) : jsstring :=
  filter (fun c => negb (is_currency_char c)) s.

(** Whether [convertNumber] takes the path of the valid result. *)
Definition valid_input (input : jsstring) : bool :=
  match trim input with
  | [] => false
  | _ :: _ => negb (isNaN (decode (trim input)))
  end.

(** Structural equality of numbers (it tells [+0] from [-0]). *)
Definition number_eqb (x y : number) : bool :=
  match x, y with
  | S754_zero a, S754_zero b => Bool.eqb a b
  | S754_infinity a, S754_infinity b => Bool.eqb a b
  | S754_nan, S754_nan => true
  | S754_finite a m e, S754_finite b m' e' =>
      Bool.eqb a b && Pos.eqb m m' && Z.eqb e e'
  | _, _ => false
  end.

(** Inputs on which [numberToWords] does not return: 309 digits [9], and a
    [2] followed by 296 zeros and the suffix [T]. *)
Definition nines : jsstring := repeat 57%N 309.
Definition two_e296_T : jsstring := 50%N :: repeat 48%N 296 ++ [84%N].

(** [Math.trunc]: the integer part, rounding toward zero. *)
Definition trunc (x : number) : number :=
  if num_lt x zero then neg (floor (neg x)) else floor x.

(** The number 1.5. *)
Definition one_and_a_half : number := S754_finite false 6755399441055744 (-52).

(** A normal binary64 number: 53 significant bits, exponent in range. *)
Definition normal (m : positive) (e : Z) : Prop :=
  Z.pos (digits2_pos m) = 53 /\ -1074 <= e <= 971.

(** *** Words, on integers *)

Definition word (tbl : list jsstring) (i : Z) : jsstring :=
  nth (Z.to_nat i) tbl [].

(** The hundreds, tens and ones rule for a value from 0 to 999. *)
Definition hundreds_words (c : Z) : jsstring :=
  let h := c / 100 in
  let r := c mod 100 in
  (if 0 <? h
   then word ONES h ++ lit " hundred" ++ (if 0 <? r then lit " " else [])
   else [])
  ++ (if 20 <=? r then
        word TENS (r / 10)
        ++ (if 0 <? r mod 10 then lit "-" ++ word ONES (r mod 10) else [])
      else if 10 <=? r then word TEENS (r - 10)
      else if 0 <? r then word ONES r
      else []).

(** The scale word of the chunk of index [i]; there is none from index 5
    on, where the code concatenates [undefined]. *)
Definition scale_word (i : nat) : jsstring :=
  or_undefined (nth_error SCALES i).

Definition chunk_words (i : nat) (c : Z) : jsstring :=
  if (0 <? i)%nat then hundreds_words c ++ lit " " ++ scale_word i
  else hundreds_words c.

(** The base-1000 chunks of a positive integer, least significant first. *)
Fixpoint chunks (count : nat) (n : Z) : list Z :=
  match count with
  | O => []
  | S count' =>
      if 0 <? n then (n mod 1000) :: chunks count' (n / 1000) else []
  end.

(** The words of the chunks that are not zero, most significant first; [i]
    is the index of the first chunk of the list. *)
Fixpoint phrases (i : nat) (cs : list Z) : list jsstring :=
  match cs with
  | [] => []
  | c :: cs' =>
      phrases (S i) cs' ++ (if 0 <? c then [chunk_words i c] else [])
  end.

(** The words of a positive integer below [2^53], which has at most six
    chunks. *)
Definition words_of (n : Z) : jsstring :=
  join (lit " ") (phrases 0 (chunks 6 n)).

(** *** Shorthand, as the specification words it *)

(** The magnitude of a suffix, in either case; 1 when there is none. *)
Definition upper (c : char) : char :=
  if (97 <=? c)%N && (c <=? 122)%N then (c - 32)%N else c.

Definition magnitude (suffix : jsstring) : Z :=
  match suffix with
  | [c] =>
      if (upper c =? 75)%N then 10 ^ 3
      else if (upper c =? 77)%N then 10 ^ 6
      else if (upper c =? 66)%N then 10 ^ 9
      else if (upper c =? 84)%N then 10 ^ 12
      else 1
  | _ => 1
  end.

(** The binary64 value of the decimal with integer digits [ip] and
    fraction digits [fp]. *)
Definition decimal_value (ip fp : jsstring) : number :=
  round_ratio false (digits_val (ip ++ fp)) (10 ^ Z.of_nat (List.length fp)).

(** A cleaned string accepted by the shorthand grammar, cut into integer
    digits, period, fraction digits and suffix. *)
Definition shorthand_accepts (clean ip dot fp sfx : jsstring) : Prop :=
  clean = ip ++ dot ++ fp ++ sfx
  /\ ip <> [] /\ forallb is_digit ip = true /\ forallb is_digit fp = true
  /\ (dot = lit "." \/ (dot = [] /\ fp = []))
  /\ (sfx = [] \/ exists c, sfx = [c] /\ is_suffix c = true).

(** The scales of the shorthand formatter, in the order they are tested. *)
Definition SHORTHAND_SCALES : list (Z * string) :=
  [ (10 ^ 12, "T"); (10 ^ 9, "B"); (10 ^ 6, "M"); (10 ^ 3, "K") ]%string.

Definition shorthand_of (x : number) : jsstring :=
  if num_eq x zero then lit "0"
  else
    match find (fun sl => num_ge (abs x) (Z2F (fst sl))) SHORTHAND_SCALES with
    | Some (scale, letter) =>
        (if num_lt x zero then lit "-" else [])
        ++ toFixed (div (abs x) (Z2F scale))
             (if num_eq (fmod (abs x) (Z2F scale)) zero then 0 else 1)
        ++ lit letter
    | None => toString x
    end.

(** *** The round trip through the shorthand *)

(** [parseShorthand(numberToShorthand(n)) == n]. *)
Definition roundtrip (n : Z) : Prop :=
  exists v, parseShorthand (numberToShorthand (Z2F n)) = Some v
            /\ num_eq v (Z2F n) = true.

(** [n] is a multiple of one of the scales that apply to it. *)
Definition applicable_multiple (n : Z) : Prop :=
  exists scale, In scale [10 ^ 3; 10 ^ 6; 10 ^ 9]
                /\ scale <= Z.abs n /\ n mod scale = 0.

(** The scale that [numberToShorthand] selects below [10^12]: the largest
    one that applies, 1 when none does. *)
Definition selected_scale (n : Z) : Z :=
  if 10 ^ 9 <=? Z.abs n then 10 ^ 9
  else if 10 ^ 6 <=? Z.abs n then 10 ^ 6
  else if 10 ^ 3 <=? Z.abs n then 10 ^ 3
  else 1.

Definition roundtrip_abs (n : Z) : bool :=
  match parseShorthand (numberToShorthand (Z2F n)) with
  | Some v => number_eqb v (Z2F (Z.abs n))
  | None => false
  end.

(** The integers from [lo], [len] of them. *)
Definition Z_range (lo : Z) (len : nat) : list Z :=
  map (fun k => lo + Z.of_nat k) (seq 0 len).

(** The string is empty or starts with a character that is not a digit. *)
Definition head_not_digit (s : jsstring) : Prop :=
  match s with
  | [] => True
  | c :: _ => is_digit c = false
  end.







End Spec.
Import Spec.

(** ** Definitions for the further properties *)

(** *** The characters that count *)

Module Coverage.

(** The characters that one of the two cleaning steps of [convertNumber]
    keeps: digits, the period, the minus sign and the suffix letters. *)
Definition is_kept_char (c : char) : bool :=
  is_shorthand_char c || is_plain_char c.

End Coverage.
Import Coverage.

(** *** The component [NumberConverter] of
    [src/components/NumberConverter.tsx]: its effect and what it renders
    conditionally *)

Module Component.

(** The state [result] of [NumberConverter] once the effect that follows a
    change of [input] has run: [null] for a blank input, the conversion
    otherwise. The outer [None] stands for a conversion that has not
    returned within the fuel. *)
Definition effect (fuel : nat) (input : jsstring)
    : option (option ConversionResult) :=
  match trim input with
  | [] => Some None
  | _ :: _ => option_map Some (convertNumber fuel input)
  end.

Inductive badge := Positive | Negative.

(** What the component renders conditionally. *)
Record view := {
  showResults : bool;
  signBadge : option badge;
  currencyBadge : option jsstring;
  showError : bool;
  showEmpty : bool
}.

Definition render (input : jsstring) (result : option ConversionResult)
    : view :=
  {| showResults := match result with Some _ => true | None => false end;
     signBadge :=
       match result with
       | Some r =>
           if isValid r then
             Some (if num_ge (numericValue r) zero then Positive
                   else Negative)
           else None
       | None => None
       end;
     currencyBadge :=
       match result with
       | Some r =>
           match currency r with
           | Some (_ :: _ as c) => Some c
           | _ => None
           end
       | None => None
       end;
     showError :=
       match result with
       | Some r => negb (isValid r)
       | None => false
       end;
     showEmpty := match input with [] => true | _ :: _ => false end |}.

End Component.
Import Component.

(** *** The words read back as a number *)

Module Reading.

(** The pieces of a string between its spaces. *)
Fixpoint tokens (s : jsstring) : list jsstring :=
  match s with
  | [] => [[]]
  | c :: t =>
      if (c =? 32)%N then [] :: tokens t
      else match tokens t with
           | h :: r => (c :: h) :: r
           | [] => [[c]]
           end
  end.

Definition lookup (tbl : list (jsstring * Z)) (tok : jsstring) : option Z :=
  option_map snd (find (fun kv => str_eqb (fst kv) tok) tbl).

(** The words of 1 to 99, as [convertHundreds] writes them, and the scale
    words of [SCALES], with their values. *)
Definition small_words : list (jsstring * Z) :=
  map (fun r => (hundreds_words r, r)) (Z_range 1 99).

Definition scale_values : list (jsstring * Z) :=
  combine (tl SCALES) [10 ^ 3; 10 ^ 6; 10 ^ 9; 10 ^ 12].

(** A word of the vocabulary of [numberToWords] on positive integers. *)
Definition known_word (tok : jsstring) : bool :=
  str_eqb tok (lit "hundred")
  || match lookup scale_values tok with Some _ => true | None => false end
  || match lookup small_words tok with Some _ => true | None => false end.

(** Reading words back: the sign, the total of the chunks closed by a
    scale word, and the chunk being read. *)
Definition reading : Type := bool * Z * Z.

Definition read_token (st : reading) (tok : jsstring) : reading :=
  let '(sg, t, c) := st in
  if str_eqb tok (lit "negative") then (true, t, c)
  else if str_eqb tok (lit "hundred") then (sg, t, c * 100)
  else
    match lookup scale_values tok with
    | Some v => (sg, t + c * v, 0)
    | None =>
        match lookup small_words tok with
        | Some r => (sg, t, c + r)
        | None => st
        end
    end.

Definition read (st : reading) (w : jsstring) : reading :=
  fold_left read_token (tokens w) st.

Definition value_of_words (w : jsstring) : Z :=
  let '(sg, t, c) := read (false, 0, 0) w in
  if sg then - (t + c) else t + c.

Definition reading_eqb (a b : reading) : bool :=
  let '(s1, t1, c1) := a in
  let '(s2, t2, c2) := b in
  Bool.eqb s1 s2 && (t1 =? t2) && (c1 =? c2).

(** The value of a list of base-1000 chunks, least significant first. *)
Fixpoint chunks_value (cs : list Z) : Z :=
  match cs with
  | [] => 0
  | c :: cs' => c + 1000 * chunks_value cs'
  end.

Definition frame (sg : bool) (t : Z) (st : reading) : reading :=
  let '(sg', t', c') := st in (sg || sg', t + t', c').

End Reading.
Import Reading.

(** *** Results compared *)

Module Outcome.

(** Two results of [convertNumber] that agree on every field but
    [originalInput]; the loop has finished in both or in none. *)
Definition same_outcome (a b : option ConversionResult) : Prop :=
  match a, b with
  | Some r, Some r' =>
      numericValue r = numericValue r'
      /\ shorthandForm r = shorthandForm r'
      /\ wordsForm r = wordsForm r'
      /\ currency r = currency r'
      /\ isValid r = isValid r'
  | None, None => True
  | _, _ => False
  end.

(** [p] gives the same answer on a letter and on its upper case. *)
Definition case_blind_below (p : char -> bool) (bound : nat) : bool :=
  forallb (fun z => Bool.eqb (p (upper (Z.to_N z))) (p (Z.to_N z)))
          (Z_range 0 bound).

End Outcome.
Import Outcome.

(** *** The shorthand of an integer *)

Module Tenths.

(** The digits of [t] with a period before the last one, as [toFixed(1)]
    prints the integer [t] of tenths. *)
Definition one_decimal (t : Z) : jsstring :=
  let ds := decimal t in
  let k := Z.of_nat (List.length ds) in
  let ds' := if k <=? 1 then zeros (1 + 1 - k) ++ ds else ds in
  let k' := Z.of_nat (List.length ds') in
  firstn (Z.to_nat (k' - 1)) ds' ++ lit "." ++ skipn (Z.to_nat (k' - 1)) ds'.

(** The scale and the letter that [numberToShorthand] selects for a
    positive integer. *)
Definition scale_of (n : Z) : option (Z * string) :=
  find (fun sl => fst sl <=? n) SHORTHAND_SCALES.

End Tenths.
Import Tenths.

(** *** The size of a number *)

Module Magnitude.

(** A number that is not infinite and, when finite, lies below [2^k] in
    absolute value. *)
Definition below (k : Z) (x : number) : Prop :=
  match x with
  | S754_finite _ m e => Z.pos (digits2_pos m) + e <= k
  | S754_infinity _ => False
  | _ => True
  end.

End Magnitude.
Import Magnitude.

(** *** Numbers with a fraction *)

Module Fraction.

(** A finite number that is not an integer. *)
Definition noninteger (x : number) : bool :=
  match x with
  | S754_finite _ m e => (e <? 0) && negb (Z.pos m mod 2 ^ (- e) =? 0)
  | _ => false
  end.

(** A positive binary64 number, in canonical form, that is not an
    integer. *)
Definition positive_fraction (x : number) : Prop :=
  exists m e,
    x = S754_finite false m e
    /\ canonical_mantissa prec emax m e = true
    /\ e < 0 /\ Z.pos m mod 2 ^ (- e) <> 0.

End Fraction.
Import Fraction.

(** ** Binary64: rounding of exact and of inexact values *)

Lemma shr_1_nonneg mrs : 0 <= shr_m mrs -> 0 <= shr_m (shr_1 mrs).
Proof.
  destruct mrs as [m r s]. simpl.
  destruct m as [|p|p]; simpl; try lia.
  - destruct p; simpl; lia.
Qed.

Lemma iter_shr_1_nonneg (p : positive) :
  forall mrs, 0 <= shr_m mrs -> 0 <= shr_m (iter_pos shr_1 p mrs).
Proof.
  induction p as [p IH|p IH|]; simpl; intros mrs H.
  - apply IH, IH, shr_1_nonneg, H.
  - apply IH, IH, H.
  - apply shr_1_nonneg, H.
Qed.

Lemma shr_nonneg mrs e n :
  0 <= shr_m mrs -> 0 <= shr_m (fst (shr mrs e n)).
Proof.
  intros H. destruct n; simpl; auto. apply iter_shr_1_nonneg, H.
Qed.

Lemma shr_fexp_nonneg m e l :
  0 <= m -> 0 <= shr_m (fst (shr_fexp prec emax m e l)).
Proof.
  intros H. unfold shr_fexp. apply shr_nonneg.
  destruct l as [|[| |]]; simpl; exact H.
Qed.

Lemma round_nearest_even_nonneg m l : 0 <= m -> 0 <= round_nearest_even m l.
Proof.
  intros H. unfold round_nearest_even.
  destruct l as [|[| |]]; try lia. destruct (Z.even m); lia.
Qed.

Lemma binary_round_aux_cases s m e l :
  0 <= m ->
  binary_round_aux prec emax s m e l = S754_zero s
  \/ binary_round_aux prec emax s m e l = S754_infinity s
  \/ exists m' e', binary_round_aux prec emax s m e l = S754_finite s m' e'.
Proof.
  intros H. unfold binary_round_aux.
  pose proof (shr_fexp_nonneg m e l H) as H1.
  destruct (shr_fexp prec emax m e l) as [mrs' e'].
  simpl in H1.
  pose proof (round_nearest_even_nonneg _ (loc_of_shr_record mrs') H1) as H2.
  pose proof (shr_fexp_nonneg _ e' loc_Exact H2) as H3.
  destruct (shr_fexp prec emax _ e' loc_Exact) as [mrs'' e''].
  simpl in H3.
  destruct (shr_m mrs'') as [|p|p]; auto.
  - destruct (e'' <=? emax - prec); eauto.
  - lia.
Qed.

Lemma digits2_spec (p : positive) :
  2 ^ (Z.pos (digits2_pos p) - 1) <= Z.pos p < 2 ^ Z.pos (digits2_pos p).
Proof.
  induction p as [p IH|p IH|]; simpl digits2_pos.
  - rewrite Pos2Z.inj_succ.
    replace (Z.succ (Z.pos (digits2_pos p)) - 1)
      with (Z.succ (Z.pos (digits2_pos p) - 1)) by lia.
    rewrite !Z.pow_succ_r by lia. lia.
  - rewrite Pos2Z.inj_succ.
    replace (Z.succ (Z.pos (digits2_pos p)) - 1)
      with (Z.succ (Z.pos (digits2_pos p) - 1)) by lia.
    rewrite !Z.pow_succ_r by lia. lia.
  - simpl. lia.
Qed.

Lemma digits2_unique (p : positive) (k : Z) :
  2 ^ (k - 1) <= Z.pos p < 2 ^ k -> Z.pos (digits2_pos p) = k.
Proof.
  intros [Hlo Hhi].
  pose proof (digits2_spec p) as [Dlo Dhi].
  set (d := Z.pos (digits2_pos p)) in *.
  assert (0 < d) by (unfold d; lia).
  destruct (Z.lt_trichotomy d k) as [Hlt|[Heq|Hgt]]; auto; exfalso.
  - assert (2 ^ d <= 2 ^ (k - 1)) by (apply Z.pow_le_mono_r; lia). lia.
  - assert (k <= 0 \/ 0 < k) as [Hk|Hk] by lia.
    + assert (2 ^ k <= 2 ^ 0) by (apply Z.pow_le_mono_r_iff; lia).
      simpl in *. lia.
    + assert (2 ^ k <= 2 ^ (d - 1)) by (apply Z.pow_le_mono_r; lia). lia.
Qed.

Lemma fexp_normal (e : Z) : -1074 <= e -> fexp prec emax (53 + e) = e.
Proof. unfold fexp, emin, prec, emax. lia. Qed.

Lemma shr_record_loc m l :
  shr_m (shr_record_of_loc m l) = m
  /\ loc_of_shr_record (shr_record_of_loc m l) = l.
Proof. destruct l as [|[| |]]; auto. Qed.

(** No bit is shifted out of a mantissa of 53 bits. *)
Lemma shr_fexp_normal (m : positive) e l :
  Z.pos (digits2_pos m) = 53 -> -1074 <= e ->
  shr_fexp prec emax (Z.pos m) e l = (shr_record_of_loc (Z.pos m) l, e).
Proof.
  intros Hd He. unfold shr_fexp, Zdigits2.
  rewrite Hd, fexp_normal, Z.sub_diag by lia. reflexivity.
Qed.

Lemma binary_round_aux_normal s (m : positive) e :
  normal m e ->
  binary_round_aux prec emax s (Z.pos m) e loc_Exact = S754_finite s m e.
Proof.
  intros [Hd He]. unfold binary_round_aux.
  rewrite shr_fexp_normal by lia.
  simpl shr_m. simpl loc_of_shr_record. simpl round_nearest_even.
  rewrite shr_fexp_normal by lia.
  simpl shr_m.
  assert (Hle : (e <=? emax - prec) = true)
    by (apply Z.leb_le; unfold emax, prec; lia).
  rewrite Hle. reflexivity.
Qed.

Lemma pos_iter_xO (k m : positive) :
  Z.pos (Pos.iter xO m k) = Z.pos m * 2 ^ Z.pos k.
Proof.
  revert m. induction k as [|k IH] using Pos.peano_ind; intros m.
  - simpl. lia.
  - rewrite Pos.iter_succ, Pos2Z.inj_succ, Z.pow_succ_r by lia.
    rewrite Pos2Z.inj_xO, IH. lia.
Qed.

Lemma shr_1_even (M : Z) :
  0 < M ->
  shr_1 (Build_shr_record (2 * M) false false)
  = Build_shr_record M false false.
Proof. destruct M; try lia. reflexivity. Qed.

Lemma pow2_xI (k : positive) : 2 ^ Z.pos k~1 = 2 * (2 ^ Z.pos k * 2 ^ Z.pos k).
Proof.
  change (Z.pos k~1) with (2 * Z.pos k + 1).
  replace (2 * Z.pos k + 1) with (Z.succ (Z.pos k + Z.pos k)) by lia.
  rewrite Z.pow_succ_r, Z.pow_add_r by lia. reflexivity.
Qed.

Lemma pow2_xO (k : positive) : 2 ^ Z.pos k~0 = 2 ^ Z.pos k * 2 ^ Z.pos k.
Proof.
  change (Z.pos k~0) with (2 * Z.pos k).
  replace (2 * Z.pos k) with (Z.pos k + Z.pos k) by lia.
  rewrite Z.pow_add_r by lia. reflexivity.
Qed.

(** Shifting out [k] zero bits is exact. *)
Lemma iter_shr_1_exact (k : positive) :
  forall M : Z, 0 < M ->
    iter_pos shr_1 k (Build_shr_record (M * 2 ^ Z.pos k) false false)
    = Build_shr_record M false false.
Proof.
  induction k as [k IH|k IH|]; intros M HM; cbn [iter_pos].
  - assert (0 < 2 ^ Z.pos k) by (apply Z.pow_pos_nonneg; lia).
    rewrite pow2_xI.
    replace (M * (2 * (2 ^ Z.pos k * 2 ^ Z.pos k)))
      with (2 * (M * 2 ^ Z.pos k * 2 ^ Z.pos k)) by lia.
    rewrite shr_1_even by nia.
    rewrite (IH (M * 2 ^ Z.pos k)) by nia.
    apply IH, HM.
  - assert (0 < 2 ^ Z.pos k) by (apply Z.pow_pos_nonneg; lia).
    rewrite pow2_xO.
    replace (M * (2 ^ Z.pos k * 2 ^ Z.pos k))
      with (M * 2 ^ Z.pos k * 2 ^ Z.pos k) by lia.
    rewrite (IH (M * 2 ^ Z.pos k)) by nia.
    apply IH, HM.
  - change (2 ^ 1) with 2. rewrite Z.mul_comm. apply shr_1_even, HM.
Qed.

(** [binary_normalize] of an integer [m * 2^e] that is the value of a normal
    number returns that number. *)
Lemma binary_normalize_exact (m M : positive) (e E : Z) (s : bool) :
  normal M E ->
  (E <= e -> Z.pos M = Z.pos m * 2 ^ (e - E)) ->
  (e <= E -> Z.pos m = Z.pos M * 2 ^ (E - e)) ->
  binary_normalize prec emax (Z.pos m) e s = S754_finite false M E.
Proof.
  intros Hn Hge Hle. pose proof Hn as [Hd He].
  unfold binary_normalize, binary_round.
  pose proof (digits2_spec M) as HM. rewrite Hd in HM.
  assert (Hdm : Z.pos (digits2_pos m) + e = 53 + E).
  { assert (Z.pos (digits2_pos m) = 53 + E - e); [|lia].
    apply digits2_unique.
    destruct (Z.le_ge_cases E e) as [H|H].
    - specialize (Hge H).
      assert (0 <= e - E) by lia.
      replace (53 + E - e) with (53 - (e - E)) by lia.
      set (j := e - E) in *.
      assert (j <= 52 \/ 53 <= j) as [Hj|Hj] by lia.
      + replace (2 ^ (53 - 1)) with (2 ^ (53 - j - 1) * 2 ^ j) in HM.
        2:{ rewrite <- Z.pow_add_r by lia. f_equal. lia. }
        replace (2 ^ 53) with (2 ^ (53 - j) * 2 ^ j) in HM.
        2:{ rewrite <- Z.pow_add_r by lia. f_equal. lia. }
        assert (0 < 2 ^ j) by (apply Z.pow_pos_nonneg; lia).
        nia.
      + exfalso.
        assert (2 ^ 53 <= 2 ^ j) by (apply Z.pow_le_mono_r; lia).
        nia.
    - specialize (Hle H).
      set (j := E - e) in *. assert (0 <= j) by lia.
      replace (53 + E - e) with (53 + j) by lia.
      replace (53 + j - 1) with (52 + j) by lia.
      rewrite !Z.pow_add_r by lia.
      assert (0 < 2 ^ j) by (apply Z.pow_pos_nonneg; lia).
      change (2 ^ (53 - 1)) with (2 ^ 52) in HM. nia. }
  rewrite Hdm.
  assert (Hf : fexp prec emax (53 + E) = E).
  { unfold fexp, emin, prec, emax. lia. }
  rewrite Hf. unfold shl_align.
  destruct (E - e) as [|j|j] eqn:Hj.
  - assert (e = E) by lia. subst e.
    rewrite Z.sub_diag in Hge. simpl in Hge.
    assert (m = M) by lia. subst m.
    apply binary_round_aux_normal, Hn.
  - (* the mantissa has bits to spare: they are shifted out *)
    assert (Hm : Z.pos m = Z.pos M * 2 ^ Z.pos j) by (apply Hle; lia).
    unfold binary_round_aux, shr_fexp. simpl shr_record_of_loc.
    unfold Zdigits2. rewrite Hdm, Hf, Hj. simpl shr.
    rewrite Hm, iter_shr_1_exact by lia. simpl round_nearest_even.
    unfold Zdigits2. rewrite Hd.
    replace (e + Z.pos j) with E by lia.
    rewrite Hf, Z.sub_diag. simpl.
    assert (Hl : (E <=? 971) = true) by (apply Z.leb_le; lia).
    rewrite Hl. reflexivity.
  - assert (Hm : Z.pos M = Z.pos m * 2 ^ Z.pos j).
    { replace (Z.pos j) with (e - E) by lia. apply Hge. lia. }
    assert (Pos.iter xO m j = M).
    { apply Pos2Z.inj. rewrite pos_iter_xO. lia. }
    rewrite H. apply binary_round_aux_normal, Hn.
Qed.

(** The normal number of a positive integer below [2^53]. *)
Lemma Z2F_normal (n : Z) :
  0 < n < 2 ^ 53 ->
  exists M E, Z2F n = S754_finite false M E /\ normal M E
              /\ -52 <= E <= 0 /\ Z.pos M = n * 2 ^ (- E).
Proof.
  intros [Hpos Hlt]. destruct n as [|p|p]; try lia.
  pose proof (digits2_spec p) as [Dlo Dhi].
  set (d := Z.pos (digits2_pos p)) in *.
  assert (Hd : 1 <= d <= 53).
  { split; [unfold d; lia|].
    destruct (Z.le_gt_cases d 53); auto. exfalso.
    assert (2 ^ 53 <= 2 ^ (d - 1)) by (apply Z.pow_le_mono_r; lia). lia. }
  assert (H2 : 0 < 2 ^ (53 - d)) by (apply Z.pow_pos_nonneg; lia).
  exists (Z.to_pos (Z.pos p * 2 ^ (53 - d))), (d - 53).
  assert (HM : Z.pos (Z.to_pos (Z.pos p * 2 ^ (53 - d)))
               = Z.pos p * 2 ^ (53 - d)) by (apply Z2Pos.id; nia).
  assert (Hn : normal (Z.to_pos (Z.pos p * 2 ^ (53 - d))) (d - 53)).
  { split; [|lia]. apply digits2_unique. rewrite HM.
    replace (2 ^ (53 - 1)) with (2 ^ (d - 1) * 2 ^ (53 - d)).
    2:{ rewrite <- Z.pow_add_r by lia. f_equal. lia. }
    replace (2 ^ 53) with (2 ^ d * 2 ^ (53 - d)).
    2:{ rewrite <- Z.pow_add_r by lia. f_equal. lia. }
    nia. }
  split; [|split; [exact Hn|split; [lia|]]].
  - unfold Z2F. apply binary_normalize_exact; auto.
    + intros _. rewrite HM. f_equal. f_equal. lia.
    + intros H. assert (d = 53) by lia.
      rewrite HM. replace (53 - d) with 0 by lia.
      replace (d - 53 - 0) with 0 by lia. simpl. lia.
  - rewrite HM. f_equal. f_equal. lia.
Qed.

Lemma Z2F_positive (n : Z) :
  0 < n < 2 ^ 53 -> num_gt (Z2F n) zero = true.
Proof.
  intros H. destruct (Z2F_normal n H) as (M & E & -> & _). reflexivity.
Qed.

(** [n % q] on integers. *)
Lemma fmod_Z2F (n q : Z) :
  0 < n < 2 ^ 53 -> 0 < q < 2 ^ 53 ->
  fmod (Z2F n) (Z2F q) = Z2F (n mod q).
Proof.
  intros Hn Hq.
  destruct (Z2F_normal n Hn) as (Mn & En & -> & Nn & HEn & HMn).
  destruct (Z2F_normal q Hq) as (Mq & Eq & -> & Nq & HEq & HMq).
  unfold fmod.
  set (e := Z.min En Eq).
  assert (He : -52 <= e <= 0) by (unfold e; lia).
  rewrite !Z.shiftl_mul_pow2 by (unfold e; lia).
  assert (Ha : Z.pos Mn * 2 ^ (En - e) = n * 2 ^ (- e)).
  { rewrite HMn, <- Z.mul_assoc, <- Z.pow_add_r by (unfold e; lia).
    f_equal. f_equal. lia. }
  assert (Hb : Z.pos Mq * 2 ^ (Eq - e) = q * 2 ^ (- e)).
  { rewrite HMq, <- Z.mul_assoc, <- Z.pow_add_r by (unfold e; lia).
    f_equal. f_equal. lia. }
  rewrite Ha, Hb.
  assert (H2 : 0 < 2 ^ (- e)) by (apply Z.pow_pos_nonneg; lia).
  rewrite Z.mul_mod_distr_r by lia.
  pose proof (Z.mod_pos_bound n q ltac:(lia)) as Hr.
  set (r := n mod q) in *.
  assert (r = 0 \/ 0 < r) as [Hr0|Hr0] by lia.
  - rewrite Hr0. reflexivity.
  - destruct (Z2F_normal r ltac:(lia)) as (Mr & Er & -> & Nr & HEr & HMr).
    assert (Hrp : 0 < r * 2 ^ (- e)) by nia.
    destruct (r * 2 ^ (- e)) as [|m|m] eqn:Hm; try lia.
    apply binary_normalize_exact; auto.
    + intros H. rewrite HMr.
      replace (- Er) with (- e + (e - Er)) by lia.
      rewrite Z.pow_add_r by lia. lia.
    + intros H. rewrite HMr.
      replace (- e) with (- Er + (Er - e)) in Hm by lia.
      rewrite Z.pow_add_r in Hm by lia. lia.
Qed.

Lemma digits2_53 (Q : positive) :
  2 ^ 52 <= Z.pos Q < 2 ^ 53 -> Z.pos (digits2_pos Q) = 53.
Proof. intros H. apply digits2_unique. exact H. Qed.

Lemma digits2_54 (Q : positive) :
  2 ^ 53 <= Z.pos Q < 2 ^ 54 -> Z.pos (digits2_pos Q) = 54.
Proof. intros H. apply digits2_unique. exact H. Qed.

(** The second rounding step of [binary_round_aux] on a mantissa of 53 bits,
    or on [2^53]. *)
Lemma renormalize (R : positive) (e : Z) :
  2 ^ 52 <= Z.pos R <= 2 ^ 53 -> -1074 <= e <= 960 ->
  exists M E,
    (let '(mrs, e'') := shr_fexp prec emax (Z.pos R) e loc_Exact in
     match shr_m mrs with
     | 0 => S754_zero false
     | Z.pos m =>
         if e'' <=? emax - prec then S754_finite false m e''
         else S754_infinity false
     | Z.neg _ => S754_nan
     end) = S754_finite false M E
    /\ e <= E <= e + 1 /\ Z.pos M * 2 ^ (E - e) = Z.pos R.
Proof.
  intros HR He.
  assert (Z.pos R < 2 ^ 53 \/ Z.pos R = 2 ^ 53) as [Hlt|Heq] by lia.
  - exists R, e. rewrite shr_fexp_normal by (try apply digits2_53; lia).
    simpl shr_m.
    assert (Hl : (e <=? emax - prec) = true)
      by (apply Z.leb_le; unfold emax, prec; lia).
    rewrite Hl, Z.sub_diag. simpl. split; [reflexivity|lia].
  - exists (2 ^ 52)%positive, (e + 1).
    assert (R = (2 ^ 53)%positive)
      by (apply Pos2Z.inj; rewrite Heq; reflexivity).
    subst R. unfold shr_fexp, Zdigits2.
    change (Z.pos (digits2_pos (2 ^ 53))) with 54.
    assert (Hf : fexp prec emax (54 + e) - e = 1).
    { unfold fexp, emin, prec, emax. lia. }
    rewrite Hf.
    assert (Hl : (e + 1 <=? emax - prec) = true)
      by (apply Z.leb_le; unfold emax, prec; lia).
    simpl. unfold emax, prec in Hl. simpl in Hl. rewrite Hl.
    split; [reflexivity|].
    split; [lia|]. replace (e + 1 - e) with 1 by lia. reflexivity.
Qed.

(** [binary_round_aux] on a quotient of 53 or 54 bits: the result is
    [W * 2^e] with [W] between [Q] rounded down to an even number and
    [Q + 1]. *)
Lemma binary_round_aux_quotient (Q : positive) (e : Z) (l : location) :
  2 ^ 52 <= Z.pos Q < 2 ^ 54 -> -1074 <= e <= 950 ->
  exists M E,
    binary_round_aux prec emax false (Z.pos Q) e l = S754_finite false M E
    /\ e <= E <= e + 2
    /\ 2 * (Z.pos Q / 2) <= Z.pos M * 2 ^ (E - e) <= Z.pos Q + 1.
Proof.
  intros HQ He. unfold binary_round_aux.
  assert (Z.pos Q < 2 ^ 53 \/ 2 ^ 53 <= Z.pos Q) as [Hlt|Hge] by lia.
  - rewrite shr_fexp_normal by (try apply digits2_53; lia).
    destruct (shr_record_loc (Z.pos Q) l) as [-> ->].
    assert (HR : Z.pos Q <= round_nearest_even (Z.pos Q) l <= Z.pos Q + 1).
    { unfold round_nearest_even.
      destruct l as [|[| |]]; try lia. destruct (Z.even (Z.pos Q)); lia. }
    destruct (round_nearest_even (Z.pos Q) l) as [|R|R]; try lia.
    destruct (renormalize R e ltac:(lia) ltac:(lia)) as (M & E & -> & HE & HW).
    exists M, E. split; [reflexivity|]. split; [lia|].
    rewrite HW.
    pose proof (Z.mul_div_le (Z.pos Q) 2 ltac:(lia)). lia.
  - unfold shr_fexp at 1. unfold Zdigits2.
    rewrite digits2_54 by lia.
    assert (Hf : fexp prec emax (54 + e) - e = 1).
    { unfold fexp, emin, prec, emax. lia. }
    rewrite Hf. unfold shr. cbn [iter_pos].
    set (mrs := shr_1 (shr_record_of_loc (Z.pos Q) l)).
    assert (HR : Z.pos Q / 2
                 <= round_nearest_even (shr_m mrs) (loc_of_shr_record mrs)
                 /\ 2 * round_nearest_even (shr_m mrs) (loc_of_shr_record mrs)
                    <= Z.pos Q + 1).
    { unfold mrs.
      destruct Q as [q|q|]; [| |simpl in Hge; lia].
      - replace (Z.pos q~1 / 2) with (Z.pos q).
        2:{ apply Z.div_unique with (r := 1); lia. }
        destruct l as [|[| |]];
          cbn [shr_record_of_loc shr_1 shr_m loc_of_shr_record
               round_nearest_even orb];
          try destruct (Z.even (Z.pos q)); lia.
      - replace (Z.pos q~0 / 2) with (Z.pos q).
        2:{ apply Z.div_unique with (r := 0); lia. }
        destruct l as [|[| |]];
          cbn [shr_record_of_loc shr_1 shr_m loc_of_shr_record
               round_nearest_even orb]; lia. }
    assert (HQ2 : 2 ^ 52 <= Z.pos Q / 2 < 2 ^ 53).
    { split.
      - apply Z.div_le_lower_bound; lia.
      - apply Z.div_lt_upper_bound; lia. }
    pose proof (Z.mul_div_le (Z.pos Q) 2 ltac:(lia)) as Hdiv.
    destruct (round_nearest_even (shr_m mrs) (loc_of_shr_record mrs))
      as [|R|R]; try lia.
    destruct (renormalize R (e + 1) ltac:(lia) ltac:(lia))
      as (M & E & -> & HE & HW).
    exists M, E. split; [reflexivity|]. split; [lia|].
    replace (E - e) with (1 + (E - (e + 1))) by lia.
    rewrite Z.pow_add_r by lia. change (2 ^ 1) with 2. lia.
Qed.

Lemma SFdiv_core_normal (Mn Mq : positive) (En Eq : Z) :
  normal Mn En -> normal Mq Eq -> -52 <= En <= 0 -> -52 <= Eq <= 0 ->
  SFdiv_core_binary prec emax (Z.pos Mn) En (Z.pos Mq) Eq
  = (Z.pos Mn * 2 ^ 53 / Z.pos Mq, En - Eq - 53,
     new_location (Z.pos Mq) (Z.pos Mn * 2 ^ 53 mod Z.pos Mq)).
Proof.
  intros [Dn _] [Dq _] HEn HEq.
  unfold SFdiv_core_binary, Zdigits2. rewrite Dn, Dq.
  assert (Hmin : Z.min (fexp prec emax (53 + En - (53 + Eq))) (En - Eq)
                 = En - Eq - 53).
  { unfold fexp, emin, prec, emax. lia. }
  rewrite Hmin.
  replace (En - Eq - (En - Eq - 53)) with 53 by lia.
  cbv iota. rewrite Z.shiftl_mul_pow2 by lia.
  unfold Z.div, Z.modulo.
  destruct (Z.div_eucl (Z.pos Mn * 2 ^ 53) (Z.pos Mq)) as [q r].
  reflexivity.
Qed.

(** [Math.floor(n / q)] on integers is the integer quotient. *)
Lemma floor_div_Z2F (n q : Z) :
  0 < n < 2 ^ 53 -> 4 <= q < 2 ^ 53 ->
  floor (div (Z2F n) (Z2F q)) = Z2F (n / q).
Proof.
  intros Hn Hq.
  destruct (Z2F_normal n Hn) as (Mn & En & -> & Nn & HEn & HMn).
  destruct (Z2F_normal q ltac:(lia)) as (Mq & Eq & -> & Nq & HEq & HMq).
  pose proof (digits2_spec Mn) as Bn. destruct Nn as [Dn Rn].
  pose proof (digits2_spec Mq) as Bq. destruct Nq as [Dq Rq].
  rewrite Dn in Bn. rewrite Dq in Bq.
  change (2 ^ (53 - 1)) with (2 ^ 52) in *.
  (* the exponent of the divisor *)
  assert (HEq' : -50 <= Eq).
  { destruct (Z.le_gt_cases (-50) Eq); auto. exfalso.
    assert (2 ^ 51 <= 2 ^ (- Eq)) by (apply Z.pow_le_mono_r; lia).
    change (2 ^ 53) with (4 * 2 ^ 51) in Bq. nia. }
  unfold div, SFdiv.
  rewrite SFdiv_core_normal by (try split; auto; lia).
  set (e := En - Eq - 53).
  remember (Z.pos Mn * 2 ^ 53 / Z.pos Mq) as Q eqn:HeqQ.
  assert (HQ : 2 ^ 52 <= Q < 2 ^ 54).
  { rewrite HeqQ. split.
    - apply Z.div_le_lower_bound; [lia|].
      change (2 ^ 53) with (2 * 2 ^ 52) in *. nia.
    - apply Z.div_lt_upper_bound; [lia|].
      change (2 ^ 54) with (2 * 2 ^ 53) in *.
      change (2 ^ 53) with (2 * 2 ^ 52) in *. nia. }
  destruct Q as [|Qp|Qp]; try lia.
  change (xorb false false) with false.
  destruct (binary_round_aux_quotient Qp e
              (new_location (Z.pos Mq) (Z.pos Mn * 2 ^ 53 mod Z.pos Mq))
              HQ ltac:(unfold e; lia))
    as (M & E & -> & HE & HW).
  unfold floor, signed.
  assert (HEneg : (0 <=? E) = false) by (apply Z.leb_gt; unfold e in *; lia).
  rewrite HEneg, Z.shiftr_div_pow2 by (unfold e in *; lia).
  unfold Z2F. f_equal.
  (* the integers behind the mantissas *)
  set (P := 2 ^ (- e)).
  assert (HP : P = 2 ^ (53 + Eq - En) ) by (unfold P, e; f_equal; lia).
  assert (HPq : q < P).
  { rewrite HP.
    replace (53 + Eq - En) with ((53 + Eq) + (- En)) by lia.
    rewrite Z.pow_add_r by lia.
    assert (1 <= 2 ^ (- En)) by (apply (Z.pow_le_mono_r 2 0); lia).
    assert (q < 2 ^ (53 + Eq)); [|nia].
    assert (0 < 2 ^ (- Eq)) by (apply Z.pow_pos_nonneg; lia).
    replace (2 ^ 53) with (2 ^ (53 + Eq) * 2 ^ (- Eq)) in Bq.
    2:{ rewrite <- Z.pow_add_r by lia. f_equal. lia. }
    nia. }
  assert (HPeven : P = 2 * 2 ^ (- e - 1)).
  { unfold P. rewrite <- Z.pow_succ_r by (unfold e; lia). f_equal. lia. }
  assert (HPpos : 0 < 2 ^ (- e - 1))
    by (apply Z.pow_pos_nonneg; unfold e; lia).
  assert (HQdef : Z.pos Qp = n * P / q).
  { rewrite HeqQ, HMn, HMq.
    assert (H2 : 0 < 2 ^ (- Eq)) by (apply Z.pow_pos_nonneg; lia).
    replace (n * 2 ^ (- En) * 2 ^ 53) with (n * P * 2 ^ (- Eq)).
    2:{ rewrite HP, <- !Z.mul_assoc, <- !Z.pow_add_r by lia.
        f_equal. f_equal. lia. }
    rewrite Z.div_mul_cancel_r by lia. reflexivity. }
  (* the quotient lies between k * P and (k + 1) * P - 2 *)
  set (k := n / q).
  pose proof (Z.div_mod n q ltac:(lia)) as Hnq.
  pose proof (Z.mod_pos_bound n q ltac:(lia)) as Hr.
  fold k in Hnq.
  assert (Hlo : k * P <= Z.pos Qp).
  { rewrite HQdef. apply Z.div_le_lower_bound; [lia|]. nia. }
  assert (Hhi : Z.pos Qp + 2 <= (k + 1) * P).
  { assert (Z.pos Qp < (k + 1) * P - 1); [|lia].
    rewrite HQdef. apply Z.div_lt_upper_bound; [lia|]. nia. }
  (* so does the rounded mantissa *)
  assert (Hlo' : k * P <= 2 * (Z.pos Qp / 2)).
  { rewrite HPeven in *.
    replace (k * (2 * 2 ^ (- e - 1))) with (2 * (k * 2 ^ (- e - 1))) in *
      by lia.
    assert (k * 2 ^ (- e - 1) <= Z.pos Qp / 2); [|lia].
    apply Z.div_le_lower_bound; lia. }
  set (W := Z.pos M * 2 ^ (E - e)) in *.
  assert (HMW : Z.pos M / 2 ^ (- E) = W / P).
  { unfold W, P.
    assert (0 < 2 ^ (E - e)) by (apply Z.pow_pos_nonneg; lia).
    assert (0 < 2 ^ (- E)) by (apply Z.pow_pos_nonneg; unfold e in *; lia).
    replace (- e) with ((- E) + (E - e)) by lia.
    rewrite Z.pow_add_r by (unfold e in *; lia).
    rewrite Z.div_mul_cancel_r by lia. reflexivity. }
  rewrite HMW. symmetry. apply Z.div_unique with (r := W - k * P); lia.
Qed.

(** ** Strings: trimming and cleaning *)

Section Cleaning.

Variable p : char -> bool.
Hypothesis p_not_space : forall c, p c = true -> is_space c = false.

Lemma filter_trim_start (s : jsstring) :
  filter p (trim_start s) = filter p s.
Proof.
  induction s as [|c s IH]; simpl; auto.
  destruct (is_space c) eqn:Hc; simpl.
  - destruct (p c) eqn:Hp; auto.
    apply p_not_space in Hp. congruence.
  - reflexivity.
Qed.

Lemma filter_trim (s : jsstring) : filter p (trim s) = filter p s.
Proof.
  unfold trim, trim_end.
  rewrite filter_rev, filter_trim_start, <- filter_rev, rev_involutive.
  apply filter_trim_start.
Qed.

Lemma filter_all_space (s : jsstring) :
  forallb is_space s = true -> filter p s = [].
Proof.
  induction s as [|c s IH]; simpl; auto.
  intros H. apply andb_true_iff in H as [Hc Hs].
  destruct (p c) eqn:Hp; auto.
  apply p_not_space in Hp. congruence.
Qed.

End Cleaning.

Lemma trim_start_nil (s : jsstring) :
  trim_start s = [] <-> forallb is_space s = true.
Proof.
  induction s as [|c s IH]; simpl.
  - tauto.
  - destruct (is_space c); simpl; [exact IH | split; discriminate].
Qed.

Lemma trim_start_head (s : jsstring) :
  trim_start s = [] \/
  exists c t, trim_start s = c :: t /\ is_space c = false.
Proof.
  induction s as [|c s IH]; simpl; auto.
  destruct (is_space c) eqn:Hc; auto.
  right. exists c, s. auto.
Qed.

Lemma forallb_rev {A} (f : A -> bool) (l : list A) :
  forallb f (rev l) = forallb f l.
Proof.
  induction l as [|a l IH]; simpl; auto.
  rewrite forallb_app, IH. simpl. rewrite andb_true_r. apply andb_comm.
Qed.

Lemma trim_nil (s : jsstring) : trim s = [] <-> forallb is_space s = true.
Proof.
  unfold trim, trim_end. split.
  - intros H.
    assert (H1 : trim_start (rev (trim_start s)) = []).
    { rewrite <- (rev_involutive (trim_start _)), H. reflexivity. }
    apply trim_start_nil in H1. rewrite forallb_rev in H1.
    apply trim_start_nil.
    destruct (trim_start_head s) as [Hs | (c & t & Hs & Hc)]; auto.
    rewrite Hs in H1. simpl in H1. rewrite Hc in H1. discriminate.
  - intros H. apply trim_start_nil in H. rewrite H. reflexivity.
Qed.

Lemma shorthand_char_not_space (c : char) :
  is_shorthand_char c = true -> is_space c = false.
Proof.
  unfold is_shorthand_char, is_suffix, is_digit, is_space, existsb.
  rewrite !orb_true_iff, !andb_true_iff, !N.leb_le, !N.eqb_eq.
  rewrite !orb_false_iff, !andb_false_iff, !Z.leb_gt, !Z.eqb_neq.
  lia.
Qed.

Lemma plain_char_not_space (c : char) :
  is_plain_char c = true -> is_space c = false.
Proof.
  unfold is_plain_char, is_digit, is_space.
  rewrite !orb_true_iff, !andb_true_iff, !N.leb_le, !N.eqb_eq.
  rewrite !orb_false_iff, !andb_false_iff, !Z.leb_gt, !Z.eqb_neq.
  lia.
Qed.

Lemma currency_char_cases (c : char) :
  is_currency_char c = true ->
  In c [36; 8364; 163; 165; 8377; 8381; 8361; 162]%N.
Proof.
  unfold is_currency_char, CURRENCY_MAP, existsb, str_eqb, char_eqb, fst.
  rewrite !andb_true_r, !orb_false_r, !orb_true_iff, !N.eqb_eq.
  simpl. intuition.
Qed.

(** A character of a class that holds none of the eight symbols is not a
    currency symbol. *)
Ltac not_a_symbol H :=
  match goal with
  | |- negb (is_currency_char ?c) = true =>
      let Hc := fresh "Hc" in
      destruct (is_currency_char c) eqn:Hc; [|reflexivity];
      apply currency_char_cases in Hc; simpl in Hc; exfalso;
      repeat (destruct Hc as [Hc|Hc]; [subst c; discriminate H|]);
      exact Hc
  end.

Lemma shorthand_char_not_currency (c : char) :
  is_shorthand_char c = true -> negb (is_currency_char c) = true.
Proof. intros H. not_a_symbol H. Qed.

Lemma plain_char_not_currency (c : char) :
  is_plain_char c = true -> negb (is_currency_char c) = true.
Proof. intros H. not_a_symbol H. Qed.

Lemma currency_char_not_space (c : char) :
  is_space c = true -> negb (is_currency_char c) = true.
Proof. intros H. not_a_symbol H. Qed.

Lemma filter_filter_sub {A} (f g : A -> bool) (l : list A) :
  (forall a, f a = true -> g a = true) ->
  filter f (filter g l) = filter f l.
Proof.
  intros Hfg. induction l as [|a l IH]; simpl; auto.
  destruct (g a) eqn:Hg; simpl.
  - destruct (f a); congruence.
  - destruct (f a) eqn:Hf; auto. apply Hfg in Hf. congruence.
Qed.

Lemma strip_currency_all_space (s : jsstring) :
  forallb is_space s = true -> strip_currency s = s.
Proof.
  unfold strip_currency.
  induction s as [|c s IH]; simpl; auto.
  intros H. apply andb_true_iff in H as [Hc Hs].
  rewrite (currency_char_not_space c Hc). f_equal. auto.
Qed.

(** ** The decoded number and validity *)

(** The decoded number depends on the two cleaned strings only. *)
Lemma decode_cleaned (s t : jsstring) :
  filter is_shorthand_char s = filter is_shorthand_char t ->
  filter is_plain_char s = filter is_plain_char t ->
  decode s = decode t.
Proof.
  intros H1 H2. unfold decode, parseShorthand. rewrite H1, H2. reflexivity.
Qed.

Lemma decode_no_clean_char (s : jsstring) :
  filter is_shorthand_char s = [] -> filter is_plain_char s = [] ->
  decode s = NaN.
Proof.
  intros H1 H2. unfold decode, parseShorthand. rewrite H1, H2. reflexivity.
Qed.

Lemma convertNumber_isValid (fuel : nat) (input : jsstring) r :
  convertNumber fuel input = Some r -> isValid r = valid_input input.
Proof.
  unfold convertNumber, valid_input.
  destruct (trim input) as [|c t].
  - intros H. injection H as <-. reflexivity.
  - destruct (isNaN (decode (c :: t))).
    + intros H. injection H as <-. reflexivity.
    + destruct (numberToWords fuel (decode (c :: t))); [|discriminate].
      intros H. injection H as <-. reflexivity.
Qed.

Lemma valid_input_strip_currency (input : jsstring) :
  valid_input (strip_currency input) = valid_input input.
Proof.
  unfold valid_input.
  destruct (trim input) as [|c t] eqn:Hin.
  - apply trim_nil in Hin.
    rewrite (strip_currency_all_space _ Hin).
    apply trim_nil in Hin. rewrite Hin. reflexivity.
  - assert (Hs : filter is_shorthand_char (c :: t)
                 = filter is_shorthand_char (strip_currency input)).
    { rewrite <- Hin, (filter_trim _ shorthand_char_not_space).
      unfold strip_currency. symmetry.
      apply filter_filter_sub, shorthand_char_not_currency. }
    assert (Hp : filter is_plain_char (c :: t)
                 = filter is_plain_char (strip_currency input)).
    { rewrite <- Hin, (filter_trim _ plain_char_not_space).
      unfold strip_currency. symmetry.
      apply filter_filter_sub, plain_char_not_currency. }
    destruct (trim (strip_currency input)) as [|c' t'] eqn:Hout.
    + apply trim_nil in Hout.
      rewrite decode_no_clean_char; auto.
      * rewrite Hs. apply filter_all_space; auto.
        apply shorthand_char_not_space.
      * rewrite Hp. apply filter_all_space; auto.
        apply plain_char_not_space.
    + f_equal. f_equal. apply decode_cleaned.
      * rewrite <- Hout, (filter_trim _ shorthand_char_not_space). auto.
      * rewrite <- Hout, (filter_trim _ plain_char_not_space). auto.
Qed.

(** C1. A result with [isValid = false] has [numericValue = 0] and
    [shorthandForm = "0"]; and the currency symbols of the input do not
    affect [isValid]: two inputs that differ only in their currency symbols
    get the same [isValid], and results with and without a currency exist
    with either value of [isValid]. *)
Theorem invalid_result_sentinels_and_currency_independence :
  (forall fuel input r,
      convertNumber fuel input = Some r ->
      isValid r = false ->
      numericValue r = zero /\ shorthandForm r = lit "0")
  /\
  (forall fuel1 fuel2 input1 input2 r1 r2,
      strip_currency input1 = strip_currency input2 ->
      convertNumber fuel1 input1 = Some r1 ->
      convertNumber fuel2 input2 = Some r2 ->
      isValid r1 = isValid r2)
  /\
  map (fun input =>
         option_map (fun r => (currency r, isValid r))
                    (convertNumber 3 input))
      [lit "$5"; lit "5"; lit "$"; lit "x"]
  = [Some (Some (lit "$"), true); Some (None, true);
     Some (Some (lit "$"), false); Some (None, false)].
Proof.
  split; [|split; [|vm_compute; reflexivity]].
  - intros fuel input r. unfold convertNumber.
    destruct (trim input) as [|c t].
    + intros H _. injection H as <-. auto.
    + destruct (isNaN (decode (c :: t))).
      * intros H _. injection H as <-. auto.
      * destruct (numberToWords fuel (decode (c :: t))); [|discriminate].
        intros H Hv. injection H as <-. discriminate Hv.
  - intros fuel1 fuel2 input1 input2 r1 r2 Hs H1 H2.
    rewrite (convertNumber_isValid _ _ _ H1), (convertNumber_isValid _ _ _ H2).
    rewrite <- (valid_input_strip_currency input1), Hs.
    apply valid_input_strip_currency.
Qed.

Lemma invalid_result_sentinels_and_currency_independence_witness :
  (exists r, convertNumber 0 (lit "abc") = Some r /\ isValid r = false
             /\ numericValue r = zero /\ shorthandForm r = lit "0")
  /\ (exists r1 r2, convertNumber 3 (lit "$5") = Some r1
                    /\ convertNumber 3 (lit "5") = Some r2
                    /\ isValid r1 = isValid r2).
Proof.
  split.
  - eexists. split; [vm_compute; reflexivity|]. split; [reflexivity|].
    apply (proj1 invalid_result_sentinels_and_currency_independence
             O (lit "abc")); reflexivity.
  - eexists. eexists. split; [vm_compute; reflexivity|].
    split; [vm_compute; reflexivity|].
    apply (proj1 (proj2 invalid_result_sentinels_and_currency_independence)
             3%nat 3%nat (lit "$5") (lit "5")); reflexivity.
Defined.

(** C10. A result with [isValid = true] carries a number that is not NaN: it
    is the number decoded from the trimmed input, which passed the NaN
    check. *)
Theorem valid_result_not_NaN (fuel : nat) (input : jsstring) r :
  convertNumber fuel input = Some r ->
  isValid r = true ->
  isNaN (numericValue r) = false /\ numericValue r = decode (trim input).
Proof.
  unfold convertNumber.
  destruct (trim input) as [|c t].
  - intros H Hv. injection H as <-. discriminate Hv.
  - destruct (isNaN (decode (c :: t))) eqn:Hnan.
    + intros H Hv. injection H as <-. discriminate Hv.
    + destruct (numberToWords fuel (decode (c :: t))); [|discriminate].
      intros H _. injection H as <-. simpl. auto.
Qed.

Lemma valid_result_not_NaN_witness :
  exists r, convertNumber 5 (lit "$1.5K") = Some r /\ isValid r = true
            /\ isNaN (numericValue r) = false.
Proof.
  eexists. split; [vm_compute; reflexivity|]. split; [reflexivity|].
  apply (valid_result_not_NaN 5 (lit "$1.5K")); reflexivity.
Defined.

(** ** Fuel *)

(** A result obtained with some fuel is the result with any larger fuel. *)
Lemma words_loop_more_fuel (fuel : nat) :
  forall fuel' num i parts r,
    (fuel <= fuel')%nat ->
    words_loop fuel num i parts = Some r ->
    words_loop fuel' num i parts = Some r.
Proof.
  induction fuel as [|fuel IH]; intros fuel' num i parts r Hle H.
  - destruct fuel'; cbn [words_loop] in *;
      destruct (num_gt num zero); congruence.
  - destruct fuel' as [|fuel']; [lia|].
    cbn [words_loop] in *.
    destruct (num_gt num zero); [|exact H].
    apply IH; [lia | exact H].
Qed.

Lemma numberToWords_more_fuel (fuel : nat) :
  forall fuel' num w,
    (fuel <= fuel')%nat ->
    numberToWords fuel num = Some w ->
    numberToWords fuel' num = Some w.
Proof.
  induction fuel as [|fuel IH]; intros fuel' num w Hle H.
  - destruct fuel'; cbn [numberToWords] in *;
      destruct (num_eq num zero); congruence.
  - destruct fuel' as [|fuel']; [lia|].
    cbn [numberToWords] in *.
    destruct (num_eq num zero); [exact H|].
    destruct (num_lt num zero).
    + destruct (numberToWords fuel (neg num)) as [w'|] eqn:Hw;
        [|discriminate H].
      rewrite (IH fuel' (neg num) w') by (auto; lia). exact H.
    + destruct (words_loop fuel num 0 []) as [ps|] eqn:Hps;
        [|discriminate H].
      rewrite (words_loop_more_fuel fuel fuel' num 0%nat [] ps)
        by (auto; lia).
      exact H.
Qed.

Lemma convertNumber_more_fuel (fuel fuel' : nat) (input : jsstring) r :
  (fuel <= fuel')%nat ->
  convertNumber fuel input = Some r ->
  convertNumber fuel' input = Some r.
Proof.
  intros Hle. unfold convertNumber.
  destruct (trim input) as [|c t]; [auto|].
  destruct (isNaN (decode (c :: t))); [auto|].
  destruct (numberToWords fuel (decode (c :: t))) as [w|] eqn:Hw;
    [|discriminate].
  rewrite (numberToWords_more_fuel fuel fuel' _ w Hle Hw). auto.
Qed.

(** ** The loop on an infinite number *)

Lemma words_loop_Infinity (fuel : nat) :
  forall scaleIndex parts, words_loop fuel Infinity scaleIndex parts = None.
Proof.
  induction fuel as [|fuel IH]; intros scaleIndex parts.
  - reflexivity.
  - change (words_loop (S fuel) Infinity scaleIndex parts)
      with (words_loop fuel Infinity (S scaleIndex) parts).
    apply IH.
Qed.

Lemma numberToWords_Infinity (fuel : nat) :
  numberToWords fuel Infinity = None.
Proof.
  destruct fuel as [|fuel]; [reflexivity|].
  change (numberToWords (S fuel) Infinity)
    with (option_map (join (lit " ")) (words_loop fuel Infinity 0 [])).
  rewrite words_loop_Infinity. reflexivity.
Qed.

Lemma convertNumber_diverges (fuel : nat) (input : jsstring) :
  trim input <> [] ->
  decode (trim input) = Infinity ->
  convertNumber fuel input = None.
Proof.
  intros Hne Hd. unfold convertNumber.
  destruct (trim input) as [|c t]; [congruence|].
  rewrite Hd. simpl isNaN. cbv iota.
  rewrite numberToWords_Infinity. reflexivity.
Qed.

(** C2. [convertNumber] does not return on every input: on the string of 309
    digits [9] the decoded number is [Infinity], which passes the NaN check,
    and the loop of [numberToWords] never ends. *)
Theorem convertNumber_nines_never_returns :
  decode (trim nines) = Infinity
  /\ forall fuel, convertNumber fuel nines = None.
Proof.
  assert (H : decode (trim nines) = Infinity) by (vm_compute; reflexivity).
  split; [exact H|].
  intros fuel. apply convertNumber_diverges; [|exact H].
  vm_compute. discriminate.
Qed.

(** The two kinds of invalid input that the code does tell apart. *)
Lemma convertNumber_blank (fuel : nat) (input : jsstring) :
  forallb is_space input = true ->
  convertNumber fuel input =
  Some {| originalInput := input; numericValue := zero;
          shorthandForm := lit "0"; wordsForm := lit "zero";
          currency := None; isValid := false |}.
Proof.
  intros H. apply trim_nil in H. unfold convertNumber. rewrite H.
  reflexivity.
Qed.

Lemma convertNumber_NaN (fuel : nat) (input : jsstring) :
  trim input <> [] ->
  decode (trim input) = NaN ->
  convertNumber fuel input =
  Some {| originalInput := input; numericValue := zero;
          shorthandForm := lit "0"; wordsForm := lit "invalid input";
          currency := extractCurrency (trim input); isValid := false |}.
Proof.
  intros Hne Hd. unfold convertNumber.
  destruct (trim input) as [|c t]; [congruence|].
  rewrite Hd. reflexivity.
Qed.

(** C8. A non-empty input whose decoded number is not finite does not always
    get the invalid result: for a [2] followed by 296 zeros and [T] the
    shorthand parser yields [Infinity], and [convertNumber] returns nothing,
    whatever the fuel. *)
Theorem convertNumber_infinite_not_invalid :
  trim two_e296_T = two_e296_T
  /\ parseShorthand (trim two_e296_T) = Some Infinity
  /\ forall fuel, convertNumber fuel two_e296_T = None.
Proof.
  assert (H : parseShorthand (trim two_e296_T) = Some Infinity)
    by (vm_compute; reflexivity).
  assert (Ht : trim two_e296_T = two_e296_T) by (vm_compute; reflexivity).
  assert (Hne : trim two_e296_T <> []) by (rewrite Ht; discriminate).
  split; [exact Ht|]. split; [exact H|].
  intros fuel. apply convertNumber_diverges; [exact Hne|].
  unfold decode. rewrite H. reflexivity.
Qed.

(** C9. The fractional part is not truncated: [numberToWords(1.5)] is
    ["undefined"], while the words of its integer part [1] are ["one"]. *)
Theorem numberToWords_fraction_not_truncated :
  numberToWords 3 one_and_a_half = Some (lit "undefined")
  /\ trunc one_and_a_half = Z2F 1
  /\ numberToWords 3 (trunc one_and_a_half) = Some (lit "one")
  /\ parseShorthand (lit "1.5") = Some one_and_a_half.
Proof.
  repeat split; vm_compute; reflexivity.
Qed.

(** ** Checking a property on a range of integers *)

Lemma Z_range_forallb (f : Z -> bool) (lo : Z) (len : nat) :
  forallb f (Z_range lo len) = true ->
  forall z, lo <= z < lo + Z.of_nat len -> f z = true.
Proof.
  intros H z Hz. unfold Z_range in H.
  rewrite forallb_forall in H. apply H.
  apply in_map_iff. exists (Z.to_nat (z - lo)). split; [lia|].
  apply in_seq. lia.
Qed.

Lemma str_eqb_eq (a b : jsstring) : str_eqb a b = true -> a = b.
Proof.
  revert b. induction a as [|x a IH]; intros [|y b]; simpl; try discriminate.
  - reflexivity.
  - intros H. apply andb_true_iff in H as [Hx Hab].
    apply N.eqb_eq in Hx. f_equal; auto.
Qed.

Lemma number_eqb_eq (x y : number) : number_eqb x y = true -> x = y.
Proof.
  destruct x as [a|a| |a m e], y as [b|b| |b m' e']; simpl;
    try discriminate; auto.
  - intros H. apply Bool.eqb_prop in H. congruence.
  - intros H. apply Bool.eqb_prop in H. congruence.
  - intros H. apply andb_true_iff in H as [H He].
    apply andb_true_iff in H as [Hs Hm].
    apply Bool.eqb_prop in Hs. apply Pos.eqb_eq in Hm. apply Z.eqb_eq in He.
    congruence.
Qed.

(** ** Words of integers *)

(** On every chunk from 1 to 999 [convertHundreds] follows the hundreds,
    tens and ones rule. *)
Lemma convertHundreds_chunk (c : Z) :
  0 < c < 1000 -> convertHundreds (Z2F c) = hundreds_words c.
Proof.
  intros Hc. apply str_eqb_eq.
  apply (Z_range_forallb
           (fun c => str_eqb (convertHundreds (Z2F c)) (hundreds_words c))
           1 999); [vm_compute; reflexivity | lia].
Qed.

Lemma words_loop_zero (fuel : nat) (i : nat) (parts : list jsstring) :
  words_loop fuel (Z2F 0) i parts = Some parts.
Proof. destruct fuel; reflexivity. Qed.

Lemma words_loop_step (fuel : nat) (num : number) (i : nat) parts :
  num_gt num zero = true ->
  words_loop (S fuel) num i parts =
  words_loop fuel (floor (div num (Z2F 1000))) (S i)
    (if num_gt (fmod num (Z2F 1000)) zero then
       (if (0 <? i)%nat then
          (convertHundreds (fmod num (Z2F 1000)) ++ lit " "
             ++ or_undefined (nth_error SCALES i)) :: parts
        else convertHundreds (fmod num (Z2F 1000)) :: parts)
     else parts).
Proof.
  intros H. cbn [words_loop]. rewrite H. reflexivity.
Qed.

Lemma Z2F_gt_zero (c : Z) :
  0 <= c < 2 ^ 53 -> num_gt (Z2F c) zero = (0 <? c).
Proof.
  intros Hc. destruct (Z.eq_dec c 0) as [->|Hne]; [reflexivity|].
  rewrite Z2F_positive by lia. symmetry. apply Z.ltb_lt. lia.
Qed.

(** The loop on an integer collects the words of its chunks. *)
Lemma words_loop_Z2F (count : nat) :
  forall fuel n i parts,
    0 <= n < 2 ^ 53 -> n < 1000 ^ Z.of_nat count -> (count <= fuel)%nat ->
    words_loop fuel (Z2F n) i parts
    = Some (phrases i (chunks count n) ++ parts).
Proof.
  induction count as [|count IH]; intros fuel n i parts Hn Hc Hf.
  - assert (n = 0) by (simpl in Hc; lia). subst n.
    apply words_loop_zero.
  - destruct (Z.eq_dec n 0) as [->|Hne]; [apply words_loop_zero|].
    destruct fuel as [|fuel]; [lia|].
    rewrite words_loop_step by (apply Z2F_positive; lia).
    rewrite fmod_Z2F by (change (2 ^ 53) with 9007199254740992; lia).
    rewrite floor_div_Z2F by (change (2 ^ 53) with 9007199254740992; lia).
    pose proof (Z.mod_pos_bound n 1000 ltac:(lia)) as Hr.
    assert (Hq : 0 <= n / 1000 < 2 ^ 53).
    { split; [apply Z.div_pos; lia|].
      apply Z.div_lt_upper_bound; lia. }
    assert (Hq' : n / 1000 < 1000 ^ Z.of_nat count).
    { apply Z.div_lt_upper_bound; [lia|].
      rewrite Nat2Z.inj_succ, Z.pow_succ_r in Hc by lia. lia. }
    rewrite IH by (auto; lia).
    f_equal. cbn [chunks].
    assert (Hpos : (0 <? n) = true) by (apply Z.ltb_lt; lia).
    rewrite Hpos. cbn [phrases]. rewrite <- app_assoc. f_equal.
    rewrite Z2F_gt_zero by (change (2 ^ 53) with 9007199254740992; lia).
    destruct (0 <? n mod 1000) eqn:Hc0; [|reflexivity].
    apply Z.ltb_lt in Hc0.
    rewrite convertHundreds_chunk by lia.
    unfold chunk_words, scale_word. destruct (0 <? i)%nat; reflexivity.
Qed.

Lemma numberToWords_step (fuel : nat) (num : number) :
  num_eq num zero = false ->
  numberToWords (S fuel) num =
  if num_lt num zero then
    option_map (app (lit "negative ")) (numberToWords fuel (neg num))
  else option_map (join (lit " ")) (words_loop fuel num 0 []).
Proof.
  intros H. cbn [numberToWords]. rewrite H. reflexivity.
Qed.

Lemma numberToWords_Z2F (fuel : nat) (n : Z) :
  0 < n < 2 ^ 53 -> (7 <= fuel)%nat ->
  numberToWords fuel (Z2F n) = Some (words_of n).
Proof.
  intros Hn Hf. destruct fuel as [|fuel]; [lia|].
  destruct (Z2F_normal n Hn) as (M & E & HZ & _).
  rewrite numberToWords_step by (rewrite HZ; reflexivity).
  replace (num_lt (Z2F n) zero) with false by (rewrite HZ; reflexivity).
  rewrite (words_loop_Z2F 6) by (try lia; change (1000 ^ Z.of_nat 6)
    with 1000000000000000000; change (2 ^ 53) with 9007199254740992 in Hn; lia).
  rewrite app_nil_r. reflexivity.
Qed.

(** The sign given to [binary_round_aux] is the sign of its result. *)
Lemma binary_round_aux_opp s m e l :
  binary_round_aux prec emax (negb s) m e l
  = SFopp (binary_round_aux prec emax s m e l).
Proof.
  unfold binary_round_aux.
  destruct (shr_fexp prec emax m e l) as [mrs' e'].
  destruct (shr_fexp prec emax _ e' loc_Exact) as [mrs'' e''].
  destruct (shr_m mrs''); auto.
  destruct (e'' <=? emax - prec); auto.
Qed.

Lemma Z2F_opp (n : Z) : n <> 0 -> Z2F (- n) = neg (Z2F n).
Proof.
  intros Hn. unfold Z2F, neg, binary_normalize, binary_round.
  destruct n as [|p|p]; [congruence| |]; simpl Z.opp; cbv iota.
  - destruct (shl_align p 0 _) as [mz ez].
    apply (binary_round_aux_opp false).
  - destruct (shl_align p 0 _) as [mz ez].
    apply (binary_round_aux_opp true).
Qed.

Lemma numberToWords_negative (fuel : nat) (x : number) :
  num_lt x zero = true ->
  numberToWords (S fuel) x
  = option_map (app (lit "negative ")) (numberToWords fuel (neg x)).
Proof.
  intros H. rewrite numberToWords_step, H; [reflexivity|].
  destruct x as [[]|[]| |[] m e]; try discriminate H; reflexivity.
Qed.

(** C7. [numberToWords] maps zero to ["zero"], a negative number to
    ["negative "] followed by the words of its opposite, and a positive
    integer (below [2^53], where integers are exact) to the words of its
    base-1000 chunks, the most significant first, joined by spaces, the
    chunks equal to zero left out; 1000000 gives ["one million"], -5 gives
    ["negative five"] and the words of 1000000001 do not contain
    ["thousand"]. *)
Theorem numberToWords_spec :
  (forall fuel, numberToWords fuel (Z2F 0) = Some (lit "zero"))
  /\ (forall fuel x,
        num_lt x zero = true ->
        numberToWords (S fuel) x
        = option_map (app (lit "negative ")) (numberToWords fuel (neg x)))
  /\ (forall fuel n,
        - 2 ^ 53 < n < 0 -> (8 <= fuel)%nat ->
        numberToWords fuel (Z2F n)
        = Some (lit "negative " ++ words_of (- n)))
  /\ (forall fuel n,
        0 < n < 2 ^ 53 -> (7 <= fuel)%nat ->
        numberToWords fuel (Z2F n) = Some (words_of n))
  /\ numberToWords 7 (Z2F 1000000) = Some (lit "one million")
  /\ numberToWords 8 (Z2F (-5)) = Some (lit "negative five")
  /\ (exists w, numberToWords 7 (Z2F 1000000001) = Some w
                /\ includes w (lit "thousand") = false).
Proof.
  split; [intros fuel; destruct fuel; reflexivity|].
  split; [exact numberToWords_negative|].
  split.
  { intros fuel n Hn Hf. destruct fuel as [|fuel]; [lia|].
    assert (Hx : Z2F n = neg (Z2F (- n))).
    { rewrite <- (Z.opp_involutive n) at 1. apply Z2F_opp. lia. }
    destruct (Z2F_normal (- n) ltac:(lia)) as (M & E & HZ & _).
    rewrite numberToWords_negative by (rewrite Hx, HZ; reflexivity).
    rewrite Hx, HZ. cbn [neg SFopp negb]. rewrite <- HZ.
    rewrite numberToWords_Z2F by lia. reflexivity. }
  split; [exact numberToWords_Z2F|].
  split; [vm_compute; reflexivity|].
  split; [vm_compute; reflexivity|].
  eexists. split; vm_compute; reflexivity.
Qed.

Lemma numberToWords_spec_witness :
  numberToWords 7 (Z2F 1234567) = Some (words_of 1234567)
  /\ words_of 1234567
     = lit ("one million two hundred thirty-four thousand "
            ++ "five hundred sixty-seven").
Proof.
  split.
  - apply numberToWords_spec; [vm_compute; split; reflexivity | lia].
  - vm_compute. reflexivity.
Defined.

(** ** The shorthand grammar *)

Lemma span_digits_app (ip rest : jsstring) :
  forallb is_digit ip = true -> head_not_digit rest ->
  span is_digit (ip ++ rest) = (ip, rest).
Proof.
  intros Hip Hrest. induction ip as [|c ip IH]; simpl.
  - destruct rest as [|d rest]; simpl in *; [reflexivity|].
    rewrite Hrest. reflexivity.
  - simpl in Hip. apply andb_true_iff in Hip as [Hc Hip].
    rewrite Hc, IH by exact Hip. reflexivity.
Qed.

Lemma span_digits_spec (s a b : jsstring) :
  span is_digit s = (a, b) ->
  s = a ++ b /\ forallb is_digit a = true /\ head_not_digit b.
Proof.
  revert a b. induction s as [|c s IH]; simpl; intros a b H.
  - injection H as <- <-. simpl. auto.
  - destruct (is_digit c) eqn:Hc.
    + destruct (span is_digit s) as [a' b'].
      injection H as <- <-.
      destruct (IH a' b' eq_refl) as (-> & Ha & Hb).
      simpl. rewrite Hc. auto.
    + injection H as <- <-. simpl. auto.
Qed.

Lemma suffix_not_digit (c : char) : is_suffix c = true -> is_digit c = false.
Proof.
  unfold is_suffix, is_digit, existsb.
  rewrite !orb_true_iff, !N.eqb_eq, andb_false_iff, !N.leb_gt. lia.
Qed.

Lemma suffix_not_period (c : char) : is_suffix c = true -> (c =? 46)%N = false.
Proof.
  unfold is_suffix, existsb.
  rewrite !orb_true_iff, !N.eqb_eq, N.eqb_neq. lia.
Qed.

Lemma suffix_head_not_digit (sfx : jsstring) :
  sfx = [] \/ (exists c, sfx = [c] /\ is_suffix c = true) ->
  head_not_digit sfx.
Proof.
  intros [->|(c & -> & Hc)]; simpl; auto using suffix_not_digit.
Qed.

(** The regular expression accepts exactly the strings of the grammar. *)
Lemma match_shorthand_complete (clean ip dot fp sfx : jsstring) :
  shorthand_accepts clean ip dot fp sfx ->
  match_shorthand clean = Some (ip ++ dot ++ fp, sfx).
Proof.
  intros (-> & Hne & Hip & Hfp & Hdot & Hsfx).
  pose proof (suffix_head_not_digit sfx Hsfx) as Hhead.
  unfold match_shorthand.
  rewrite span_digits_app; auto.
  2:{ destruct Hdot as [->|[-> ->]]; simpl; auto. }
  destruct ip as [|c ip]; [congruence|].
  destruct Hdot as [->|[-> ->]].
  - change (lit "." ++ fp ++ sfx) with (46%N :: fp ++ sfx). cbv iota.
    change (46 =? 46)%N with true. cbv iota.
    rewrite span_digits_app; auto.
    destruct Hsfx as [->|(d & -> & Hd)].
    + reflexivity.
    + rewrite Hd. reflexivity.
  - simpl app at 1.
    destruct Hsfx as [->|(d & -> & Hd)].
    + reflexivity.
    + simpl. rewrite (suffix_not_period d Hd). simpl.
      rewrite (suffix_not_digit d Hd), Hd. reflexivity.
Qed.

Lemma match_shorthand_sound (clean np sfx : jsstring) :
  match_shorthand clean = Some (np, sfx) ->
  exists ip dot fp,
    np = ip ++ dot ++ fp /\ shorthand_accepts clean ip dot fp sfx.
Proof.
  unfold match_shorthand.
  destruct (span is_digit clean) as [ip r1] eqn:H1.
  apply span_digits_spec in H1 as (-> & Hip & Hr1).
  destruct ip as [|c ip]; [discriminate|].
  set (ip' := c :: ip) in *.
  assert (Hne : ip' <> []) by discriminate.
  destruct r1 as [|d r1].
  - simpl. intros H. injection H as <- <-.
    exists ip', [], []. split; [reflexivity|].
    repeat split; auto.
  - destruct (d =? 46)%N eqn:Hd.
    + apply N.eqb_eq in Hd. subst d.
      destruct (span is_digit r1) as [fp r3] eqn:H3.
      apply span_digits_spec in H3 as (-> & Hfp & Hr3).
      destruct r3 as [|e [|]]; try discriminate.
      * intros H. injection H as <- <-.
        exists ip', [46%N], fp. split; [reflexivity|].
        repeat split; auto.
      * destruct (is_suffix e) eqn:He; [|discriminate].
        intros H. injection H as <- <-.
        exists ip', [46%N], fp. split; [reflexivity|].
        repeat split; eauto.
    + simpl in Hr1. simpl span. rewrite Hr1.
      destruct r1 as [|]; [|discriminate].
      destruct (is_suffix d) eqn:Hs; [|discriminate].
      intros H. injection H as <- <-.
      exists ip', [], []. split; [reflexivity|].
      repeat split; eauto.
Qed.

(** ** [parseFloat] on a decimal without sign and exponent *)

Lemma digit_not_space (c : char) : is_digit c = true -> is_space c = false.
Proof.
  unfold is_digit, is_space.
  rewrite !andb_true_iff, !N.leb_le.
  rewrite !orb_false_iff, !andb_false_iff, !Z.leb_gt, !Z.eqb_neq.
  lia.
Qed.

Lemma digit_range (c : char) : is_digit c = true -> (48 <= c <= 57)%N.
Proof. unfold is_digit. rewrite andb_true_iff, !N.leb_le. lia. Qed.

Lemma parseFloat_decimal (ip dot fp : jsstring) :
  ip <> [] -> forallb is_digit ip = true -> forallb is_digit fp = true ->
  dot = lit "." \/ (dot = [] /\ fp = []) ->
  parseFloat (ip ++ dot ++ fp) = decimal_value ip fp.
Proof.
  intros Hne Hip Hfp Hdot.
  destruct ip as [|c ip]; [congruence|].
  pose proof Hip as Hc. simpl in Hc. apply andb_true_iff in Hc as [Hc _].
  pose proof (digit_range c Hc) as Hr.
  unfold parseFloat.
  change ((c :: ip) ++ dot ++ fp) with (c :: ip ++ dot ++ fp).
  cbn [trim_start]. rewrite (digit_not_space c Hc).
  assert (H45 : (c =? 45)%N = false) by (apply N.eqb_neq; lia).
  assert (H43 : (c =? 43)%N = false) by (apply N.eqb_neq; lia).
  rewrite H45, H43.
  assert (HI : starts_with (lit "Infinity") (c :: ip ++ dot ++ fp) = false).
  { change (lit "Infinity") with (73%N :: lit "nfinity").
    cbn [starts_with]. unfold char_eqb.
    assert (H73 : (73 =? c)%N = false) by (apply N.eqb_neq; lia).
    rewrite H73. reflexivity. }
  rewrite HI.
  change (c :: ip ++ dot ++ fp) with ((c :: ip) ++ dot ++ fp).
  rewrite span_digits_app; auto.
  2:{ destruct Hdot as [->|[-> ->]]; simpl; auto. }
  unfold decimal_value.
  destruct Hdot as [->|[-> ->]].
  - change (lit "." ++ fp) with (46%N :: fp). cbv iota.
    rewrite N.eqb_refl.
    rewrite <- (app_nil_r fp) at 1.
    rewrite span_digits_app by (simpl; auto).
    cbn [app exponent_part]. unfold scale10. rewrite Z.sub_0_r.
    replace (0 <=? Z.of_nat (List.length fp)) with true
      by (symmetry; apply Z.leb_le; lia).
    rewrite Z.mul_1_l. reflexivity.
  - cbn [app]. rewrite !app_nil_r. reflexivity.
Qed.

(** ** Rounded ratios are numbers *)

Lemma SFdiv_core_quotient_nonneg (a b e1 e2 : Z) :
  0 <= a -> 0 < b ->
  0 <= fst (fst (SFdiv_core_binary prec emax a e1 b e2)).
Proof.
  intros Ha Hb. unfold SFdiv_core_binary.
  set (s := _ - _ - _).
  assert (Hm : 0 <= match s with
                    | 0 => a
                    | Z.pos _ => Z.shiftl a s
                    | Z.neg _ => 0
                    end).
  { destruct s; try lia. apply Z.shiftl_nonneg. exact Ha. }
  set (m' := match s with 0 => a | Z.pos _ => Z.shiftl a s | Z.neg _ => 0 end)
    in *.
  pose proof (Z.div_pos m' b Hm Hb) as Hq.
  unfold Z.div in Hq.
  destruct (Z.div_eucl m' b) as [q r]. simpl in *. exact Hq.
Qed.

Lemma round_ratio_cases (s : bool) (a b : Z) :
  0 <= a -> 0 < b ->
  round_ratio s a b = S754_zero s
  \/ round_ratio s a b = S754_infinity s
  \/ exists m e, round_ratio s a b = S754_finite s m e.
Proof.
  intros Ha Hb. unfold round_ratio.
  pose proof (SFdiv_core_quotient_nonneg a b 0 0 Ha Hb) as Hq.
  destruct (SFdiv_core_binary prec emax a 0 b 0) as [[m e] l].
  simpl in Hq. apply binary_round_aux_cases, Hq.
Qed.

Lemma digits_val_nonneg (ds : jsstring) :
  forallb is_digit ds = true -> 0 <= digits_val ds.
Proof.
  unfold digits_val.
  assert (H : forall acc,
             0 <= acc -> forallb is_digit ds = true ->
             0 <= fold_left (fun a c => 10 * a + digit_val c) ds acc).
  { induction ds as [|c ds IH]; cbn [fold_left forallb];
      intros acc Hacc Hds; [exact Hacc|].
    apply andb_true_iff in Hds as [Hc Hds].
    apply IH; auto. destruct (digit_range c Hc) as [Hlo _].
    apply N2Z.inj_le in Hlo. change (Z.of_N 48) with 48 in Hlo.
    unfold digit_val. lia. }
  apply H. lia.
Qed.

Lemma decimal_value_cases (ip fp : jsstring) :
  forallb is_digit ip = true -> forallb is_digit fp = true ->
  decimal_value ip fp = S754_zero false
  \/ decimal_value ip fp = S754_infinity false
  \/ exists m e, decimal_value ip fp = S754_finite false m e.
Proof.
  intros Hip Hfp. apply round_ratio_cases.
  - apply digits_val_nonneg. rewrite forallb_app, Hip, Hfp. reflexivity.
  - apply Z.pow_pos_nonneg; lia.
Qed.

(** ** The multiplier of a suffix *)

Lemma suffix_cases (c : char) :
  is_suffix c = true -> In c [75; 77; 66; 84; 107; 109; 98; 116]%N.
Proof.
  unfold is_suffix, existsb. rewrite !orb_true_iff, !N.eqb_eq.
  intros H. simpl.
  repeat (destruct H as [H|H]; [subst c; auto 10|]). discriminate H.
Qed.

Lemma multiplier_magnitude (sfx : jsstring) :
  sfx = [] \/ (exists c, sfx = [c] /\ is_suffix c = true) ->
  multiplier_of sfx = Z2F (magnitude sfx).
Proof.
  intros [->|(c & -> & Hc)]; [reflexivity|].
  apply suffix_cases in Hc. simpl in Hc.
  repeat (destruct Hc as [<-|Hc]; [reflexivity|]). contradiction.
Qed.

Lemma magnitude_normal (sfx : jsstring) :
  exists m e, Z2F (magnitude sfx) = S754_finite false m e.
Proof.
  unfold magnitude.
  destruct sfx as [|c [|]]; try (eexists; eexists; reflexivity).
  repeat match goal with
         | |- context [if ?b then _ else _] => destruct b
         end; eexists; eexists; reflexivity.
Qed.

Lemma mul_unsigned (x y : number) :
  isNaN x = false -> sign_bit x = false ->
  (exists m e, y = S754_finite false m e) ->
  isNaN (mul x y) = false /\ sign_bit (mul x y) = false.
Proof.
  intros Hn Hs (m & e & ->).
  destruct x as [s|s| |s mx ex]; simpl in *; subst; try discriminate; auto.
  destruct (binary_round_aux_cases false (Z.pos (mx * m)) (ex + e) loc_Exact)
    as [H|[H|(m' & e' & H)]]; [lia| | |]; unfold mul, SFmul; simpl xorb;
    rewrite H; auto.
Qed.

(** [parseShorthand] in terms of the grammar. *)
Lemma parseShorthand_accepts (input ip dot fp sfx : jsstring) :
  shorthand_accepts (filter is_shorthand_char input) ip dot fp sfx ->
  parseShorthand input
  = Some (mul (decimal_value ip fp) (Z2F (magnitude sfx))).
Proof.
  intros H. pose proof H as (_ & Hne & Hip & Hfp & Hdot & Hsfx).
  unfold parseShorthand.
  rewrite (match_shorthand_complete _ _ _ _ _ H).
  rewrite parseFloat_decimal by auto.
  rewrite multiplier_magnitude by auto.
  destruct (decimal_value_cases ip fp Hip Hfp) as [E|[E|(m & e & E)]];
    rewrite E; reflexivity.
Qed.

Lemma parseShorthand_Some (input : jsstring) (v : number) :
  parseShorthand input = Some v ->
  exists ip dot fp sfx,
    shorthand_accepts (filter is_shorthand_char input) ip dot fp sfx
    /\ v = mul (decimal_value ip fp) (Z2F (magnitude sfx)).
Proof.
  intros H.
  destruct (match_shorthand (filter is_shorthand_char input))
    as [[np sfx]|] eqn:Hm.
  - apply match_shorthand_sound in Hm as (ip & dot & fp & -> & Hacc).
    exists ip, dot, fp, sfx. split; [exact Hacc|].
    rewrite (parseShorthand_accepts _ _ _ _ _ Hacc) in H. congruence.
  - unfold parseShorthand in H. rewrite Hm in H. discriminate.
Qed.

Lemma parseShorthand_None (input : jsstring) :
  parseShorthand input = None <->
  ~ exists ip dot fp sfx,
      shorthand_accepts (filter is_shorthand_char input) ip dot fp sfx.
Proof.
  split.
  - intros H (ip & dot & fp & sfx & Hacc).
    rewrite (parseShorthand_accepts _ _ _ _ _ Hacc) in H. discriminate.
  - intros H. destruct (parseShorthand input) as [v|] eqn:Hv; auto.
    exfalso. apply H.
    apply parseShorthand_Some in Hv as (ip & dot & fp & sfx & Hacc & _).
    eauto.
Qed.

(** C4. On an input whose cleaned form is accepted by the shorthand grammar,
    [parseShorthand] returns the parsed decimal multiplied by the magnitude
    of the suffix (1 without suffix, [10^3], [10^6], [10^9], [10^12] for K, M,
    B, T in either case), and it returns no match on any other input;
    ["2.5M"] gives 2500000, ["1K"] gives 1000, ["1.5"] gives 1.5 and ["abc"]
    gives no match. *)
Theorem parseShorthand_spec :
  (forall input ip dot fp sfx,
      shorthand_accepts (filter is_shorthand_char input) ip dot fp sfx ->
      parseShorthand input
      = Some (mul (decimal_value ip fp) (Z2F (magnitude sfx)))
      /\ multiplier_of sfx = Z2F (magnitude sfx))
  /\ (forall input,
        (~ exists ip dot fp sfx,
            shorthand_accepts (filter is_shorthand_char input) ip dot fp sfx) ->
        parseShorthand input = None)
  /\ map magnitude [[]; lit "K"; lit "k"; lit "M"; lit "m";
                    lit "B"; lit "b"; lit "T"; lit "t"]
     = [1; 10 ^ 3; 10 ^ 3; 10 ^ 6; 10 ^ 6; 10 ^ 9; 10 ^ 9; 10 ^ 12; 10 ^ 12]
  /\ parseShorthand (lit "2.5M") = Some (Z2F 2500000)
  /\ parseShorthand (lit "1K") = Some (Z2F 1000)
  /\ parseShorthand (lit "1.5") = Some one_and_a_half
  /\ parseShorthand (lit "abc") = None.
Proof.
  split.
  { intros input ip dot fp sfx H. split.
    - apply (parseShorthand_accepts _ _ _ _ _ H).
    - apply multiplier_magnitude. apply H. }
  split; [intros input H; apply parseShorthand_None, H|].
  repeat split; vm_compute; reflexivity.
Qed.

Lemma parseShorthand_spec_witness :
  shorthand_accepts (filter is_shorthand_char (lit "$ 2,5.25m"))
    (lit "25") (lit ".") (lit "25") (lit "m")
  /\ parseShorthand (lit "$ 2,5.25m")
     = Some (mul (decimal_value (lit "25") (lit "25"))
                 (Z2F (magnitude (lit "m")))).
Proof.
  assert (H : shorthand_accepts (filter is_shorthand_char (lit "$ 2,5.25m"))
                (lit "25") (lit ".") (lit "25") (lit "m")).
  { repeat split; try reflexivity; try discriminate; auto.
    right. exists 109%N. split; reflexivity. }
  split; [exact H|].
  apply (proj1 parseShorthand_spec _ _ _ _ _ H).
Defined.

Lemma unsigned_not_negative (v : number) :
  sign_bit v = false -> num_lt v zero = false.
Proof.
  destruct v as [[]|[]| |[] m e]; simpl; intros H;
    try discriminate H; reflexivity.
Qed.

(** C5. A leading minus sign is removed by the cleaning, so the input with
    the sign is parsed as the input without it, and the number returned is
    never negative; ["-1.5K"] gives 1500. *)
Theorem parseShorthand_sign_stripped :
  (forall s, parseShorthand (lit "-" ++ s) = parseShorthand s)
  /\ (forall s v,
        parseShorthand s = Some v ->
        isNaN v = false /\ sign_bit v = false /\ num_lt v zero = false)
  /\ parseShorthand (lit "-1.5K") = Some (Z2F 1500).
Proof.
  split; [reflexivity|]. split; [|vm_compute; reflexivity].
  intros s v H.
  apply parseShorthand_Some in H as (ip & dot & fp & sfx & Hacc & ->).
  destruct Hacc as (_ & _ & Hip & Hfp & _).
  assert (Hd : isNaN (decimal_value ip fp) = false
               /\ sign_bit (decimal_value ip fp) = false).
  { destruct (decimal_value_cases ip fp Hip Hfp) as [E|[E|(m & e & E)]];
      rewrite E; auto. }
  destruct (mul_unsigned (decimal_value ip fp) (Z2F (magnitude sfx))
              (proj1 Hd) (proj2 Hd) (magnitude_normal sfx)) as [Hn Hs].
  auto using unsigned_not_negative.
Qed.

Lemma parseShorthand_sign_stripped_witness :
  parseShorthand (lit "-2.5M") = Some (Z2F 2500000)
  /\ num_lt (Z2F 2500000) zero = false.
Proof.
  split; [vm_compute; reflexivity|].
  apply (proj1 (proj2 parseShorthand_sign_stripped) (lit "-2.5M")).
  vm_compute. reflexivity.
Defined.

(** ** The round trip *)

Lemma roundtrip_range_units :
  forallb (fun k => roundtrip_abs (k * 1)) (Z_range (-999) 1999) = true.
Proof. vm_compute. reflexivity. Qed.

Lemma roundtrip_range_thousands :
  forallb (fun k => roundtrip_abs (k * 10 ^ 3)) (Z_range (-999) 1999) = true.
Proof. vm_compute. reflexivity. Qed.

Lemma roundtrip_range_millions :
  forallb (fun k => roundtrip_abs (k * 10 ^ 6)) (Z_range (-999) 1999) = true.
Proof. vm_compute. reflexivity. Qed.

Lemma roundtrip_range_billions :
  forallb (fun k => roundtrip_abs (k * 10 ^ 9)) (Z_range (-999) 1999) = true.
Proof. vm_compute. reflexivity. Qed.

Lemma multiple_in_range (n scale : Z) :
  0 < scale -> Z.abs n < 1000 * scale -> n mod scale = 0 ->
  n = (n / scale) * scale /\ -999 <= n / scale < -999 + Z.of_nat 1999.
Proof.
  intros Hs Hn Hm.
  assert (Hk : n = (n / scale) * scale).
  { rewrite Z.mul_comm. apply Z.div_exact; lia. }
  split; [exact Hk|]. nia.
Qed.

Lemma roundtrip_abs_multiple (n : Z) :
  Z.abs n < 10 ^ 12 -> n mod selected_scale n = 0 -> roundtrip_abs n = true.
Proof.
  unfold selected_scale. intros Hn Hm.
  change (10 ^ 12) with 1000000000000 in Hn.
  change (10 ^ 9) with 1000000000 in Hm.
  change (10 ^ 6) with 1000000 in Hm.
  change (10 ^ 3) with 1000 in Hm.
  destruct (1000000000 <=? Z.abs n) eqn:H9;
    [|destruct (1000000 <=? Z.abs n) eqn:H6;
      [|destruct (1000 <=? Z.abs n) eqn:H3]];
    rewrite ?Z.leb_le, ?Z.leb_gt in *.
  - destruct (multiple_in_range n (10 ^ 9)) as [Hk Hr];
      [reflexivity | change (10 ^ 9) with 1000000000; lia | exact Hm |].
    rewrite Hk.
    apply (Z_range_forallb (fun k => roundtrip_abs (k * 10 ^ 9)) _ _
             roundtrip_range_billions _ Hr).
  - destruct (multiple_in_range n (10 ^ 6)) as [Hk Hr];
      [reflexivity | change (10 ^ 6) with 1000000; lia | exact Hm |].
    rewrite Hk.
    apply (Z_range_forallb (fun k => roundtrip_abs (k * 10 ^ 6)) _ _
             roundtrip_range_millions _ Hr).
  - destruct (multiple_in_range n (10 ^ 3)) as [Hk Hr];
      [reflexivity | change (10 ^ 3) with 1000; lia | exact Hm |].
    rewrite Hk.
    apply (Z_range_forallb (fun k => roundtrip_abs (k * 10 ^ 3)) _ _
             roundtrip_range_thousands _ Hr).
  - destruct (multiple_in_range n 1) as [Hk Hr];
      [reflexivity | lia | exact Hm |].
    rewrite Hk.
    apply (Z_range_forallb (fun k => roundtrip_abs (k * 1)) _ _
             roundtrip_range_units _ Hr).
Qed.

Lemma num_eq_refl (x : number) : isNaN x = false -> num_eq x x = true.
Proof.
  destruct x as [s|s| |s m e]; simpl; try discriminate; intros _.
  - reflexivity.
  - destruct s; reflexivity.
  - unfold num_eq, SFeqb, SFcompare.
    rewrite Z.compare_refl, Pos.compare_cont_refl. destruct s; reflexivity.
Qed.

Lemma Z2F_not_NaN (n : Z) : 0 <= n < 2 ^ 53 -> isNaN (Z2F n) = false.
Proof.
  intros Hn. destruct (Z.eq_dec n 0) as [->|Hne]; [reflexivity|].
  destruct (Z2F_normal n ltac:(lia)) as (M & E & -> & _). reflexivity.
Qed.

(** C3, as the code has it. For an integer [n] with [|n| < 10^12] that is a
    multiple of the scale [numberToShorthand] selects for it,
    [parseShorthand(numberToShorthand(n))] is [|n|]: the round trip holds for
    [n >= 0], and the sign of a negative [n] is lost. *)
Theorem shorthand_roundtrip_abs (n : Z) :
  Z.abs n < 10 ^ 12 ->
  n mod selected_scale n = 0 ->
  parseShorthand (numberToShorthand (Z2F n)) = Some (Z2F (Z.abs n))
  /\ (0 <= n -> roundtrip n).
Proof.
  intros Hn Hm.
  pose proof (roundtrip_abs_multiple n Hn Hm) as H.
  unfold roundtrip_abs in H.
  destruct (parseShorthand (numberToShorthand (Z2F n))) as [v|] eqn:Hv;
    [|discriminate].
  apply number_eqb_eq in H. subst v. split; [reflexivity|].
  intros Hpos. exists (Z2F n). rewrite Z.abs_eq in Hv by exact Hpos.
  split; [exact Hv|].
  apply num_eq_refl, Z2F_not_NaN.
  change (10 ^ 12) with 1000000000000 in Hn.
  change (2 ^ 53) with 9007199254740992. lia.
Qed.

Lemma shorthand_roundtrip_abs_witness :
  parseShorthand (numberToShorthand (Z2F 25000000)) = Some (Z2F 25000000)
  /\ roundtrip 25000000.
Proof.
  assert (H1 : Z.abs 25000000 < 10 ^ 12) by reflexivity.
  assert (H2 : 25000000 mod selected_scale 25000000 = 0) by reflexivity.
  destruct (shorthand_roundtrip_abs 25000000 H1 H2) as [Ha Hb].
  split; [exact Ha|]. apply Hb. discriminate.
Defined.

(** C3, as stated, fails on a negative multiple of a scale:
    [numberToShorthand(-1000)] is ["-1K"], which [parseShorthand] reads as
    1000. It also fails on a multiple of a scale that applies but is not the
    one selected: 1234000 is a multiple of [10^3], [numberToShorthand] gives
    ["1.2M"], which is read as 1200000. *)
Lemma shorthand_roundtrip_fails :
  (Z.abs (-1000) < 10 ^ 12
   /\ applicable_multiple (-1000)
   /\ numberToShorthand (Z2F (-1000)) = lit "-1K"
   /\ parseShorthand (lit "-1K") = Some (Z2F 1000)
   /\ ~ roundtrip (-1000))
  /\
  (Z.abs 1234000 < 10 ^ 12
   /\ applicable_multiple 1234000
   /\ numberToShorthand (Z2F 1234000) = lit "1.2M"
   /\ parseShorthand (lit "1.2M") = Some (Z2F 1200000)
   /\ ~ roundtrip 1234000).
Proof.
  split.
  - split; [reflexivity|]. split.
    { exists (10 ^ 3). split; [simpl; auto|].
      split; [apply Z.leb_le|]; vm_compute; reflexivity. }
    split; [vm_compute; reflexivity|]. split; [vm_compute; reflexivity|].
    intros (v & Hv & He).
    assert (H : parseShorthand (numberToShorthand (Z2F (-1000)))
                = Some (Z2F 1000)) by (vm_compute; reflexivity).
    rewrite H in Hv. injection Hv as <-. vm_compute in He. discriminate He.
  - split; [reflexivity|]. split.
    { exists (10 ^ 3). split; [simpl; auto|].
      split; [apply Z.leb_le|]; vm_compute; reflexivity. }
    split; [vm_compute; reflexivity|]. split; [vm_compute; reflexivity|].
    intros (v & Hv & He).
    assert (H : parseShorthand (numberToShorthand (Z2F 1234000))
                = Some (Z2F 1200000)) by (vm_compute; reflexivity).
    rewrite H in Hv. injection Hv as <-. vm_compute in He. discriminate He.
Qed.

(** ** The shorthand formatter *)

Lemma numberToShorthand_table (x : number) :
  numberToShorthand x = shorthand_of x.
Proof.
  unfold numberToShorthand, shorthand_of, SHORTHAND_SCALES.
  destruct (num_eq x zero); [reflexivity|].
  cbn [find fst].
  change (10 ^ 12) with 1000000000000. change (10 ^ 9) with 1000000000.
  change (10 ^ 6) with 1000000. change (10 ^ 3) with 1000.
  destruct (num_ge (abs x) (Z2F 1000000000000)); [reflexivity|].
  destruct (num_ge (abs x) (Z2F 1000000000)); [reflexivity|].
  destruct (num_ge (abs x) (Z2F 1000000)); [reflexivity|].
  destruct (num_ge (abs x) (Z2F 1000)); reflexivity.
Qed.

Lemma numberToShorthand_negative (x : number) :
  num_lt x zero = true ->
  numberToShorthand x = lit "-" ++ numberToShorthand (neg x).
Proof.
  intros H. rewrite !numberToShorthand_table. unfold shorthand_of.
  destruct x as [[]|[]| |[] m e]; try discriminate H;
    cbn [num_eq num_lt neg abs SFopp SFabs negb SFeqb SFltb SFcompare zero];
    cbn [SFeqb SFltb SFcompare];
    match goal with
    | |- context [find ?f ?l] => destruct (find f l) as [[scale letter]|]
    end; reflexivity.
Qed.

Lemma num_ge_exponent (m M : positive) (e E : Z) :
  num_ge (S754_finite false m e) (S754_finite false M E) = true -> E <= e.
Proof.
  unfold num_ge, SFleb, SFcompare.
  destruct (Z.compare_spec E e); try lia; discriminate.
Qed.





(** ** The digits printed by [toFixed] *)













(** * Further properties of the converter and of the component *)

(** ** The currency extractor *)

Lemma find_first {A} (f : A -> bool) (l : list A) (x : A) :
  find f l = Some x ->
  exists i, nth_error l i = Some x /\ f x = true
            /\ forall j y, (j < i)%nat -> nth_error l j = Some y -> f y = false.
Proof.
  induction l as [|a l IH]; simpl; [discriminate|].
  destruct (f a) eqn:Hfa.
  - intros H. injection H as <-. exists 0%nat.
    split; [reflexivity|]. split; [exact Hfa|]. intros j y Hj. lia.
  - intros H. destruct (IH H) as (i & Hi & Hx & Hlt).
    exists (S i). split; [exact Hi|]. split; [exact Hx|].
    intros [|j] y Hj Hy; simpl in Hy.
    + injection Hy as <-. exact Hfa.
    + apply (Hlt j); [lia|exact Hy].
Qed.

Lemma includes_char (s : jsstring) (c : char) :
  includes s [c] = true <-> In c s.
Proof.
  induction s as [|d s IH]; simpl.
  - split; [discriminate|tauto].
  - unfold char_eqb. rewrite andb_true_r, orb_true_iff, IH, N.eqb_eq.
    intuition.
Qed.

Lemma symbols_are_chars (kv : jsstring * jsstring) :
  In kv CURRENCY_MAP -> exists c, fst kv = [c] /\ is_currency_char c = true.
Proof.
  intros H. simpl in H.
  repeat (destruct H as [<-|H]; [eexists; split; reflexivity|]).
  contradiction.
Qed.

(** X1. [extractCurrency] returns the first symbol of the table, in the order
    of the table, that occurs anywhere in the input, whatever the positions
    in the input; it returns nothing exactly when the input holds no currency
    symbol. With a euro sign before a dollar sign the dollar is returned. *)
Theorem extractCurrency_first_in_table_order :
  (forall input,
      match extractCurrency input with
      | Some s =>
          exists i c,
            nth_error (map fst CURRENCY_MAP) i = Some s /\ s = [c]
            /\ In c input
            /\ forall j c', (j < i)%nat ->
                            nth_error (map fst CURRENCY_MAP) j = Some [c'] ->
                            ~ In c' input
      | None => forall c, In c input -> is_currency_char c = false
      end)
  /\ extractCurrency ([8364%N] ++ lit "5" ++ [36%N]) = Some [36%N].
Proof.
  split; [|reflexivity].
  intros input. unfold extractCurrency.
  destruct (find (fun symbol => includes input symbol) (map fst CURRENCY_MAP))
    as [s|] eqn:Hf.
  - destruct (find_first _ _ _ Hf) as (i & Hi & Hs & Hlt).
    assert (Hin : In s (map fst CURRENCY_MAP)) by (eapply nth_error_In; eauto).
    apply in_map_iff in Hin as (kv & <- & Hkv).
    destruct (symbols_are_chars kv Hkv) as (c & Hc & _).
    exists i, c. split; [exact Hi|]. split; [exact Hc|].
    rewrite Hc in Hs. split; [apply includes_char, Hs|].
    intros j c' Hj Hn Hin. specialize (Hlt j [c'] Hj Hn).
    apply includes_char in Hin. congruence.
  - intros c Hin. destruct (is_currency_char c) eqn:Hc; [|reflexivity].
    exfalso. apply currency_char_cases in Hc.
    assert (Hm : In [c] (map fst CURRENCY_MAP)).
    { simpl in Hc |- *.
      repeat (destruct Hc as [<-|Hc]; [auto 10|]). contradiction. }
    pose proof (find_none _ _ Hf [c] Hm) as Hn. cbv beta in Hn.
    apply includes_char in Hin. congruence.
Qed.

Lemma extractCurrency_has_word (input c : jsstring) :
  extractCurrency input = Some c -> exists w, currency_word c = Some w.
Proof.
  unfold extractCurrency. intros H. apply find_some in H as [Hin _].
  simpl in Hin.
  repeat (destruct Hin as [<-|Hin]; [eexists; reflexivity|]). contradiction.
Qed.

(** X2. In a valid result the currency is the symbol found in the trimmed
    input, and the symbol and its word always come together: the lookup of
    the word never misses, the shorthand form is the symbol followed by the
    shorthand of the number, and the words form is the words of the number
    followed by a space and the word of the currency. Without a symbol both
    forms are those of the number alone. *)
Theorem valid_result_currency_forms (fuel : nat) (input : jsstring) r :
  convertNumber fuel input = Some r ->
  isValid r = true ->
  originalInput r = input
  /\ currency r = extractCurrency (trim input)
  /\ exists words,
       numberToWords fuel (numericValue r) = Some words
       /\ match currency r with
          | Some c =>
              exists w, currency_word c = Some w
                        /\ shorthandForm r = c ++ numberToShorthand (numericValue r)
                        /\ wordsForm r = words ++ lit " " ++ w
          | None =>
              shorthandForm r = numberToShorthand (numericValue r)
              /\ wordsForm r = words
          end.
Proof.
  unfold convertNumber.
  destruct (trim input) as [|c t] eqn:Ht.
  { intros H Hv. injection H as <-. discriminate Hv. }
  destruct (isNaN (decode (c :: t))).
  { intros H Hv. injection H as <-. discriminate Hv. }
  destruct (numberToWords fuel (decode (c :: t))) as [words|] eqn:Hw;
    [|discriminate].
  intros H _. injection H as <-. cbn [originalInput currency numericValue
                                       shorthandForm wordsForm].
  split; [reflexivity|]. split; [reflexivity|].
  exists words. split; [exact Hw|].
  destruct (extractCurrency (c :: t)) as [sym|] eqn:Hs; [|auto].
  destruct (extractCurrency_has_word _ _ Hs) as (w & Hcw).
  exists w. rewrite Hcw. auto.
Qed.

Lemma valid_result_currency_forms_witness :
  exists r, convertNumber 4 ([8364%N] ++ lit "2.5M") = Some r
            /\ isValid r = true
            /\ currency r = extractCurrency (trim ([8364%N] ++ lit "2.5M")).
Proof.
  destruct (convertNumber 4 ([8364%N] ++ lit "2.5M")) as [r|] eqn:H;
    [|vm_compute in H; discriminate H].
  assert (Hv : isValid r = true)
    by (vm_compute in H; injection H as <-; reflexivity).
  exists r. split; [reflexivity|]. split; [exact Hv|].
  apply (valid_result_currency_forms 4 ([8364%N] ++ lit "2.5M") r H Hv).
Defined.

(** ** Characters that do not count *)

Lemma kept_of_shorthand (c : char) :
  is_shorthand_char c = true -> is_kept_char c = true.
Proof. unfold is_kept_char. intros ->. reflexivity. Qed.

Lemma kept_of_plain (c : char) :
  is_plain_char c = true -> is_kept_char c = true.
Proof. unfold is_kept_char. intros ->. apply orb_true_r. Qed.

Lemma kept_char_not_space (c : char) :
  is_kept_char c = true -> is_space c = false.
Proof.
  unfold is_kept_char. intros H. apply orb_true_iff in H as [H|H].
  - apply shorthand_char_not_space, H.
  - apply plain_char_not_space, H.
Qed.

Lemma convertNumber_numericValue (fuel : nat) (input : jsstring) r :
  convertNumber fuel input = Some r ->
  numericValue r
  = if valid_input input then decode (trim input) else zero.
Proof.
  unfold convertNumber, valid_input.
  destruct (trim input) as [|c t].
  - intros H. injection H as <-. reflexivity.
  - destruct (isNaN (decode (c :: t))).
    + intros H. injection H as <-. reflexivity.
    + destruct (numberToWords fuel (decode (c :: t))); [|discriminate].
      intros H. injection H as <-. reflexivity.
Qed.

(** The decoded number of the trimmed input, from the kept characters of the
    input. *)
Lemma decode_trim_kept (s : jsstring) :
  decode (trim s) = decode (filter is_kept_char s).
Proof.
  apply decode_cleaned.
  - rewrite (filter_trim _ shorthand_char_not_space).
    symmetry. apply filter_filter_sub, kept_of_shorthand.
  - rewrite (filter_trim _ plain_char_not_space).
    symmetry. apply filter_filter_sub, kept_of_plain.
Qed.

Lemma valid_input_kept (s : jsstring) :
  valid_input s = negb (isNaN (decode (filter is_kept_char s))).
Proof.
  unfold valid_input. destruct (trim s) as [|c t] eqn:Ht.
  - apply trim_nil in Ht.
    rewrite (filter_all_space _ kept_char_not_space _ Ht). reflexivity.
  - rewrite <- Ht, decode_trim_kept. reflexivity.
Qed.

(** X3. Only the digits, the period, the minus sign and the letters K, M, B,
    T (in either case) of the input count: two inputs with the same such
    characters in the same order, whatever else they hold (spaces, commas,
    currency symbols, other text), get the same [numericValue] and the same
    [isValid]. *)
Theorem convertNumber_ignores_other_characters
    (fuel1 fuel2 : nat) (input1 input2 : jsstring) r1 r2 :
  filter is_kept_char input1 = filter is_kept_char input2 ->
  convertNumber fuel1 input1 = Some r1 ->
  convertNumber fuel2 input2 = Some r2 ->
  numericValue r1 = numericValue r2 /\ isValid r1 = isValid r2.
Proof.
  intros Hk H1 H2.
  rewrite (convertNumber_numericValue _ _ _ H1).
  rewrite (convertNumber_numericValue _ _ _ H2).
  rewrite (convertNumber_isValid _ _ _ H1), (convertNumber_isValid _ _ _ H2).
  rewrite !valid_input_kept, !decode_trim_kept, Hk. auto.
Qed.

Lemma convertNumber_ignores_other_characters_witness :
  exists r1 r2,
    convertNumber 4 (lit " $ 1,500 USD ") = Some r1
    /\ convertNumber 4 (lit "1500") = Some r2
    /\ numericValue r1 = numericValue r2 /\ isValid r1 = isValid r2.
Proof.
  destruct (convertNumber 4 (lit " $ 1,500 USD ")) as [r1|] eqn:H1;
    [|vm_compute in H1; discriminate H1].
  destruct (convertNumber 4 (lit "1500")) as [r2|] eqn:H2;
    [|vm_compute in H2; discriminate H2].
  exists r1, r2. split; [reflexivity|]. split; [reflexivity|].
  apply (convertNumber_ignores_other_characters 4 4
           (lit " $ 1,500 USD ") (lit "1500") r1 r2);
    [reflexivity | exact H1 | exact H2].
Defined.

(** ** The guards of [parseShorthand] *)

(** X4. [parseShorthand] returns no match only when the regular expression
    rejects the cleaned input: once it matches, the number part always
    parses to a number (the NaN guard never fires), and a captured suffix
    letter is always a key of the multiplier table (the default multiplier
    1 is used only without suffix). *)
Theorem parseShorthand_guards_never_fire :
  (forall input,
      parseShorthand input = None
      <-> match_shorthand (filter is_shorthand_char input) = None)
  /\ (forall clean numberPart suffix,
        match_shorthand clean = Some (numberPart, suffix) ->
        isNaN (parseFloat numberPart) = false
        /\ (suffix = []
            \/ exists c kv,
                 suffix = [c]
                 /\ find (fun kv => N.eqb (fst kv) c) multipliers = Some kv)).
Proof.
  assert (G : forall clean numberPart suffix,
             match_shorthand clean = Some (numberPart, suffix) ->
             isNaN (parseFloat numberPart) = false
             /\ (suffix = []
                 \/ exists c kv,
                      suffix = [c]
                      /\ find (fun kv => N.eqb (fst kv) c) multipliers
                         = Some kv)).
  { intros clean np sfx H.
    apply match_shorthand_sound in H as (ip & dot & fp & -> & Hacc).
    destruct Hacc as (_ & Hne & Hip & Hfp & Hdot & Hsfx).
    split.
    - rewrite parseFloat_decimal by auto.
      destruct (decimal_value_cases ip fp Hip Hfp) as [E|[E|(m & e & E)]];
        rewrite E; reflexivity.
    - destruct Hsfx as [->|(c & -> & Hc)]; [auto|].
      right. exists c. apply suffix_cases in Hc. simpl in Hc.
      repeat (destruct Hc as [<-|Hc]; [eexists; split; reflexivity|]).
      contradiction. }
  split; [|exact G].
  intros input. unfold parseShorthand.
  destruct (match_shorthand (filter is_shorthand_char input))
    as [[np sfx]|] eqn:Hm; [|tauto].
  destruct (G _ _ _ Hm) as [Hn _]. rewrite Hn.
  split; discriminate.
Qed.

Lemma parseShorthand_guards_never_fire_witness :
  isNaN (parseFloat (lit "42.7")) = false
  /\ exists c kv,
       lit "k" = [c]
       /\ find (fun kv => N.eqb (fst kv) c) multipliers = Some kv.
Proof.
  destruct (proj2 parseShorthand_guards_never_fire
              (lit "42.7k") (lit "42.7") (lit "k") eq_refl) as [Hn [Hs|Hs]].
  - discriminate Hs.
  - split; [exact Hn|exact Hs].
Defined.

(** ** The component *)

Lemma num_ge_zero_not_lt (x : number) :
  isNaN x = false -> num_ge x zero = negb (num_lt x zero).
Proof.
  destruct x as [[]|[]| |[] m e]; simpl; try discriminate; reflexivity.
Qed.

Lemma unsigned_ge_zero (x : number) :
  isNaN x = false -> sign_bit x = false -> num_ge x zero = true.
Proof.
  destruct x as [[]|[]| |[] m e]; simpl; try discriminate; reflexivity.
Qed.

(** X5. The component never shows the record of the empty-input branch: after
    the effect, the result is [null] exactly for a blank input, so a blank
    but non-empty input shows no card at all, and an invalid result that is
    shown always has the words ["invalid input"]. *)
Theorem component_blank_and_invalid (fuel : nat) (input : jsstring) res :
  effect fuel input = Some res ->
  (res = None <-> forallb is_space input = true)
  /\ (forall r, res = Some r -> isValid r = false ->
                wordsForm r = lit "invalid input"
                /\ showError (render input res) = true)
  /\ (forallb is_space input = true -> input <> [] ->
      showResults (render input res) = false
      /\ showError (render input res) = false
      /\ showEmpty (render input res) = false).
Proof.
  unfold effect. intros H.
  destruct (trim input) as [|c t] eqn:Ht.
  - injection H as <-. apply trim_nil in Ht.
    split; [tauto|]. split; [discriminate|].
    intros _ Hne. destruct input; [congruence|]. auto.
  - assert (Hns : forallb is_space input <> true).
    { intros Hs. apply trim_nil in Hs. congruence. }
    destruct (convertNumber fuel input) as [r|] eqn:Hr; [|discriminate].
    injection H as <-.
    split; [split; [discriminate|tauto]|].
    split; [|tauto].
    intros r' Hr' Hv. injection Hr' as <-.
    split; [|simpl; rewrite Hv; reflexivity].
    unfold convertNumber in Hr. rewrite Ht in Hr.
    destruct (isNaN (decode (c :: t))).
    + injection Hr as <-. reflexivity.
    + destruct (numberToWords fuel (decode (c :: t))); [|discriminate].
      injection Hr as <-. discriminate Hv.
Qed.

Lemma component_blank_and_invalid_witness :
  showResults (render (lit "  ") None) = false
  /\ showError (render (lit "  ") None) = false
  /\ showEmpty (render (lit "  ") None) = false.
Proof.
  apply (component_blank_and_invalid 0 (lit "  ") None);
    [reflexivity | reflexivity | discriminate].
Defined.

Lemma parseShorthand_unsigned (s : jsstring) (v : number) :
  parseShorthand s = Some v -> isNaN v = false /\ sign_bit v = false.
Proof.
  intros H.
  apply parseShorthand_Some in H as (ip & dot & fp & sfx & Hacc & ->).
  destruct Hacc as (_ & _ & Hip & Hfp & _).
  assert (Hd : isNaN (decimal_value ip fp) = false
               /\ sign_bit (decimal_value ip fp) = false).
  { destruct (decimal_value_cases ip fp Hip Hfp) as [E|[E|(m & e & E)]];
      rewrite E; auto. }
  exact (mul_unsigned (decimal_value ip fp) (Z2F (magnitude sfx))
           (proj1 Hd) (proj2 Hd) (magnitude_normal sfx)).
Qed.

(** X6. The badge of a valid result reads Negative exactly when the number
    is below zero, which happens only when the shorthand parser rejected the
    input; whenever the shorthand parser accepts the trimmed input the badge
    reads Positive, even if the input holds a minus sign. *)
Theorem component_sign_badge (fuel : nat) (input : jsstring) r :
  effect fuel input = Some (Some r) ->
  (signBadge (render input (Some r)) = Some Negative
   <-> isValid r = true /\ num_lt (numericValue r) zero = true)
  /\ (signBadge (render input (Some r)) = Some Negative ->
      parseShorthand (trim input) = None)
  /\ (forall v, parseShorthand (trim input) = Some v ->
                signBadge (render input (Some r)) = Some Positive).
Proof.
  unfold effect. intros H.
  destruct (trim input) as [|c t] eqn:Ht; [discriminate|].
  destruct (convertNumber fuel input) as [r'|] eqn:Hr; [|discriminate].
  injection H as ->.
  pose proof (convertNumber_isValid _ _ _ Hr) as Hv.
  pose proof (convertNumber_numericValue _ _ _ Hr) as Hn.
  unfold valid_input in Hv, Hn. rewrite Ht in Hv, Hn.
  cbn [render signBadge].
  assert (Hshort : forall v, parseShorthand (c :: t) = Some v ->
                             isValid r = true
                             /\ num_ge (numericValue r) zero = true).
  { intros v Hp.
    destruct (parseShorthand_unsigned _ _ Hp) as (Hnan & Hsign).
    assert (Hd : decode (c :: t) = v) by (unfold decode; rewrite Hp; auto).
    rewrite Hd, Hnan in Hv, Hn. simpl in Hv, Hn.
    split; [exact Hv|]. rewrite Hn. apply unsigned_ge_zero; auto. }
  split; [|split].
  - destruct (isValid r) eqn:Hvalid.
    + assert (Hnan : isNaN (numericValue r) = false).
      { destruct (isNaN (decode (c :: t))) eqn:E; [discriminate Hv|].
        simpl in Hn. rewrite Hn. exact E. }
      rewrite (num_ge_zero_not_lt _ Hnan).
      destruct (num_lt (numericValue r) zero); simpl; split;
        try tauto; try discriminate.
      intros [_ D]. discriminate D.
    + split; [discriminate|]. intros [D _]. discriminate D.
  - intros Hb. destruct (parseShorthand (c :: t)) as [v|] eqn:Hp; auto.
    destruct (Hshort v eq_refl) as [Hvalid Hge].
    rewrite Hvalid, Hge in Hb. discriminate Hb.
  - intros v Hp. destruct (Hshort v Hp) as [Hvalid Hge].
    rewrite Hvalid, Hge. reflexivity.
Qed.

Lemma component_sign_badge_witness :
  exists r,
    effect 4 (lit "-5") = Some (Some r)
    /\ signBadge (render (lit "-5") (Some r)) = Some Positive.
Proof.
  destruct (effect 4 (lit "-5")) as [[r|]|] eqn:H;
    [|vm_compute in H; discriminate H|vm_compute in H; discriminate H].
  exists r. split; [reflexivity|].
  apply (proj2 (proj2 (component_sign_badge 4 (lit "-5") r H)) (Z2F 5)).
  vm_compute. reflexivity.
Defined.

(** ** Reading the words back *)

Lemma tokens_not_nil (s : jsstring) : tokens s <> [].
Proof.
  destruct s as [|c t]; simpl; [discriminate|].
  destruct (c =? 32)%N; [discriminate|].
  destruct (tokens t); discriminate.
Qed.

Lemma tokens_app_space (a b : jsstring) :
  tokens (a ++ 32%N :: b) = tokens a ++ tokens b.
Proof.
  induction a as [|c a IH]; [reflexivity|].
  cbn [app tokens]. rewrite IH.
  destruct (c =? 32)%N; [reflexivity|].
  pose proof (tokens_not_nil a) as Hne.
  destruct (tokens a) as [|h r]; [congruence|]. reflexivity.
Qed.

Lemma read_app_space (st : reading) (a b : jsstring) :
  read st (a ++ 32%N :: b) = read (read st a) b.
Proof.
  unfold read. rewrite tokens_app_space. apply fold_left_app.
Qed.

Lemma read_token_frame sg t st tok :
  read_token (frame sg t st) tok = frame sg t (read_token st tok).
Proof.
  destruct st as [[sg' t'] c']. unfold read_token, frame.
  destruct (str_eqb tok (lit "negative")).
  { rewrite orb_true_r. reflexivity. }
  destruct (str_eqb tok (lit "hundred")); [reflexivity|].
  destruct (lookup scale_values tok) as [v|].
  { f_equal. f_equal. lia. }
  destruct (lookup small_words tok); reflexivity.
Qed.

Lemma fold_read_token_frame sg t toks :
  forall st,
    fold_left read_token toks (frame sg t st)
    = frame sg t (fold_left read_token toks st).
Proof.
  induction toks as [|tok toks IH]; intros st; [reflexivity|].
  cbn [fold_left]. rewrite read_token_frame. apply IH.
Qed.

Lemma read_frame sg t c w :
  read (sg, t, c) w = frame sg t (read (false, 0, c) w).
Proof.
  unfold read. rewrite <- fold_read_token_frame.
  unfold frame. rewrite orb_false_r, Z.add_0_r. reflexivity.
Qed.

Lemma reading_eqb_eq (a b : reading) : reading_eqb a b = true -> a = b.
Proof.
  destruct a as [[s1 t1] c1], b as [[s2 t2] c2]. unfold reading_eqb.
  intros H. apply andb_true_iff in H as [H Hc].
  apply andb_true_iff in H as [Hs Ht].
  apply Bool.eqb_prop in Hs. apply Z.eqb_eq in Ht, Hc. congruence.
Qed.

(** Reading the words of a chunk gives the chunk. *)
Lemma read_hundreds_words (c : Z) sg t :
  0 < c < 1000 -> read (sg, t, 0) (hundreds_words c) = (sg, t, c).
Proof.
  intros Hc. rewrite read_frame.
  assert (E : read (false, 0, 0) (hundreds_words c) = (false, 0, c)).
  { apply reading_eqb_eq.
    apply (Z_range_forallb
             (fun c => reading_eqb (read (false, 0, 0) (hundreds_words c))
                                   (false, 0, c))
             1 999); [vm_compute; reflexivity | lia]. }
  rewrite E. unfold frame. rewrite orb_false_r, Z.add_0_r. reflexivity.
Qed.

Lemma read_scale_word (i : nat) sg t c :
  (1 <= i <= 4)%nat ->
  read (sg, t, c) (scale_word i) = (sg, t + c * 1000 ^ Z.of_nat i, 0).
Proof.
  intros Hi.
  destruct i as [|[|[|[|[|i]]]]]; try lia; reflexivity.
Qed.

Lemma read_chunk_words (i : nat) (c : Z) sg t :
  (1 <= i <= 4)%nat -> 0 < c < 1000 ->
  read (sg, t, 0) (chunk_words i c) = (sg, t + c * 1000 ^ Z.of_nat i, 0).
Proof.
  intros Hi Hc. unfold chunk_words.
  replace (0 <? i)%nat with true by (symmetry; apply Nat.ltb_lt; lia).
  change (lit " " ++ scale_word i) with (32%N :: scale_word i).
  rewrite read_app_space, read_hundreds_words by lia.
  apply read_scale_word, Hi.
Qed.

Lemma read_empty (st : reading) : read st [] = st.
Proof. destruct st as [[sg t] c]. reflexivity. Qed.

Lemma read_join (l : list jsstring) :
  forall st, read st (join (lit " ") l) = fold_left read l st.
Proof.
  induction l as [|p l IH]; intros st; [apply read_empty|].
  destruct l as [|q l]; [reflexivity|].
  change (join (lit " ") (p :: q :: l))
    with (p ++ 32%N :: join (lit " ") (q :: l)).
  rewrite read_app_space, IH. reflexivity.
Qed.

Lemma read_phrases (cs : list Z) :
  forall (i : nat) sg t,
    (1 <= i)%nat -> (i + List.length cs <= 5)%nat ->
    (forall c, In c cs -> 0 <= c < 1000) ->
    fold_left read (phrases i cs) (sg, t, 0)
    = (sg, t + 1000 ^ Z.of_nat i * chunks_value cs, 0).
Proof.
  induction cs as [|c cs IH]; intros i sg t Hi Hlen Hcs.
  - cbn [phrases chunks_value fold_left].
    rewrite Z.mul_0_r, Z.add_0_r. reflexivity.
  - cbn [phrases chunks_value]. rewrite fold_left_app.
    cbn [List.length] in Hlen.
    rewrite IH by (try lia; intros; apply Hcs; right; assumption).
    assert (Hc : 0 <= c < 1000) by (apply Hcs; left; reflexivity).
    replace (Z.of_nat (S i)) with (Z.of_nat i + 1) by lia.
    rewrite Z.pow_add_r by lia. change (1000 ^ 1) with 1000.
    destruct (0 <? c) eqn:Hpos.
    + apply Z.ltb_lt in Hpos. cbn [fold_left].
      rewrite read_chunk_words by lia. f_equal. f_equal. lia.
    + apply Z.ltb_ge in Hpos. assert (c = 0) by lia. subst c.
      cbn [fold_left]. f_equal. f_equal. lia.
Qed.

Lemma chunks_bounds (count : nat) :
  forall n c, 0 <= n -> In c (chunks count n) -> 0 <= c < 1000.
Proof.
  induction count as [|count IH]; intros n c Hn; cbn [chunks]; [easy|].
  destruct (0 <? n); [|easy].
  intros [<-|H].
  - apply Z.mod_pos_bound. lia.
  - apply (IH (n / 1000)); [apply Z.div_pos; lia | exact H].
Qed.

Lemma chunks_length (count : nat) :
  forall (j : nat) n,
    0 <= n < 1000 ^ Z.of_nat j -> (List.length (chunks count n) <= j)%nat.
Proof.
  induction count as [|count IH]; intros j n Hn; cbn [chunks];
    [simpl; lia|].
  destruct (0 <? n) eqn:Hpos; [|simpl; lia].
  apply Z.ltb_lt in Hpos.
  destruct j as [|j]; [simpl in Hn; lia|].
  cbn [List.length]. apply le_n_S, IH.
  replace (Z.of_nat (S j)) with (Z.of_nat j + 1) in Hn by lia.
  rewrite Z.pow_add_r in Hn by lia. change (1000 ^ 1) with 1000 in Hn.
  split; [apply Z.div_pos; lia|].
  apply Z.div_lt_upper_bound; lia.
Qed.

Lemma chunks_value_chunks (count : nat) :
  forall n, 0 <= n < 1000 ^ Z.of_nat count -> chunks_value (chunks count n) = n.
Proof.
  induction count as [|count IH]; intros n Hn; cbn [chunks].
  - simpl in *. lia.
  - destruct (0 <? n) eqn:Hpos.
    + apply Z.ltb_lt in Hpos. cbn [chunks_value].
      replace (Z.of_nat (S count)) with (Z.of_nat count + 1) in Hn by lia.
      rewrite Z.pow_add_r in Hn by lia. change (1000 ^ 1) with 1000 in Hn.
      rewrite IH.
      * pose proof (Z.div_mod n 1000 ltac:(lia)). lia.
      * split; [apply Z.div_pos; lia|].
        apply Z.div_lt_upper_bound; lia.
    + apply Z.ltb_ge in Hpos. simpl. lia.
Qed.

(** Reading the words of a positive integer below [10^15] gives it back. *)
Lemma read_words_of (n : Z) sg t :
  0 < n < 10 ^ 15 ->
  exists c, read (sg, t, 0) (words_of n) = (sg, t + (n - c), c).
Proof.
  intros Hn. unfold words_of. rewrite read_join.
  pose proof (chunks_bounds 6 n) as Hb.
  pose proof (chunks_length 6 5 n ltac:(simpl; lia)) as Hl.
  pose proof (chunks_value_chunks 6 n ltac:(simpl; lia)) as Hv.
  destruct (chunks 6 n) as [|c cs]; [simpl in Hv; lia|].
  cbn [phrases chunks_value List.length] in *.
  rewrite fold_left_app.
  rewrite read_phrases by (try lia; intros; apply (Hb _ ltac:(lia)); right; assumption).
  assert (Hc : 0 <= c < 1000) by (apply (Hb c ltac:(lia)); left; reflexivity).
  exists c. change (1000 ^ Z.of_nat 1) with 1000.
  destruct (0 <? c) eqn:Hpos.
  - apply Z.ltb_lt in Hpos. cbn [fold_left].
    rewrite read_hundreds_words by lia. f_equal. f_equal. lia.
  - apply Z.ltb_ge in Hpos. assert (c = 0) by lia. subst c.
    cbn [fold_left]. f_equal. f_equal. lia.
Qed.

Lemma value_of_words_of (n : Z) :
  0 < n < 10 ^ 15 -> value_of_words (words_of n) = n.
Proof.
  intros Hn. unfold value_of_words.
  destruct (read_words_of n false 0 Hn) as (c & ->). lia.
Qed.

Lemma value_of_negative_words (n : Z) :
  0 < n < 10 ^ 15 -> value_of_words (lit "negative " ++ words_of n) = - n.
Proof.
  intros Hn. unfold value_of_words.
  change (lit "negative " ++ words_of n)
    with (lit "negative" ++ 32%N :: words_of n).
  rewrite read_app_space.
  change (read (false, 0, 0) (lit "negative")) with (true, 0, 0).
  destruct (read_words_of n true 0 Hn) as (c & ->). lia.
Qed.

(** The words of an integer of absolute value below [10^15]. *)
Lemma numberToWords_integer (fuel : nat) (n : Z) (w : jsstring) :
  Z.abs n < 10 ^ 15 ->
  numberToWords fuel (Z2F n) = Some w ->
  w = (if n =? 0 then lit "zero"
       else if n <? 0 then lit "negative " ++ words_of (- n)
       else words_of n).
Proof.
  intros Hn H.
  assert (H53 : 10 ^ 15 < 2 ^ 53) by reflexivity.
  destruct (Z.eqb_spec n 0) as [->|Hne].
  { destruct fuel; cbn [numberToWords] in H;
      change (num_eq (Z2F 0) zero) with true in H; cbv iota in H;
      congruence. }
  apply (numberToWords_more_fuel fuel (S (S (fuel + 7)))) in H; [|lia].
  destruct (Z.ltb_spec n 0) as [Hneg|Hpos].
  - replace n with (- - n) in H by lia.
    rewrite Z2F_opp in H by lia.
    destruct (Z2F_normal (- n) ltac:(lia)) as (M & E & HZ & _).
    rewrite numberToWords_negative in H by (rewrite HZ; reflexivity).
    replace (neg (neg (Z2F (- n)))) with (Z2F (- n)) in H
      by (rewrite HZ; reflexivity).
    rewrite numberToWords_Z2F in H by lia.
    cbn [option_map] in H. congruence.
  - rewrite numberToWords_Z2F in H by lia. congruence.
Qed.

Lemma tokens_join (l : list jsstring) :
  l <> [] -> tokens (join (lit " ") l) = List.concat (map tokens l).
Proof.
  induction l as [|p l IH]; [congruence|]. intros _.
  destruct l as [|q l]; [simpl; rewrite app_nil_r; reflexivity|].
  change (join (lit " ") (p :: q :: l))
    with (p ++ 32%N :: join (lit " ") (q :: l)).
  rewrite tokens_app_space, IH by discriminate. reflexivity.
Qed.

Lemma forallb_concat {A} (f : A -> bool) (ll : list (list A)) :
  forallb f (List.concat ll) = forallb (forallb f) ll.
Proof.
  induction ll as [|l ll IH]; [reflexivity|].
  simpl. rewrite forallb_app, IH. reflexivity.
Qed.

Lemma forallb_map_comp {A B} (f : B -> bool) (g : A -> B) (l : list A) :
  forallb f (map g l) = forallb (fun x => f (g x)) l.
Proof.
  induction l as [|x l IH]; [reflexivity|]. simpl. rewrite IH. reflexivity.
Qed.

Lemma known_hundreds_words (c : Z) :
  0 < c < 1000 -> forallb known_word (tokens (hundreds_words c)) = true.
Proof.
  intros Hc.
  apply (Z_range_forallb
           (fun c => forallb known_word (tokens (hundreds_words c)))
           1 999); [vm_compute; reflexivity | lia].
Qed.

Lemma known_chunk_words (i : nat) (c : Z) :
  (i <= 4)%nat -> 0 < c < 1000 ->
  forallb known_word (tokens (chunk_words i c)) = true.
Proof.
  intros Hi Hc. unfold chunk_words.
  destruct i as [|i]; [apply known_hundreds_words, Hc|].
  cbn [Nat.ltb Nat.leb].
  change (lit " " ++ scale_word (S i)) with (32%N :: scale_word (S i)).
  rewrite tokens_app_space, forallb_app, known_hundreds_words by exact Hc.
  destruct i as [|[|[|[|i]]]]; try lia; reflexivity.
Qed.

Lemma known_phrases (cs : list Z) :
  forall (i : nat),
    (i + List.length cs <= 5)%nat ->
    (forall c, In c cs -> 0 <= c < 1000) ->
    forallb (fun p => forallb known_word (tokens p)) (phrases i cs) = true.
Proof.
  induction cs as [|c cs IH]; intros i Hlen Hcs; [reflexivity|].
  cbn [phrases List.length] in *. rewrite forallb_app.
  rewrite IH by (try lia; intros; apply Hcs; right; assumption).
  assert (Hc : 0 <= c < 1000) by (apply Hcs; left; reflexivity).
  destruct (0 <? c) eqn:Hpos; [|reflexivity].
  apply Z.ltb_lt in Hpos. cbn [forallb].
  rewrite known_chunk_words by lia. reflexivity.
Qed.

Lemma phrases_nil (cs : list Z) :
  forall i, phrases i cs = [] -> (forall c, In c cs -> 0 <= c) ->
            chunks_value cs = 0.
Proof.
  induction cs as [|c cs IH]; intros i H Hcs; [reflexivity|].
  cbn [phrases chunks_value] in *.
  apply app_eq_nil in H as [H1 H2].
  rewrite (IH _ H1) by (intros; apply Hcs; right; assumption).
  assert (0 <= c) by (apply Hcs; left; reflexivity).
  destruct (0 <? c) eqn:Hpos; [discriminate H2|].
  apply Z.ltb_ge in Hpos. lia.
Qed.

Lemma known_words_of (n : Z) :
  0 < n < 10 ^ 15 -> forallb known_word (tokens (words_of n)) = true.
Proof.
  intros Hn. unfold words_of.
  pose proof (chunks_bounds 6 n) as Hb.
  pose proof (chunks_length 6 5 n ltac:(simpl; lia)) as Hl.
  pose proof (chunks_value_chunks 6 n ltac:(simpl; lia)) as Hv.
  rewrite tokens_join.
  - rewrite forallb_concat, forallb_map_comp.
    apply known_phrases; [lia|]. intros c. apply Hb. lia.
  - intros Hnil. apply phrases_nil in Hnil; [lia|].
    intros c Hc. apply (Hb c ltac:(lia)) in Hc. lia.
Qed.

Lemma words_of_large (n : Z) :
  10 ^ 15 <= n < 2 ^ 53 ->
  exists rest,
    words_of n = word ONES (n / 10 ^ 15) ++ lit " undefined" ++ rest.
Proof.
  change (10 ^ 15) with 1000000000000000.
  change (2 ^ 53) with 9007199254740992.
  intros Hn. unfold words_of.
  set (c5 := n / 1000000000000000).
  assert (Hc5 : 1 <= c5 <= 9)
    by (unfold c5; Z.div_mod_to_equations; lia).
  assert (Hc : exists c0 c1 c2 c3 c4, chunks 6 n = [c0; c1; c2; c3; c4; c5]).
  { cbn [chunks].
    repeat match goal with
           | |- context [0 <? ?x] =>
               replace (0 <? x) with true
                 by (symmetry; apply Z.ltb_lt; Z.div_mod_to_equations; lia)
           end.
    do 5 eexists.
    repeat (apply f_equal2; [reflexivity|]).
    apply f_equal2; [|reflexivity].
    unfold c5. Z.div_mod_to_equations. lia. }
  destruct Hc as (c0 & c1 & c2 & c3 & c4 & ->).
  cbn [phrases app].
  replace (0 <? c5) with true by (symmetry; apply Z.ltb_lt; lia).
  cbn [app].
  assert (Hw : chunk_words 5 c5 = word ONES c5 ++ lit " undefined").
  { assert (c5 = 1 \/ c5 = 2 \/ c5 = 3 \/ c5 = 4 \/ c5 = 5 \/ c5 = 6
            \/ c5 = 7 \/ c5 = 8 \/ c5 = 9) as H by lia.
    repeat (destruct H as [H|H]; [rewrite H; reflexivity|]).
    rewrite H. reflexivity. }
  rewrite Hw.
  match goal with
  | |- exists rest, join _ (_ :: ?tl) = _ => destruct tl as [|q l]
  end.
  - exists []. cbn [join]. rewrite app_nil_r. reflexivity.
  - exists (lit " " ++ join (lit " ") (q :: l)).
    cbn [join]. rewrite <- app_assoc. reflexivity.
Qed.

(** X7. For a positive integer below [10^15], the words are made of the
    number words of 1 to 99, ["hundred"] and the four scale words, with
    one space between them. From [10^15] on (and below [2^53]) the table of
    scales is exceeded: the words start with the ones word of [n / 10^15]
    followed by [" undefined"]. *)
Theorem numberToWords_vocabulary (fuel : nat) (n : Z) (w : jsstring) :
  0 < n < 2 ^ 53 ->
  numberToWords fuel (Z2F n) = Some w ->
  if n <? 10 ^ 15 then forallb known_word (tokens w) = true
  else exists rest, w = word ONES (n / 10 ^ 15) ++ lit " undefined" ++ rest.
Proof.
  intros Hn H.
  apply (numberToWords_more_fuel fuel (fuel + 7)) in H; [|lia].
  rewrite numberToWords_Z2F in H by lia.
  injection H as <-.
  destruct (Z.ltb_spec n (10 ^ 15)).
  - apply known_words_of. lia.
  - apply words_of_large. lia.
Qed.

Lemma numberToWords_vocabulary_witness :
  exists rest,
    numberToWords 7 (Z2F (2 * 10 ^ 15 + 1))
    = Some (lit "two undefined" ++ rest).
Proof.
  destruct (numberToWords 7 (Z2F (2 * 10 ^ 15 + 1))) as [w|] eqn:H;
    [|vm_compute in H; discriminate H].
  destruct (numberToWords_vocabulary 7 (2 * 10 ^ 15 + 1) w) as (rest & ->);
    [split; reflexivity | exact H |].
  exists rest. reflexivity.
Defined.

(** X8. Two integers of absolute value below [10^15] with the same words
    are equal. *)
Theorem numberToWords_injective (fuel1 fuel2 : nat) (n m : Z) (w : jsstring) :
  Z.abs n < 10 ^ 15 -> Z.abs m < 10 ^ 15 ->
  numberToWords fuel1 (Z2F n) = Some w ->
  numberToWords fuel2 (Z2F m) = Some w ->
  n = m.
Proof.
  intros Hn Hm H1 H2.
  assert (V : forall fuel k, Z.abs k < 10 ^ 15 ->
                             numberToWords fuel (Z2F k) = Some w ->
                             value_of_words w = k).
  { intros fuel k Hk H.
    rewrite (numberToWords_integer fuel k w Hk H).
    destruct (Z.eqb_spec k 0) as [->|Hne]; [reflexivity|].
    destruct (Z.ltb_spec k 0).
    - rewrite value_of_negative_words by lia. lia.
    - apply value_of_words_of. lia. }
  rewrite <- (V fuel1 n Hn H1). apply (V fuel2 m Hm H2).
Qed.

Lemma numberToWords_injective_witness : 1234567 = 1234567.
Proof.
  apply (numberToWords_injective 7 9 1234567 1234567
           (lit "one million two hundred thirty-four thousand five hundred sixty-seven"));
    [reflexivity | reflexivity | vm_compute; reflexivity
    | vm_compute; reflexivity].
Defined.

(** ** The case of letters *)

Lemma upper_high (c : char) : (128 <= c)%N -> upper c = c.
Proof.
  intros H. unfold upper.
  destruct (N.leb_spec c 122); [lia|]. rewrite andb_false_r. reflexivity.
Qed.

Lemma case_blind (p : char -> bool) :
  case_blind_below p 128 = true -> forall c, p (upper c) = p c.
Proof.
  intros H c. destruct (N.lt_ge_cases c 128) as [Hlt|Hge].
  - apply Bool.eqb_prop.
    pose proof (Z_range_forallb _ 0 128 H (Z.of_N c) ltac:(lia)) as Hc.
    cbv beta in Hc. rewrite N2Z.id in Hc. exact Hc.
  - rewrite upper_high by exact Hge. reflexivity.
Qed.

Lemma is_digit_blind c : is_digit (upper c) = is_digit c.
Proof. revert c. apply case_blind. vm_compute. reflexivity. Qed.

Lemma is_space_blind c : is_space (upper c) = is_space c.
Proof. revert c. apply case_blind. vm_compute. reflexivity. Qed.

Lemma is_suffix_blind c : is_suffix (upper c) = is_suffix c.
Proof. revert c. apply case_blind. vm_compute. reflexivity. Qed.

Lemma is_shorthand_char_blind c :
  is_shorthand_char (upper c) = is_shorthand_char c.
Proof. revert c. apply case_blind. vm_compute. reflexivity. Qed.

Lemma is_plain_char_blind c : is_plain_char (upper c) = is_plain_char c.
Proof. revert c. apply case_blind. vm_compute. reflexivity. Qed.

Lemma symbol_blind (symbol : jsstring) (c : char) :
  In symbol (map fst CURRENCY_MAP) ->
  starts_with symbol [upper c] = starts_with symbol [c].
Proof.
  intros H. revert c. simpl in H.
  repeat (destruct H as [<-|H];
          [apply (case_blind (fun c => starts_with _ [c]));
           vm_compute; reflexivity|]).
  contradiction.
Qed.

Lemma multiplier_of_blind (c : char) :
  multiplier_of [upper c] = multiplier_of [c].
Proof.
  destruct (N.lt_ge_cases c 128) as [Hlt|Hge].
  - apply number_eqb_eq.
    pose proof (Z_range_forallb
                  (fun z => number_eqb (multiplier_of [upper (Z.to_N z)])
                                       (multiplier_of [Z.to_N z]))
                  0 128 ltac:(vm_compute; reflexivity)
                  (Z.of_N c) ltac:(lia)) as Hc.
    cbv beta in Hc. rewrite N2Z.id in Hc. exact Hc.
  - rewrite upper_high by exact Hge. reflexivity.
Qed.

Section CaseChange.

(** A change of the case of letters: a function on characters that keeps
    the upper case of every character. *)
Variable f : char -> char.
Hypothesis f_case : forall c, upper (f c) = upper c.

Lemma blind_case (p : char -> bool) :
  (forall c, p (upper c) = p c) -> forall c, p (f c) = p c.
Proof. intros Hp c. rewrite <- Hp, f_case, Hp. reflexivity. Qed.

Lemma plain_char_fixed (c : char) : is_plain_char c = true -> f c = c.
Proof.
  intros H. pose proof (f_case c) as Hf. unfold upper in Hf.
  unfold is_plain_char, is_digit in H.
  rewrite !orb_true_iff, andb_true_iff, !N.leb_le, !N.eqb_eq in H.
  destruct (N.leb_spec 97 (f c)), (N.leb_spec (f c) 122),
    (N.leb_spec 97 c), (N.leb_spec c 122); cbn [andb] in Hf; lia.
Qed.

Lemma digit_fixed (c : char) : is_digit c = true -> f c = c.
Proof.
  intros H. apply plain_char_fixed. unfold is_plain_char. rewrite H.
  reflexivity.
Qed.

Lemma period_fixed (c : char) : (f c =? 46)%N = (c =? 46)%N.
Proof.
  apply (blind_case (fun c => (c =? 46)%N)).
  apply (case_blind (fun c => (c =? 46)%N)). vm_compute. reflexivity.
Qed.

Lemma map_period_fixed (c : char) : (c =? 46)%N = true -> f c = c.
Proof.
  intros H. apply plain_char_fixed. unfold is_plain_char. rewrite H.
  rewrite orb_true_r. reflexivity.
Qed.

Lemma trim_start_case (s : jsstring) :
  trim_start (map f s) = map f (trim_start s).
Proof.
  induction s as [|c s IH]; [reflexivity|].
  cbn [map trim_start]. rewrite (blind_case _ is_space_blind).
  destruct (is_space c); [exact IH | reflexivity].
Qed.

Lemma trim_case (s : jsstring) : trim (map f s) = map f (trim s).
Proof.
  unfold trim, trim_end.
  rewrite trim_start_case, <- map_rev, trim_start_case, map_rev.
  reflexivity.
Qed.

Lemma filter_plain_case (s : jsstring) :
  filter is_plain_char (map f s) = filter is_plain_char s.
Proof.
  induction s as [|c s IH]; [reflexivity|].
  cbn [map filter]. rewrite (blind_case _ is_plain_char_blind), IH.
  destruct (is_plain_char c) eqn:Hc; [|reflexivity].
  rewrite plain_char_fixed by exact Hc. reflexivity.
Qed.

Lemma filter_shorthand_case (s : jsstring) :
  filter is_shorthand_char (map f s) = map f (filter is_shorthand_char s).
Proof.
  induction s as [|c s IH]; [reflexivity|].
  cbn [map filter]. rewrite (blind_case _ is_shorthand_char_blind), IH.
  destruct (is_shorthand_char c); reflexivity.
Qed.

Lemma span_digit_case (s : jsstring) :
  span is_digit (map f s)
  = (fst (span is_digit s), map f (snd (span is_digit s))).
Proof.
  induction s as [|c s IH]; [reflexivity|].
  cbn [map span]. rewrite (blind_case _ is_digit_blind).
  destruct (is_digit c) eqn:Hc; [|reflexivity].
  rewrite IH. destruct (span is_digit s) as [a b].
  rewrite digit_fixed by exact Hc. reflexivity.
Qed.

Lemma match_shorthand_case (s : jsstring) :
  match_shorthand (map f s)
  = option_map (fun p => (fst p, map f (snd p))) (match_shorthand s).
Proof.
  unfold match_shorthand. rewrite span_digit_case.
  destruct (span is_digit s) as [ip r1]. cbn [fst snd].
  destruct ip as [|d ip]; [reflexivity|].
  assert (E : (let '(dot, r2) :=
                 match map f r1 with
                 | c :: r => if (c =? 46)%N then ([c], r) else ([], map f r1)
                 | [] => ([], map f r1)
                 end in
               let '(fp, r3) := span is_digit r2 in
               match r3 with
               | [] => Some ((d :: ip) ++ dot ++ fp, [])
               | [c] => if is_suffix c
                        then Some ((d :: ip) ++ dot ++ fp, [c]) else None
               | _ => None
               end)
              = option_map (fun p => (fst p, map f (snd p)))
                  (let '(dot, r2) :=
                     match r1 with
                     | c :: r => if (c =? 46)%N then ([c], r) else ([], r1)
                     | [] => ([], r1)
                     end in
                   let '(fp, r3) := span is_digit r2 in
                   match r3 with
                   | [] => Some ((d :: ip) ++ dot ++ fp, [])
                   | [c] => if is_suffix c
                            then Some ((d :: ip) ++ dot ++ fp, [c]) else None
                   | _ => None
                   end)).
  { assert (T : forall dot r2,
               (let '(fp, r3) := span is_digit (map f r2) in
                match r3 with
                | [] => Some ((d :: ip) ++ dot ++ fp, [])
                | [c] => if is_suffix c
                         then Some ((d :: ip) ++ dot ++ fp, [c]) else None
                | _ => None
                end)
               = option_map (fun p => (fst p, map f (snd p)))
                   (let '(fp, r3) := span is_digit r2 in
                    match r3 with
                    | [] => Some ((d :: ip) ++ dot ++ fp, [])
                    | [c] => if is_suffix c
                             then Some ((d :: ip) ++ dot ++ fp, [c]) else None
                    | _ => None
                    end)).
    { intros dot r2. rewrite span_digit_case.
      destruct (span is_digit r2) as [fp r3]. cbn [fst snd].
      destruct r3 as [|c [|c' r3]]; cbn [map]; try reflexivity.
      rewrite (blind_case _ is_suffix_blind).
      destruct (is_suffix c); reflexivity. }
    destruct r1 as [|c r]; cbn [map].
    - apply (T [] []).
    - rewrite period_fixed. destruct (c =? 46)%N eqn:Hc.
      + rewrite map_period_fixed by exact Hc. apply T.
      + apply (T [] (c :: r)). }
  exact E.
Qed.

Lemma multiplier_of_case (sfx : jsstring) :
  multiplier_of (map f sfx) = multiplier_of sfx.
Proof.
  destruct sfx as [|c [|c' sfx]]; try reflexivity.
  cbn [map]. rewrite <- multiplier_of_blind, f_case.
  apply multiplier_of_blind.
Qed.

Lemma parseShorthand_case (s : jsstring) :
  parseShorthand (map f s) = parseShorthand s.
Proof.
  unfold parseShorthand.
  rewrite filter_shorthand_case, match_shorthand_case.
  destruct (match_shorthand (filter is_shorthand_char s)) as [[np sfx]|];
    [|reflexivity].
  cbn [option_map fst snd]. rewrite multiplier_of_case. reflexivity.
Qed.

Lemma decode_case (s : jsstring) : decode (map f s) = decode s.
Proof.
  unfold decode. rewrite parseShorthand_case, filter_plain_case.
  reflexivity.
Qed.

Lemma includes_symbol_case (symbol s : jsstring) :
  In symbol (map fst CURRENCY_MAP) ->
  includes (map f s) symbol = includes s symbol.
Proof.
  intros H.
  assert (Hs : exists k, symbol = [k]).
  { simpl in H.
    repeat (destruct H as [<-|H]; [eexists; reflexivity|]). contradiction. }
  destruct Hs as (k & ->).
  assert (Hk : forall c, char_eqb k (f c) = char_eqb k c).
  { intros c.
    pose proof (symbol_blind [k] (f c) H) as H1.
    pose proof (symbol_blind [k] c H) as H2.
    rewrite f_case in H1. cbn [starts_with] in H1, H2.
    rewrite !andb_true_r in H1, H2. congruence. }
  induction s as [|c s IH]; [reflexivity|].
  cbn [map includes starts_with]. rewrite Hk, IH. reflexivity.
Qed.

Lemma find_ext_in {A} (p q : A -> bool) (l : list A) :
  (forall x, In x l -> p x = q x) -> find p l = find q l.
Proof.
  induction l as [|x l IH]; intros H; [reflexivity|].
  cbn [find]. rewrite (H x) by (left; reflexivity).
  rewrite IH by (intros; apply H; right; assumption). reflexivity.
Qed.

Lemma extractCurrency_case (s : jsstring) :
  extractCurrency (map f s) = extractCurrency s.
Proof.
  unfold extractCurrency. apply find_ext_in.
  intros symbol H. apply includes_symbol_case, H.
Qed.

Lemma convertNumber_case (fuel : nat) (input : jsstring) :
  same_outcome (convertNumber fuel (map f input)) (convertNumber fuel input).
Proof.
  unfold convertNumber. rewrite trim_case.
  destruct (trim input) as [|c t] eqn:Ht; cbn [map].
  - cbn [same_outcome]. repeat split; reflexivity.
  - change (f c :: map f t) with (map f (c :: t)).
    rewrite decode_case, extractCurrency_case.
    destruct (isNaN (decode (c :: t))).
    + cbn. repeat split; reflexivity.
    + destruct (numberToWords fuel (decode (c :: t))); cbn;
        repeat split; reflexivity.
Qed.

End CaseChange.

(** X9. The conversion is blind to the case of letters: an input and the
    same input with the case of some letters changed get results that agree
    on every field but [originalInput], and the shorthand parser returns the
    same number on both. *)
Theorem convertNumber_case_insensitive (f : char -> char) :
  (forall c, upper (f c) = upper c) ->
  forall fuel input,
    same_outcome (convertNumber fuel (map f input))
                 (convertNumber fuel input)
    /\ parseShorthand (map f input) = parseShorthand input.
Proof.
  intros Hf fuel input. split.
  - apply convertNumber_case, Hf.
  - apply parseShorthand_case, Hf.
Qed.

Lemma upper_idempotent (c : char) : upper (upper c) = upper c.
Proof.
  unfold upper.
  destruct (N.leb_spec 97 c), (N.leb_spec c 122); cbn [andb];
    try (destruct (N.leb_spec 97 c), (N.leb_spec c 122); cbn [andb]; lia).
  destruct (N.leb_spec 97 (c - 32)), (N.leb_spec (c - 32) 122); cbn [andb];
    lia.
Qed.

Lemma convertNumber_case_insensitive_witness :
  same_outcome (convertNumber 4 (map upper (lit "$1.5k")))
               (convertNumber 4 (lit "$1.5k"))
  /\ parseShorthand (map upper (lit "$1.5k")) = parseShorthand (lit "$1.5k").
Proof.
  apply (convertNumber_case_insensitive upper upper_idempotent 4
           (lit "$1.5k")).
Defined.

(** ** Integers in shorthand *)

(** Rounding a value that a normal number holds is exact. *)
Lemma binary_round_aux_exact (s : bool) (m M : positive) (e E : Z) :
  normal M E -> e <= E -> Z.pos m = Z.pos M * 2 ^ (E - e) ->
  binary_round_aux prec emax s (Z.pos m) e loc_Exact = S754_finite s M E.
Proof.
  intros Hn Hle Hm. pose proof Hn as [Hd He].
  pose proof (digits2_spec M) as HM. rewrite Hd in HM.
  change (2 ^ (53 - 1)) with (2 ^ 52) in HM.
  assert (Hdm : Z.pos (digits2_pos m) = 53 + (E - e)).
  { apply digits2_unique.
    set (j := E - e) in *. assert (0 <= j) by lia.
    replace (53 + j - 1) with (52 + j) by lia.
    rewrite !Z.pow_add_r by lia.
    assert (0 < 2 ^ j) by (apply Z.pow_pos_nonneg; lia). nia. }
  assert (Hf : fexp prec emax (53 + E) = E) by (apply fexp_normal; lia).
  destruct (E - e) as [|j|j] eqn:Hj; [| |lia].
  - assert (e = E) by lia. subst e.
    assert (m = M) by (simpl in Hm; lia). subst m.
    apply binary_round_aux_normal, Hn.
  - unfold binary_round_aux, shr_fexp. simpl shr_record_of_loc.
    unfold Zdigits2. rewrite Hdm.
    replace (53 + Z.pos j + e) with (53 + E) by lia.
    rewrite Hf, Hj. simpl shr.
    rewrite Hm, iter_shr_1_exact by lia. simpl round_nearest_even.
    unfold Zdigits2. rewrite Hd.
    replace (e + Z.pos j) with E by lia.
    rewrite Hf, Z.sub_diag. simpl.
    assert (Hl : (E <=? 971) = true) by (apply Z.leb_le; lia).
    rewrite Hl. reflexivity.
Qed.

(** The product of two integers is exact when it is below [2^53]. *)
Lemma mul_Z2F (a b : Z) :
  0 <= a -> 0 < b < 2 ^ 53 -> a * b < 2 ^ 53 ->
  mul (Z2F a) (Z2F b) = Z2F (a * b).
Proof.
  intros Ha [Hb Hb53] Hab.
  destruct (Z2F_normal b ltac:(lia)) as (Mb & Eb & HZb & Nb & HEb & HMb).
  destruct (Z.eq_dec a 0) as [->|Hne].
  { rewrite HZb. reflexivity. }
  assert (Ha53 : a < 2 ^ 53) by nia.
  destruct (Z2F_normal a ltac:(lia)) as (Ma & Ea & HZa & Na & HEa & HMa).
  destruct (Z2F_normal (a * b) ltac:(nia)) as (M & E & HZ & N & HE & HM).
  rewrite HZa, HZb, HZ. unfold mul, SFmul. cbn [xorb].
  pose proof (digits2_spec Ma) as Ba. destruct Na as [Da Ra].
  pose proof (digits2_spec Mb) as Bb. destruct Nb as [Db Rb].
  pose proof (digits2_spec M) as B. pose proof N as [D R].
  rewrite Da in Ba. rewrite Db in Bb. rewrite D in B.
  change (2 ^ (53 - 1)) with (2 ^ 52) in *.
  assert (Hprod : Z.pos Ma * Z.pos Mb = a * b * 2 ^ (- Ea - Eb)).
  { rewrite HMa, HMb.
    replace (- Ea - Eb) with (- Ea + - Eb) by lia.
    rewrite Z.pow_add_r by lia. lia. }
  assert (Hlt : Ea + Eb < E).
  { destruct (Z.lt_ge_cases (Ea + Eb) E) as [|Hge]; [assumption|exfalso].
    assert (2 ^ (- Ea - Eb) <= 2 ^ (- E)) by (apply Z.pow_le_mono_r; lia).
    assert (Z.pos Ma * Z.pos Mb <= Z.pos M) by (rewrite Hprod, HM; nia).
    assert (2 ^ 52 * 2 ^ 52 <= Z.pos Ma * Z.pos Mb) by nia.
    change (2 ^ 52 * 2 ^ 52) with 20282409603651670423947251286016 in *.
    change (2 ^ 53) with 9007199254740992 in *. lia. }
  apply binary_round_aux_exact; [exact N | lia |].
  rewrite Pos2Z.inj_mul, Hprod, HM.
  replace (- Ea - Eb) with (- E + (E - (Ea + Eb))) by lia.
  rewrite Z.pow_add_r by lia. ring.
Qed.

Lemma div_eucl_1 (a : Z) : Z.div_eucl a 1 = (a, 0).
Proof.
  pose proof (Z.div_1_r a) as Hq. pose proof (Z.mod_1_r a) as Hr.
  unfold Z.div, Z.modulo in Hq, Hr.
  destruct (Z.div_eucl a 1) as [q r]. simpl in Hq, Hr. congruence.
Qed.

(** An integer read as a decimal without fraction is exact. *)
Lemma round_ratio_integer (k : Z) :
  0 <= k < 2 ^ 53 -> round_ratio false k 1 = Z2F k.
Proof.
  intros Hk. destruct (Z.eq_dec k 0) as [->|Hne]; [reflexivity|].
  destruct (Z2F_normal k ltac:(lia)) as (M & E & HZ & N & HE & HM).
  rewrite HZ. destruct k as [|p|p]; try lia.
  pose proof (digits2_spec M) as B. pose proof N as [D R]. rewrite D in B.
  change (2 ^ (53 - 1)) with (2 ^ 52) in B.
  assert (Hd : Z.pos (digits2_pos p) = 53 + E).
  { apply digits2_unique.
    assert (0 < 2 ^ (- E)) by (apply Z.pow_pos_nonneg; lia).
    replace (2 ^ 52) with (2 ^ (53 + E - 1) * 2 ^ (- E)) in B
      by (rewrite <- Z.pow_add_r by lia; f_equal; lia).
    replace (2 ^ 53) with (2 ^ (53 + E) * 2 ^ (- E)) in B
      by (rewrite <- Z.pow_add_r by lia; f_equal; lia).
    nia. }
  unfold round_ratio, SFdiv_core_binary.
  cbn [Zdigits2]. rewrite Hd.
  change (Z.pos (digits2_pos 1)) with 1.
  replace (53 + E + 0 - (1 + 0)) with (53 + (E - 1)) by lia.
  rewrite fexp_normal by lia.
  replace (Z.min (E - 1) (0 - 0)) with (E - 1) by lia.
  replace (0 - 0 - (E - 1)) with (1 - E) by lia.
  destruct (1 - E) as [|j|j] eqn:Hj; try lia.
  rewrite Z.shiftl_mul_pow2 by lia.
  rewrite div_eucl_1.
  change (new_location 1 0) with loc_Exact.
  assert (Hq : Z.pos p * 2 ^ Z.pos j = Z.pos (p * Z.to_pos (2 ^ Z.pos j))).
  { rewrite Pos2Z.inj_mul, Z2Pos.id; [reflexivity|].
    apply Z.pow_pos_nonneg; lia. }
  rewrite Hq. apply binary_round_aux_exact; [exact N | lia |].
  rewrite <- Hq, HM.
  replace (Z.pos j) with (- E + 1) by lia.
  replace (E - (E - 1)) with 1 by lia.
  rewrite Z.pow_add_r by lia. ring.
Qed.

Lemma magnitude_range (sfx : jsstring) : 0 < magnitude sfx < 2 ^ 53.
Proof.
  unfold magnitude. destruct sfx as [|c [|]]; try (split; reflexivity).
  repeat match goal with
         | |- context [if ?b then _ else _] => destruct b
         end; split; reflexivity.
Qed.

(** The shorthand of an integer: digits, then an optional suffix. *)
Lemma parseShorthand_digits (input ds sfx : jsstring) :
  filter is_shorthand_char input = ds ++ sfx ->
  ds <> [] -> forallb is_digit ds = true ->
  sfx = [] \/ (exists c, sfx = [c] /\ is_suffix c = true) ->
  digits_val ds * magnitude sfx < 2 ^ 53 ->
  parseShorthand input = Some (Z2F (digits_val ds * magnitude sfx)).
Proof.
  intros Hclean Hne Hds Hsfx Hlt.
  rewrite (parseShorthand_accepts input ds [] [] sfx).
  - f_equal. unfold decimal_value. rewrite app_nil_r.
    change (10 ^ Z.of_nat (List.length (@nil char))) with 1.
    pose proof (digits_val_nonneg ds Hds) as H0.
    pose proof (magnitude_range sfx) as Hm.
    rewrite round_ratio_integer by nia.
    apply mul_Z2F; lia.
  - unfold shorthand_accepts. rewrite Hclean. cbn [app].
    repeat split; auto.
Qed.

(** ** The tenths printed by the shorthand *)

(** Comparison of integers below [2^53]. *)
Lemma num_ge_Z2F (a b : Z) :
  0 < a < 2 ^ 53 -> 0 < b < 2 ^ 53 -> num_ge (Z2F a) (Z2F b) = (b <=? a).
Proof.
  intros Ha Hb.
  destruct (Z2F_normal a Ha) as (Ma & Ea & -> & Na & HEa & HMa).
  destruct (Z2F_normal b Hb) as (Mb & Eb & -> & Nb & HEb & HMb).
  pose proof (digits2_spec Ma) as Ba. destruct Na as [Da Ra].
  pose proof (digits2_spec Mb) as Bb. destruct Nb as [Db Rb].
  rewrite Da in Ba. rewrite Db in Bb.
  change (2 ^ (53 - 1)) with (2 ^ 52) in *.
  change (2 ^ 53) with (2 * 2 ^ 52) in *.
  assert (PA : 0 < 2 ^ (- Ea)) by (apply Z.pow_pos_nonneg; lia).
  assert (PB : 0 < 2 ^ (- Eb)) by (apply Z.pow_pos_nonneg; lia).
  unfold num_ge, SFleb, SFcompare.
  destruct (Z.compare_spec Eb Ea) as [Heq|Hlt|Hgt].
  - subst Eb. change (Pos.compare_cont Eq Mb Ma) with (Mb ?= Ma)%positive.
    destruct (Pos.compare_spec Mb Ma) as [H|H|H];
      symmetry; [apply Z.leb_le | apply Z.leb_le | apply Z.leb_gt];
      [assert (Z.pos Mb = Z.pos Ma) by lia
      |assert (Z.pos Mb < Z.pos Ma) by lia
      |assert (Z.pos Ma < Z.pos Mb) by lia]; nia.
  - symmetry. apply Z.leb_le.
    assert (2 * 2 ^ (- Ea) <= 2 ^ (- Eb)).
    { replace (- Eb) with (Z.succ (- Ea + (Ea - Eb - 1))) by lia.
      rewrite Z.pow_succ_r, Z.pow_add_r by lia.
      assert (1 <= 2 ^ (Ea - Eb - 1))
        by (apply (Z.pow_le_mono_r 2 0); lia).
      nia. }
    nia.
  - symmetry. apply Z.leb_gt.
    assert (2 * 2 ^ (- Eb) <= 2 ^ (- Ea)).
    { replace (- Ea) with (Z.succ (- Eb + (Eb - Ea - 1))) by lia.
      rewrite Z.pow_succ_r, Z.pow_add_r by lia.
      assert (1 <= 2 ^ (Eb - Ea - 1))
        by (apply (Z.pow_le_mono_r 2 0); lia).
      nia. }
    nia.
Qed.

Lemma num_eq_Z2F_zero (r : Z) :
  0 <= r < 2 ^ 53 -> num_eq (Z2F r) zero = (r =? 0).
Proof.
  intros Hr. destruct (Z.eq_dec r 0) as [->|Hne]; [reflexivity|].
  destruct (Z2F_normal r ltac:(lia)) as (M & E & -> & _).
  symmetry. apply Z.eqb_neq, Hne.
Qed.

(** [toFixed(1)] of the quotient of two integers prints the tenths nearest
    to the exact quotient, away from the exact halves. *)
Lemma toFixed_div_Z2F (n q : Z) :
  0 < n < 10 ^ 14 -> 4 <= q < 2 ^ 53 ->
  (20 * n + q) mod (2 * q) <> 0 ->
  toFixed (div (Z2F n) (Z2F q)) 1 = one_decimal ((20 * n + q) / (2 * q)).
Proof.
  intros Hn Hq Htie.
  assert (Hn53 : 0 < n < 2 ^ 53).
  { change (10 ^ 14) with 100000000000000 in Hn.
    change (2 ^ 53) with 9007199254740992. lia. }
  destruct (Z2F_normal n Hn53) as (Mn & En & -> & Nn & HEn & HMn).
  destruct (Z2F_normal q ltac:(lia)) as (Mq & Eq & -> & Nq & HEq & HMq).
  pose proof (digits2_spec Mn) as Bn. destruct Nn as [Dn Rn].
  pose proof (digits2_spec Mq) as Bq. destruct Nq as [Dq Rq].
  rewrite Dn in Bn. rewrite Dq in Bq.
  change (2 ^ (53 - 1)) with (2 ^ 52) in *.
  assert (HEq' : -50 <= Eq).
  { destruct (Z.le_gt_cases (-50) Eq); auto. exfalso.
    assert (2 ^ 51 <= 2 ^ (- Eq)) by (apply Z.pow_le_mono_r; lia).
    change (2 ^ 53) with (4 * 2 ^ 51) in Bq. nia. }
  unfold div, SFdiv.
  rewrite SFdiv_core_normal by (try split; auto; lia).
  set (e := En - Eq - 53).
  remember (Z.pos Mn * 2 ^ 53 / Z.pos Mq) as Q eqn:HeqQ.
  assert (HQ : 2 ^ 52 <= Q < 2 ^ 54).
  { rewrite HeqQ. split.
    - apply Z.div_le_lower_bound; [lia|].
      change (2 ^ 53) with (2 * 2 ^ 52) in *. nia.
    - apply Z.div_lt_upper_bound; [lia|].
      change (2 ^ 54) with (2 * 2 ^ 53) in *.
      change (2 ^ 53) with (2 * 2 ^ 52) in *. nia. }
  destruct Q as [|Qp|Qp]; try lia.
  change (xorb false false) with false.
  destruct (binary_round_aux_quotient Qp e
              (new_location (Z.pos Mq) (Z.pos Mn * 2 ^ 53 mod Z.pos Mq))
              HQ ltac:(unfold e; lia))
    as (M & E & -> & HE & HW).
  assert (HEneg : E < 0) by (unfold e in *; lia).
  unfold toFixed.
  assert (Hsmall : num_ge (S754_finite false M E) (Z2F (10 ^ 21)) = false).
  { destruct (num_ge (S754_finite false M E) (Z2F (10 ^ 21))) eqn:Hge;
      [|reflexivity].
    change (Z2F (10 ^ 21))
      with (S754_finite false 7629394531250000 17) in Hge.
    apply num_ge_exponent in Hge. lia. }
  rewrite Hsmall. unfold ratio_of.
  replace (0 <=? E) with false by (symmetry; apply Z.leb_gt; lia).
  change (1 =? 0) with false. cbv iota. cbn [app].
  change (10 ^ 1) with 10.
  set (N := (2 * Z.pos M * 10 + 2 ^ (- E)) / (2 * 2 ^ (- E))).
  assert (HN : N = (20 * n + q) / (2 * q)); [|rewrite HN; reflexivity].
  (* the integers behind the mantissas *)
  set (P := 2 ^ (- e)).
  assert (HP : P = 2 ^ (53 + Eq - En)) by (unfold P, e; f_equal; lia).
  assert (HPpos : 0 < P) by (apply Z.pow_pos_nonneg; unfold e; lia).
  assert (HQdef : Z.pos Qp = n * P / q).
  { rewrite HeqQ, HMn, HMq.
    assert (H2 : 0 < 2 ^ (- Eq)) by (apply Z.pow_pos_nonneg; lia).
    replace (n * 2 ^ (- En) * 2 ^ 53) with (n * P * 2 ^ (- Eq)).
    2:{ rewrite HP, <- !Z.mul_assoc, <- !Z.pow_add_r by lia.
        f_equal. f_equal. lia. }
    rewrite Z.div_mul_cancel_r by lia. reflexivity. }
  assert (HP40 : 40 * q <= P).
  { destruct (Z.le_gt_cases (40 * q) P) as [|Hlt]; [assumption|exfalso].
    assert (PA : 0 < 2 ^ (- En)) by (apply Z.pow_pos_nonneg; lia).
    assert (PB : 0 < 2 ^ (- Eq)) by (apply Z.pow_pos_nonneg; lia).
    assert (HPB : P * 2 ^ (- Eq) = 2 ^ 53 * 2 ^ (- En)).
    { rewrite HP, <- !Z.pow_add_r by lia. f_equal. lia. }
    assert (P * 2 ^ (- Eq) < 40 * 2 ^ 53) by nia.
    assert (2 ^ (- En) < 40).
    { change (2 ^ 53) with 9007199254740992 in *. nia. }
    change (10 ^ 14) with 100000000000000 in Hn.
    change (2 ^ 52) with 4503599627370496 in *. nia. }
  set (W := Z.pos M * 2 ^ (E - e)) in *.
  assert (HNW : N = (20 * W + P) / (2 * P)).
  { unfold N, W, P.
    assert (Hc : 0 < 2 ^ (E - e)) by (apply Z.pow_pos_nonneg; lia).
    assert (Hb : 0 < 2 ^ (- E)) by (apply Z.pow_pos_nonneg; lia).
    replace (- e) with ((- E) + (E - e)) by lia.
    rewrite Z.pow_add_r by lia.
    replace (20 * (Z.pos M * 2 ^ (E - e)) + 2 ^ (- E) * 2 ^ (E - e))
      with ((2 * Z.pos M * 10 + 2 ^ (- E)) * 2 ^ (E - e)) by ring.
    replace (2 * (2 ^ (- E) * 2 ^ (E - e)))
      with (2 * 2 ^ (- E) * 2 ^ (E - e)) by ring.
    rewrite Z.div_mul_cancel_r by lia. reflexivity. }
  rewrite HNW.
  set (T := (20 * n + q) / (2 * q)).
  pose proof (Z.div_mod (20 * n + q) (2 * q) ltac:(lia)) as Hdm.
  pose proof (Z.mod_pos_bound (20 * n + q) (2 * q) ltac:(lia)) as Hr.
  fold T in Hdm.
  set (r := (20 * n + q) mod (2 * q)) in *.
  assert (HQlo : q * Z.pos Qp <= n * P).
  { rewrite HQdef. apply Z.mul_div_le. lia. }
  assert (HQhi : n * P < q * (Z.pos Qp + 1)).
  { rewrite HQdef.
    pose proof (Z.div_mod (n * P) q ltac:(lia)).
    pose proof (Z.mod_pos_bound (n * P) q ltac:(lia)). nia. }
  assert (HWlo : Z.pos Qp - 1 <= W).
  { pose proof (Z.div_mod (Z.pos Qp) 2 ltac:(lia)).
    pose proof (Z.mod_pos_bound (Z.pos Qp) 2 ltac:(lia)). lia. }
  assert (HWhi : W <= Z.pos Qp + 1) by lia.
  clearbody W P T r. clear HW HNW HQdef HeqQ.
  assert (L1 : q * W <= n * P + q) by nia.
  assert (L2 : n * P - 2 * q < q * W) by nia.
  symmetry. apply Z.div_unique with (r := 20 * W + P - 2 * P * T).
  - left. split.
    + assert (0 <= q * (20 * W + P - 2 * P * T)); [|nia].
      assert (P * (20 * n + q) = P * (2 * q * T + r)) by (f_equal; lia).
      nia.
    + assert (q * (20 * W + P - 2 * P * T) < q * (2 * P)); [|nia].
      assert (P * (20 * n + q) = P * (2 * q * T + r)) by (f_equal; lia).
      nia.
  - ring.
Qed.

Lemma scale_range (scale : Z) (letter : string) :
  In (scale, letter) SHORTHAND_SCALES -> 4 <= scale < 2 ^ 53.
Proof.
  intros H. simpl in H.
  repeat (destruct H as [H|H];
          [injection H as <- <-; split; [discriminate | reflexivity]|]).
  contradiction.
Qed.

Lemma numberToShorthand_tenths (n scale : Z) (letter : string) :
  1000 <= n < 10 ^ 14 ->
  scale_of n = Some (scale, letter) ->
  n mod scale <> 0 ->
  (20 * n + scale) mod (2 * scale) <> 0 ->
  numberToShorthand (Z2F n)
  = one_decimal ((20 * n + scale) / (2 * scale)) ++ lit letter.
Proof.
  intros Hn Hs Hrem Htie.
  assert (Hn53 : 0 < n < 2 ^ 53).
  { change (10 ^ 14) with 100000000000000 in Hn.
    change (2 ^ 53) with 9007199254740992. lia. }
  rewrite numberToShorthand_table. unfold shorthand_of.
  rewrite num_eq_Z2F_zero by lia.
  replace (n =? 0) with false by (symmetry; apply Z.eqb_neq; lia).
  assert (Habs : abs (Z2F n) = Z2F n).
  { destruct (Z2F_normal n Hn53) as (M & E & -> & _). reflexivity. }
  assert (Hlt : num_lt (Z2F n) zero = false).
  { destruct (Z2F_normal n Hn53) as (M & E & -> & _). reflexivity. }
  rewrite Habs, Hlt.
  rewrite (find_ext_in _ (fun sl => fst sl <=? n)).
  2:{ intros [s l] Hin. cbn [fst].
      pose proof (scale_range s l Hin). apply num_ge_Z2F; lia. }
  unfold scale_of in Hs. rewrite Hs.
  apply find_some in Hs as [Hin Hle]. cbn [fst] in Hle.
  pose proof (scale_range scale letter Hin) as Hsc.
  rewrite fmod_Z2F by lia.
  pose proof (Z.mod_pos_bound n scale ltac:(lia)) as Hr.
  rewrite num_eq_Z2F_zero by lia.
  replace (n mod scale =? 0) with false by (symmetry; apply Z.eqb_neq; lia).
  rewrite toFixed_div_Z2F by (auto; lia). reflexivity.
Qed.

(** X10. For an integer [n] with [1000 <= |n| < 10^14] that is not a
    multiple of its scale, the shorthand prints [|n| / scale] rounded to the
    nearest tenth, provided [|n|] is not exactly halfway between two
    tenths; the sign comes first and the letter of the scale last. *)
Theorem numberToShorthand_rounds_to_tenth (n scale : Z) (letter : string) :
  1000 <= Z.abs n < 10 ^ 14 ->
  scale_of (Z.abs n) = Some (scale, letter) ->
  Z.abs n mod scale <> 0 ->
  (20 * Z.abs n + scale) mod (2 * scale) <> 0 ->
  numberToShorthand (Z2F n)
  = (if n <? 0 then lit "-" else [])
    ++ one_decimal ((20 * Z.abs n + scale) / (2 * scale)) ++ lit letter.
Proof.
  intros Hn Hs Hrem Htie.
  destruct (Z.ltb_spec n 0) as [Hneg|Hpos].
  - replace (Z.abs n) with (- n) in * by lia.
    assert (Hn53 : 0 < - n < 2 ^ 53).
    { change (10 ^ 14) with 100000000000000 in Hn.
      change (2 ^ 53) with 9007199254740992. lia. }
    replace n with (- - n) at 1 by lia.
    rewrite Z2F_opp by lia.
    destruct (Z2F_normal (- n) Hn53) as (M & E & HZ & _).
    rewrite numberToShorthand_negative by (rewrite HZ; reflexivity).
    replace (neg (neg (Z2F (- n)))) with (Z2F (- n))
      by (rewrite HZ; reflexivity).
    rewrite (numberToShorthand_tenths (- n) scale letter) by auto.
    reflexivity.
  - replace (Z.abs n) with n in * by lia.
    apply numberToShorthand_tenths; auto.
Qed.

Lemma numberToShorthand_rounds_to_tenth_witness :
  numberToShorthand (Z2F (-999999)) = lit "-1000.0K".
Proof.
  apply (numberToShorthand_rounds_to_tenth (-999999) 1000 "K");
    [simpl; lia | reflexivity | discriminate | discriminate].
Defined.

(** ** Inputs that are integers *)

(** X11. An input whose shorthand characters are decimal digits followed by
    at most one suffix letter is read exactly: the value of the digits
    times the magnitude of the suffix, as long as this is below [2^53]. *)
Theorem parseShorthand_integer_exact (input ds sfx : jsstring) :
  filter is_shorthand_char input = ds ++ sfx ->
  ds <> [] -> forallb is_digit ds = true ->
  sfx = [] \/ (exists c, sfx = [c] /\ is_suffix c = true) ->
  digits_val ds * magnitude sfx < 2 ^ 53 ->
  parseShorthand input = Some (Z2F (digits_val ds * magnitude sfx)).
Proof. exact (parseShorthand_digits input ds sfx). Qed.

Lemma parseShorthand_integer_exact_witness :
  parseShorthand (lit "$ 1,500 k") = Some (Z2F 1500000).
Proof.
  apply (parseShorthand_integer_exact (lit "$ 1,500 k") (lit "1500")
           (lit "k"));
    [reflexivity | discriminate | reflexivity
    | right; exists 107%N; split; reflexivity | reflexivity].
Defined.

Lemma numberToWords_natural (fuel : nat) (n : Z) :
  0 <= n < 2 ^ 53 -> (7 <= fuel)%nat ->
  numberToWords fuel (Z2F n)
  = Some (if n =? 0 then lit "zero" else words_of n).
Proof.
  intros Hn Hf. destruct (Z.eqb_spec n 0) as [->|Hne].
  - destruct fuel; reflexivity.
  - apply numberToWords_Z2F; [lia | exact Hf].
Qed.

(** X12. On an input whose shorthand characters are digits and at most one
    suffix letter, with a value [n] below [2^53], the conversion returns
    (seven iterations are enough) a valid result: the number is [n]
    exactly, the words are the words of the chunks of [n], followed by the
    word of the currency when the input holds a currency symbol. *)
Theorem convertNumber_integer_input (fuel : nat) (input ds sfx : jsstring) :
  (7 <= fuel)%nat ->
  filter is_shorthand_char input = ds ++ sfx ->
  ds <> [] -> forallb is_digit ds = true ->
  sfx = [] \/ (exists c, sfx = [c] /\ is_suffix c = true) ->
  digits_val ds * magnitude sfx < 2 ^ 53 ->
  exists r,
    convertNumber fuel input = Some r
    /\ isValid r = true
    /\ numericValue r = Z2F (digits_val ds * magnitude sfx)
    /\ currency r = extractCurrency (trim input)
    /\ let n := digits_val ds * magnitude sfx in
       let words := if n =? 0 then lit "zero" else words_of n in
       match currency r with
       | Some c =>
           exists w, currency_word c = Some w
                     /\ wordsForm r = words ++ lit " " ++ w
       | None => wordsForm r = words
       end.
Proof.
  intros Hf Hclean Hne Hds Hsfx Hlt.
  set (n := digits_val ds * magnitude sfx) in *.
  assert (Hn : 0 <= n).
  { pose proof (digits_val_nonneg ds Hds).
    pose proof (magnitude_range sfx). unfold n. nia. }
  assert (Htrim : filter is_shorthand_char (trim input) = ds ++ sfx).
  { rewrite (filter_trim _ shorthand_char_not_space). exact Hclean. }
  assert (Hdec : decode (trim input) = Z2F n).
  { unfold decode.
    rewrite (parseShorthand_digits (trim input) ds sfx) by auto.
    reflexivity. }
  unfold convertNumber.
  destruct (trim input) as [|c t] eqn:Ht.
  { cbn in Htrim. destruct ds; [congruence | discriminate Htrim]. }
  rewrite Hdec, Z2F_not_NaN by lia.
  rewrite numberToWords_natural by (auto; lia).
  eexists. split; [reflexivity|]. cbn [isValid numericValue currency wordsForm].
  repeat split.
  destruct (extractCurrency (c :: t)) as [sym|] eqn:Hsym; [|reflexivity].
  destruct (extractCurrency_has_word _ _ Hsym) as (w & Hw).
  exists w. rewrite Hw. split; reflexivity.
Qed.

Lemma convertNumber_integer_input_witness :
  exists r,
    convertNumber 7 ([165%N] ++ lit "150B") = Some r
    /\ isValid r = true
    /\ numericValue r = Z2F 150000000000
    /\ wordsForm r = lit "one hundred fifty billion yen".
Proof.
  destruct (convertNumber_integer_input 7 ([165%N] ++ lit "150B")
              (lit "150") (lit "B"))
    as (r & Hr & Hv & Hn & Hc & Hw);
    [lia | reflexivity | discriminate | reflexivity
    | right; exists 66%N; split; reflexivity | reflexivity |].
  exists r. split; [exact Hr|]. split; [exact Hv|]. split; [exact Hn|].
  rewrite Hc in Hw. cbv zeta in Hw.
  change (extractCurrency (trim ([165%N] ++ lit "150B")))
    with (Some [165%N]) in Hw.
  destruct Hw as (w & Hw1 & Hw2).
  change (currency_word [165%N]) with (Some (lit "yen")) in Hw1.
  injection Hw1 as <-. rewrite Hw2. vm_compute. reflexivity.
Defined.

(** ** The size of a rounded number *)

Lemma Zdigits2_nonneg (m : Z) : 0 <= m -> 0 <= Zdigits2 m.
Proof. destruct m; simpl; lia. Qed.

Lemma Zdigits2_le (m j : Z) :
  0 <= m -> 0 <= j -> m < 2 ^ j -> Zdigits2 m <= j.
Proof.
  intros Hm Hj H. destruct m as [|p|p]; [exact Hj | | lia]. simpl.
  pose proof (digits2_spec p) as [Hlo _].
  destruct (Z.le_gt_cases (Z.pos (digits2_pos p)) j) as [|Hgt]; auto.
  exfalso.
  assert (2 ^ j <= 2 ^ (Z.pos (digits2_pos p) - 1))
    by (apply Z.pow_le_mono_r; lia).
  lia.
Qed.

Lemma Zdigits2_lt (m : Z) : 0 <= m -> m < 2 ^ Zdigits2 m.
Proof.
  intros Hm. destruct m as [|p|p]; try lia.
  - reflexivity.
  - simpl. apply digits2_spec.
Qed.

Lemma Zdigits2_div (m s : Z) :
  0 <= m -> 0 <= s -> Zdigits2 (m / 2 ^ s) <= Z.max (Zdigits2 m - s) 0.
Proof.
  intros Hm Hs.
  assert (H2 : 0 < 2 ^ s) by (apply Z.pow_pos_nonneg; lia).
  apply Zdigits2_le; [apply Z.div_pos; lia | lia |].
  apply Z.div_lt_upper_bound; [lia|].
  rewrite <- Z.pow_add_r by lia.
  pose proof (Zdigits2_lt m Hm) as Hlt.
  pose proof (Zdigits2_nonneg m Hm) as Hd.
  assert (2 ^ Zdigits2 m <= 2 ^ (s + Z.max (Zdigits2 m - s) 0))
    by (apply Z.pow_le_mono_r; lia).
  lia.
Qed.

Lemma Zdigits2_succ (m m1 : Z) :
  0 <= m -> 0 <= m1 <= m + 1 -> Zdigits2 m1 <= Zdigits2 m + 1.
Proof.
  intros Hm H1.
  pose proof (Zdigits2_lt m Hm) as Hlt.
  pose proof (Zdigits2_nonneg m Hm) as Hd.
  apply Zdigits2_le; [lia | lia |].
  rewrite Z.pow_add_r by lia. change (2 ^ 1) with 2. lia.
Qed.

Lemma Zdigits2_mul (m s : Z) :
  0 <= m -> 0 <= s -> Zdigits2 (m * 2 ^ s) <= Zdigits2 m + s.
Proof.
  intros Hm Hs.
  assert (H2 : 0 < 2 ^ s) by (apply Z.pow_pos_nonneg; lia).
  pose proof (Zdigits2_lt m Hm) as Hlt.
  pose proof (Zdigits2_nonneg m Hm) as Hd.
  apply Zdigits2_le; [nia | lia |].
  rewrite Z.pow_add_r by lia. nia.
Qed.

Lemma shr_1_div2 mrs : 0 <= shr_m mrs -> shr_m (shr_1 mrs) = shr_m mrs / 2.
Proof.
  destruct mrs as [m r s]. cbn [shr_m]. intros Hm.
  destruct m as [|p|p]; try lia; [reflexivity|].
  destruct p as [p|p|]; cbn [shr_1 shr_m].
  - apply Z.div_unique with (r := 1); lia.
  - apply Z.div_unique with (r := 0); lia.
  - reflexivity.
Qed.

Lemma iter_shr_1_div (k : positive) :
  forall mrs, 0 <= shr_m mrs ->
              shr_m (iter_pos shr_1 k mrs) = shr_m mrs / 2 ^ Z.pos k.
Proof.
  induction k as [k IH|k IH|]; intros mrs Hm; cbn [iter_pos].
  - assert (0 < 2 ^ Z.pos k) by (apply Z.pow_pos_nonneg; lia).
    rewrite IH by (apply iter_shr_1_nonneg, shr_1_nonneg; exact Hm).
    rewrite IH by (apply shr_1_nonneg; exact Hm).
    rewrite shr_1_div2 by exact Hm.
    rewrite !Z.div_div by lia. f_equal. rewrite pow2_xI. lia.
  - assert (0 < 2 ^ Z.pos k) by (apply Z.pow_pos_nonneg; lia).
    rewrite IH by (apply iter_shr_1_nonneg; exact Hm).
    rewrite IH by exact Hm.
    rewrite Z.div_div by lia. f_equal. rewrite pow2_xO. lia.
  - apply shr_1_div2, Hm.
Qed.

(** The shift of [shr_fexp]: the exponent becomes the one that the format
    asks for, if it is larger, and the mantissa loses the low bits. *)
Lemma shr_fexp_div (m e : Z) (l : location) :
  0 <= m ->
  let e' := Z.max e (fexp prec emax (Zdigits2 m + e)) in
  exists mrs,
    shr_fexp prec emax m e l = (mrs, e') /\ shr_m mrs = m / 2 ^ (e' - e).
Proof.
  intros Hm e'. unfold shr_fexp, shr.
  destruct (fexp prec emax (Zdigits2 m + e) - e) as [|p|p] eqn:Hp.
  - exists (shr_record_of_loc m l).
    replace e' with e by (unfold e'; lia).
    rewrite Z.sub_diag, Z.div_1_r.
    split; [reflexivity | apply shr_record_loc].
  - exists (iter_pos shr_1 p (shr_record_of_loc m l)).
    replace e' with (e + Z.pos p) by (unfold e'; lia).
    split; [reflexivity|].
    rewrite iter_shr_1_div
      by (rewrite (proj1 (shr_record_loc m l)); exact Hm).
    rewrite (proj1 (shr_record_loc m l)). f_equal. f_equal. lia.
  - exists (shr_record_of_loc m l).
    replace e' with e by (unfold e'; lia).
    rewrite Z.sub_diag, Z.div_1_r.
    split; [reflexivity | apply shr_record_loc].
Qed.

Lemma fexp_eq (x : Z) : fexp prec emax x = Z.max (x - 53) (-1074).
Proof. reflexivity. Qed.

Lemma round_nearest_even_bounds (m : Z) (l : location) :
  m <= round_nearest_even m l <= m + 1.
Proof.
  unfold round_nearest_even. destruct l as [|[| |]]; try lia.
  destruct (Z.even m); lia.
Qed.

(** The result of a rounding: its size is at most one more than the size of
    the value rounded, and there is no overflow below [2^1023]. *)
Lemma binary_round_aux_size (s : bool) (m e : Z) (l : location) (j : Z) :
  0 <= m -> Zdigits2 m + e <= j -> -1074 <= j <= 1023 -> e <= 971 ->
  binary_round_aux prec emax s m e l = S754_zero s
  \/ exists m' e',
       binary_round_aux prec emax s m e l = S754_finite s m' e'
       /\ Z.pos (digits2_pos m') + e' <= j + 1.
Proof.
  intros Hm Hj Hjr He. unfold binary_round_aux.
  destruct (shr_fexp_div m e l Hm) as (mrs1 & -> & Hm1).
  set (e1 := Z.max e (fexp prec emax (Zdigits2 m + e))) in *.
  pose proof (Zdigits2_nonneg m Hm) as Hd.
  assert (He1 : e <= e1 <= j /\ e1 <= 971).
  { unfold e1. rewrite fexp_eq. lia. }
  assert (Hm1' : 0 <= shr_m mrs1).
  { rewrite Hm1. apply Z.div_pos; [lia|]. apply Z.pow_pos_nonneg; lia. }
  assert (Hd1 : Zdigits2 (shr_m mrs1) + e1 <= j).
  { rewrite Hm1. pose proof (Zdigits2_div m (e1 - e) Hm ltac:(lia)). lia. }
  pose proof (round_nearest_even_bounds (shr_m mrs1) (loc_of_shr_record mrs1))
    as Hr.
  set (m2 := round_nearest_even (shr_m mrs1) (loc_of_shr_record mrs1)) in *.
  assert (Hm2 : 0 <= m2) by lia.
  pose proof (Zdigits2_succ (shr_m mrs1) m2 Hm1' ltac:(lia)) as Hd2.
  destruct (shr_fexp_div m2 e1 loc_Exact Hm2) as (mrs3 & -> & Hm3).
  set (e3 := Z.max e1 (fexp prec emax (Zdigits2 m2 + e1))) in *.
  pose proof (Zdigits2_nonneg m2 Hm2) as Hd2'.
  assert (He3 : e1 <= e3 <= j + 1 /\ e3 <= 971).
  { unfold e3. rewrite fexp_eq. lia. }
  pose proof (Zdigits2_div m2 (e3 - e1) Hm2 ltac:(lia)) as Hd3.
  rewrite <- Hm3 in Hd3.
  destruct (shr_m mrs3) as [|p|p] eqn:Hp.
  - left. reflexivity.
  - right. exists p, e3.
    replace (e3 <=? emax - prec) with true
      by (symmetry; apply Z.leb_le; unfold emax, prec; lia).
    split; [reflexivity|]. cbn [Zdigits2] in Hd3. lia.
  - exfalso.
    assert (0 <= m2 / 2 ^ (e3 - e1)); [|lia].
    apply Z.div_pos; [lia|]. apply Z.pow_pos_nonneg; lia.
Qed.

(** A finite result of a rounding has at most 53 bits and an exponent of at
    most 971. *)
Lemma binary_round_aux_below (s s' : bool) (m e : Z) (l : location) m' e' :
  0 <= m ->
  binary_round_aux prec emax s m e l = S754_finite s' m' e' ->
  Z.pos (digits2_pos m') + e' <= 1024.
Proof.
  intros Hm. unfold binary_round_aux.
  destruct (shr_fexp_div m e l Hm) as (mrs1 & -> & Hm1).
  set (e1 := Z.max e (fexp prec emax (Zdigits2 m + e))) in *.
  assert (Hm1' : 0 <= shr_m mrs1).
  { rewrite Hm1. apply Z.div_pos; [lia|]. apply Z.pow_pos_nonneg; lia. }
  pose proof (round_nearest_even_bounds (shr_m mrs1) (loc_of_shr_record mrs1))
    as Hr.
  set (m2 := round_nearest_even (shr_m mrs1) (loc_of_shr_record mrs1)) in *.
  assert (Hm2 : 0 <= m2) by lia.
  destruct (shr_fexp_div m2 e1 loc_Exact Hm2) as (mrs3 & -> & Hm3).
  set (e3 := Z.max e1 (fexp prec emax (Zdigits2 m2 + e1))) in *.
  pose proof (Zdigits2_nonneg m2 Hm2) as Hd2'.
  assert (He3 : e1 <= e3 /\ Zdigits2 m2 + e1 - 53 <= e3).
  { unfold e3. rewrite fexp_eq. lia. }
  pose proof (Zdigits2_div m2 (e3 - e1) Hm2 ltac:(lia)) as Hd3.
  rewrite <- Hm3 in Hd3.
  destruct (shr_m mrs3) as [|p|p] eqn:Hp; try discriminate.
  destruct (e3 <=? emax - prec) eqn:Hle; [|discriminate].
  apply Z.leb_le in Hle. unfold emax, prec in Hle.
  intros H. injection H as _ <- <-. cbn [Zdigits2] in Hd3. lia.
Qed.

(** Dividing by 1000 takes at least eight bits off the size. *)
Lemma div_1000_size (m : positive) (e k : Z) :
  Z.pos (digits2_pos m) + e <= k -> k <= 1024 ->
  div (S754_finite false m e) (Z2F 1000) = S754_zero false
  \/ exists m' e',
       div (S754_finite false m e) (Z2F 1000) = S754_finite false m' e'
       /\ Z.pos (digits2_pos m') + e' <= Z.max (k - 8) (-1073).
Proof.
  intros Hk Hk'.
  change (Z2F 1000) with (S754_finite false 8796093022208000 (-43)).
  unfold div, SFdiv. change (xorb false false) with false.
  unfold SFdiv_core_binary.
  change (Zdigits2 (Z.pos m)) with (Z.pos (digits2_pos m)).
  change (Zdigits2 8796093022208000) with 53.
  set (d := Z.pos (digits2_pos m)) in *.
  set (e0 := Z.min (fexp prec emax (d + e - (53 + -43))) (e - -43)).
  assert (He0 : e0 <= e + 43 /\ e0 <= Z.max (d + e - 63) (-1074)).
  { unfold e0. rewrite fexp_eq. lia. }
  set (s := e - -43 - e0).
  assert (Hs : 0 <= s) by (unfold s; lia).
  set (m' := match s with
             | 0 => Z.pos m
             | Z.pos _ => Z.shiftl (Z.pos m) s
             | Z.neg _ => 0
             end).
  assert (Hm' : m' = Z.pos m * 2 ^ s).
  { unfold m'. destruct s as [|p|p] eqn:Hp; try lia.
    rewrite Z.shiftl_mul_pow2 by lia. reflexivity. }
  pose proof (Z.div_eucl_eq m' 8796093022208000 ltac:(lia)) as Hqr.
  pose proof (Z.mod_pos_bound m' 8796093022208000 ltac:(lia)) as Hr.
  unfold Z.modulo in Hr.
  destruct (Z.div_eucl m' 8796093022208000) as [q r].
  assert (H2s : 0 < 2 ^ s) by (apply Z.pow_pos_nonneg; lia).
  assert (Hq : 0 <= q) by nia.
  assert (Hdq : Zdigits2 q + e0 <= Z.max (k - 9) (-1074)).
  { pose proof (digits2_spec m) as [_ Hlt]. fold d in Hlt.
    assert (Hd : 1 <= d) by (unfold d; lia).
    assert (Hj : Zdigits2 q <= Z.max (d + s - 52) 0); [|unfold s in *; lia].
    apply Zdigits2_le; [exact Hq | lia |].
    assert (Hq52 : q * 2 ^ 52 <= m').
    { change (2 ^ 52) with 4503599627370496. nia. }
    assert (Hm'lt : m' < 2 ^ (d + s)).
    { rewrite Hm', Z.pow_add_r by lia. nia. }
    destruct (Z.le_gt_cases 52 (d + s)) as [Hge|Hlt52].
    - replace (Z.max (d + s - 52) 0) with (d + s - 52) by lia.
      replace (d + s) with ((d + s - 52) + 52) in Hm'lt by lia.
      rewrite Z.pow_add_r in Hm'lt by lia.
      assert (0 < 2 ^ 52) by reflexivity. nia.
    - replace (Z.max (d + s - 52) 0) with 0 by lia.
      assert (2 ^ (d + s) <= 2 ^ 52) by (apply Z.pow_le_mono_r; lia).
      assert (0 < 2 ^ 52) by reflexivity.
      change (2 ^ 0) with 1. nia. }
  destruct (binary_round_aux_size false q e0
              (new_location 8796093022208000 r) (Z.max (k - 9) (-1074))
              Hq Hdq ltac:(lia) ltac:(lia))
    as [H|(m1 & e1 & H & Hb)].
  - left. exact H.
  - right. exists m1, e1. split; [exact H | lia].
Qed.

(** [Math.floor] of a number below [2^j] is below [2^(j+1)], and it is zero
    when the number is below 1. *)
Lemma floor_size (m : positive) (e j : Z) :
  Z.pos (digits2_pos m) + e <= j -> j <= 1023 ->
  floor (S754_finite false m e) = S754_zero false
  \/ (0 < j
      /\ exists m' e',
           floor (S754_finite false m e) = S754_finite false m' e'
           /\ Z.pos (digits2_pos m') + e' <= j + 1).
Proof.
  intros Hj Hj'. unfold floor, signed.
  pose proof (digits2_spec m) as [_ Hlt].
  set (d := Z.pos (digits2_pos m)) in *.
  assert (Hd : 1 <= d) by (unfold d; lia).
  set (z := if 0 <=? e then Z.shiftl (Z.pos m) e
            else Z.shiftr (Z.pos m) (- e)).
  assert (Hz : 0 <= z /\ Zdigits2 z <= Z.max (d + e) 0).
  { unfold z. destruct (Z.leb_spec 0 e).
    - rewrite Z.shiftl_mul_pow2 by lia.
      assert (0 < 2 ^ e) by (apply Z.pow_pos_nonneg; lia).
      split; [nia|].
      pose proof (Zdigits2_mul (Z.pos m) e ltac:(lia) ltac:(lia)).
      change (Zdigits2 (Z.pos m)) with d in *. lia.
    - rewrite Z.shiftr_div_pow2 by lia.
      assert (0 < 2 ^ (- e)) by (apply Z.pow_pos_nonneg; lia).
      split; [apply Z.div_pos; lia|].
      pose proof (Zdigits2_div (Z.pos m) (- e) ltac:(lia) ltac:(lia)).
      change (Zdigits2 (Z.pos m)) with d in *. lia. }
  clearbody z. destruct Hz as [Hz0 Hzd].
  destruct z as [|p|p]; [left; reflexivity | | lia].
  cbn [Zdigits2] in Hzd.
  assert (Hp : 1 <= Z.pos (digits2_pos p)) by lia.
  unfold binary_normalize, binary_round, shl_align.
  set (dp := Z.pos (digits2_pos p)) in *.
  assert (Hround : forall mz ez,
             Zdigits2 (Z.pos mz) + ez <= dp -> ez <= 0 ->
             binary_round_aux prec emax false (Z.pos mz) ez loc_Exact
             = S754_zero false
             \/ (0 < j
                 /\ exists m' e',
                      binary_round_aux prec emax false (Z.pos mz) ez loc_Exact
                      = S754_finite false m' e'
                      /\ Z.pos (digits2_pos m') + e' <= j + 1)).
  { intros mz ez Hmz Hez.
    destruct (binary_round_aux_size false (Z.pos mz) ez loc_Exact
                (Z.max (d + e) 0) ltac:(lia) ltac:(lia) ltac:(lia)
                ltac:(lia))
      as [H|(m1 & e1 & H & Hb)].
    - left. exact H.
    - right. split; [lia|]. exists m1, e1. split; [exact H | lia]. }
  destruct (fexp prec emax (dp + 0) - 0) as [|q|q] eqn:Hq.
  - apply Hround; cbn [Zdigits2]; fold dp; lia.
  - apply Hround; cbn [Zdigits2]; fold dp; lia.
  - apply Hround; [|rewrite fexp_eq in *; lia].
    pose proof (Zdigits2_mul (Z.pos p) (Z.pos q) ltac:(lia) ltac:(lia)) as H.
    rewrite <- pos_iter_xO in H. cbn [Zdigits2] in H. fold dp in H.
    cbn [Zdigits2]. rewrite fexp_eq in *. lia.
Qed.

(** One iteration of the loop of [numberToWords]: the next [num] is zero, or
    seven bits shorter. *)
Lemma loop_step_size (m : positive) (e k : Z) :
  Z.pos (digits2_pos m) + e <= k -> k <= 1024 ->
  floor (div (S754_finite false m e) (Z2F 1000)) = S754_zero false
  \/ (8 < k
      /\ exists m' e',
           floor (div (S754_finite false m e) (Z2F 1000))
           = S754_finite false m' e'
           /\ Z.pos (digits2_pos m') + e' <= k - 7).
Proof.
  intros Hk Hk'.
  destruct (div_1000_size m e k Hk Hk') as [->|(m1 & e1 & -> & H1)];
    [left; reflexivity|].
  destruct (floor_size m1 e1 (Z.max (k - 8) (-1073)) H1 ltac:(lia))
    as [H|(Hpos & m2 & e2 & H & H2)].
  - left. exact H.
  - right. split; [lia|]. exists m2, e2. split; [exact H | lia].
Qed.

Lemma words_loop_stops (fuel : nat) (x : number) i parts :
  num_gt x zero = false -> words_loop fuel x i parts = Some parts.
Proof. intros H. destruct fuel; cbn [words_loop]; rewrite H; reflexivity. Qed.

Lemma words_loop_returns (n : nat) :
  forall fuel x i parts k,
    (n < fuel)%nat -> k <= 8 + 7 * Z.of_nat n -> k <= 1024 -> below k x ->
    exists r, words_loop fuel x i parts = Some r.
Proof.
  induction n as [|n IH]; intros fuel x i parts k Hf Hk Hk' Hx;
    (destruct (num_gt x zero) eqn:Hgt;
     [|exists parts; apply words_loop_stops, Hgt]);
    (destruct x as [[]|[]| |[] m e]; try discriminate Hgt;
     try contradiction);
    (destruct fuel as [|fuel]; [lia|]);
    rewrite words_loop_step by exact Hgt;
    cbn [below] in Hx;
    destruct (loop_step_size m e k Hx Hk')
      as [->|(H8 & m' & e' & -> & Hb)];
    try (eexists; apply words_loop_stops; reflexivity).
  - lia.
  - apply (IH fuel _ _ _ (k - 7)); [lia | lia | lia | exact Hb].
Qed.

(** [numberToWords] returns on every number that is not infinite. *)
Lemma numberToWords_below (fuel : nat) (x : number) :
  (150 <= fuel)%nat -> below 1024 x ->
  exists w, numberToWords fuel x = Some w.
Proof.
  intros Hf Hx.
  destruct fuel as [|[|fuel]]; try lia.
  destruct (num_eq x zero) eqn:H0.
  { exists (lit "zero"). cbn [numberToWords]. rewrite H0. reflexivity. }
  rewrite numberToWords_step by exact H0.
  destruct (num_lt x zero) eqn:Hlt.
  - destruct x as [[]|[]| |[] m e]; try discriminate Hlt;
      try contradiction.
    cbn [neg SFopp negb].
    rewrite numberToWords_step by reflexivity.
    change (num_lt (S754_finite false m e) zero) with false. cbv iota.
    destruct (words_loop_returns 146 fuel (S754_finite false m e) 0%nat []
                1024 ltac:(lia) ltac:(lia) ltac:(lia) Hx) as (r & ->).
    eexists. reflexivity.
  - destruct (words_loop_returns 146 (S fuel) x 0%nat [] 1024
                ltac:(lia) ltac:(lia) ltac:(lia) Hx) as (r & ->).
    eexists. reflexivity.
Qed.

Lemma numberToWords_infinite (fuel : nat) (s : bool) :
  numberToWords fuel (S754_infinity s) = None.
Proof.
  destruct s; [|apply numberToWords_Infinity].
  destruct fuel as [|fuel]; [reflexivity|].
  rewrite numberToWords_step by reflexivity.
  change (num_lt (S754_infinity true) zero) with true. cbv iota.
  change (neg (S754_infinity true)) with Infinity.
  rewrite numberToWords_Infinity. reflexivity.
Qed.

(** ** The numbers that the decoding yields *)

Lemma round_ratio_below (s : bool) (a b : Z) :
  0 <= a -> 0 < b ->
  below 1024 (round_ratio s a b)
  \/ exists sg, round_ratio s a b = S754_infinity sg.
Proof.
  intros Ha Hb. unfold round_ratio.
  pose proof (SFdiv_core_quotient_nonneg a b 0 0 Ha Hb) as Hq.
  destruct (SFdiv_core_binary prec emax a 0 b 0) as [[m e] l].
  cbn [fst] in Hq.
  destruct (binary_round_aux_cases s m e l Hq) as [H|[H|(m' & e' & H)]].
  - left. rewrite H. exact I.
  - right. eauto.
  - left. rewrite H. cbn [below].
    apply (binary_round_aux_below s s m e l m' e' Hq H).
Qed.

Lemma mul_below (x y : number) :
  (below 1024 x \/ exists sg, x = S754_infinity sg) ->
  (exists m e, y = S754_finite false m e) ->
  below 1024 (mul x y) \/ exists sg, mul x y = S754_infinity sg.
Proof.
  intros Hx (my & ey & ->).
  destruct x as [sx|sx| |sx mx ex]; cbn [mul SFmul].
  - left. exact I.
  - right. eauto.
  - left. exact I.
  - destruct (binary_round_aux_cases (xorb sx false) (Z.pos (mx * my))
                (ex + ey) loc_Exact ltac:(lia))
      as [H|[H|(m' & e' & H)]]; unfold mul, SFmul.
    + left. rewrite H. exact I.
    + right. eauto.
    + left. rewrite H. cbn [below].
      apply (binary_round_aux_below (xorb sx false) (xorb sx false)
               (Z.pos (mx * my)) (ex + ey) loc_Exact m' e');
        [lia | exact H].
Qed.

Lemma scale10_sign (a j : Z) :
  0 <= a -> 0 <= fst (scale10 a 1 j) /\ 0 < snd (scale10 a 1 j).
Proof.
  intros Ha. unfold scale10. destruct (Z.leb_spec 0 j); cbn [fst snd].
  - assert (0 < 10 ^ j) by (apply Z.pow_pos_nonneg; lia). lia.
  - assert (0 < 10 ^ (- j)) by (apply Z.pow_pos_nonneg; lia). nia.
Qed.

Lemma parseFloat_below (s : jsstring) :
  below 1024 (parseFloat s) \/ exists sg, parseFloat s = S754_infinity sg.
Proof.
  unfold parseFloat.
  destruct (match trim_start s with
            | [] => (false, trim_start s)
            | c :: r =>
                if (c =? 45)%N then (true, r)
                else if (c =? 43)%N then (false, r) else (false, trim_start s)
            end) as [sg s'].
  destruct (starts_with (lit "Infinity") s'); [right; eauto|].
  destruct (span is_digit s') as [ip r1] eqn:Hip.
  apply span_digits_spec in Hip as (_ & Hip & _).
  assert (Hfp : forall fp r2,
             match r1 with
             | [] => ([], r1)
             | c :: r => if (c =? 46)%N then span is_digit r else ([], r1)
             end = (fp, r2) -> forallb is_digit fp = true).
  { intros fp r2 H. destruct r1 as [|c r].
    - injection H as <- _. reflexivity.
    - destruct (c =? 46)%N.
      + apply span_digits_spec in H as (_ & H & _). exact H.
      + injection H as <- _. reflexivity. }
  destruct (match r1 with
            | [] => ([], r1)
            | c :: r => if (c =? 46)%N then span is_digit r else ([], r1)
            end) as [fp r2].
  specialize (Hfp fp r2 eq_refl).
  assert (Hds : forallb is_digit (ip ++ fp) = true)
    by (rewrite forallb_app, Hip, Hfp; reflexivity).
  destruct (ip ++ fp) as [|c ds]; [left; exact I|].
  pose proof (digits_val_nonneg (c :: ds) Hds) as Hv.
  match goal with
  | |- context [scale10 ?a 1 ?j] =>
      pose proof (scale10_sign a j Hv) as [Ha Hb];
      destruct (scale10 a 1 j) as [a' b']
  end.
  cbn [fst snd] in Ha, Hb. apply round_ratio_below; assumption.
Qed.

Lemma decode_below (t : jsstring) :
  below 1024 (decode t) \/ exists sg, decode t = S754_infinity sg.
Proof.
  unfold decode. destruct (parseShorthand t) as [v|] eqn:Hp.
  - apply parseShorthand_Some in Hp as (ip & dot & fp & sfx & Hacc & ->).
    destruct Hacc as (_ & _ & Hip & Hfp & _).
    apply mul_below; [|apply magnitude_normal].
    apply round_ratio_below.
    + apply digits_val_nonneg. rewrite forallb_app, Hip, Hfp. reflexivity.
    + apply Z.pow_pos_nonneg; lia.
  - apply parseFloat_below.
Qed.

(** X13. [convertNumber] returns exactly when the number decoded from the
    trimmed input is not infinite; 150 iterations are then enough. *)
Theorem convertNumber_returns_iff_not_infinite (fuel : nat) (input : jsstring) :
  (150 <= fuel)%nat ->
  (exists r, convertNumber fuel input = Some r)
  <-> (forall sg, decode (trim input) <> S754_infinity sg).
Proof.
  intros Hf. unfold convertNumber.
  destruct (trim input) as [|c t] eqn:Ht.
  { split; [intros _ sg; discriminate | intros _; eexists; reflexivity]. }
  destruct (decode_below (c :: t)) as [Hb|(sg & Hinf)].
  - split.
    + intros _ sg Hinf. rewrite Hinf in Hb. exact Hb.
    + intros _. destruct (isNaN (decode (c :: t))); [eexists; reflexivity|].
      destruct (numberToWords_below fuel _ Hf Hb) as (w & ->).
      eexists. reflexivity.
  - split.
    + intros (r & Hr). rewrite Hinf in Hr. cbn [isNaN] in Hr.
      rewrite numberToWords_infinite in Hr. discriminate Hr.
    + intros H. exfalso. exact (H sg Hinf).
Qed.

Lemma convertNumber_returns_iff_not_infinite_witness :
  exists r, convertNumber 150 (lit "-12.75 apples") = Some r.
Proof.
  apply (proj2 (convertNumber_returns_iff_not_infinite 150
                  (lit "-12.75 apples") ltac:(lia))).
  intros sg H. vm_compute in H. discriminate H.
Defined.

(** X14. [numberToWords] returns on every binary64 number that is not
    infinite, whether it is an integer or not. *)
Theorem numberToWords_returns (fuel : nat) (x : number) :
  (150 <= fuel)%nat ->
  valid_binary prec emax x = true ->
  (forall sg, x <> S754_infinity sg) ->
  exists w, numberToWords fuel x = Some w.
Proof.
  intros Hf Hv Hinf. apply numberToWords_below; [exact Hf|].
  destruct x as [sx|sx| |sx m e]; cbn [below]; auto.
  - exact (Hinf sx eq_refl).
  - unfold valid_binary, bounded, canonical_mantissa in Hv.
    apply andb_true_iff in Hv as [Hc He].
    apply Z.eqb_eq in Hc. apply Z.leb_le in He.
    rewrite fexp_eq in Hc. unfold emax, prec in He. lia.
Qed.

Lemma numberToWords_returns_witness :
  exists w, numberToWords 150 one_and_a_half = Some w.
Proof.
  apply (numberToWords_returns 150 one_and_a_half);
    [lia | reflexivity | discriminate].
Defined.

(** ** Numbers that are not integers *)

Lemma Zdigits2_pow (k j : Z) :
  0 < k -> 0 <= j -> Zdigits2 (k * 2 ^ j) = Zdigits2 k + j.
Proof.
  intros Hk Hj. destruct k as [|p|p]; try lia.
  assert (H2 : 0 < 2 ^ j) by (apply Z.pow_pos_nonneg; lia).
  destruct (Z.pos p * 2 ^ j) as [|q|q] eqn:Hq; try nia.
  cbn [Zdigits2]. apply digits2_unique. rewrite <- Hq.
  pose proof (digits2_spec p) as [Hlo Hhi].
  replace (Z.pos (digits2_pos p) + j - 1)
    with ((Z.pos (digits2_pos p) - 1) + j) by lia.
  rewrite !Z.pow_add_r by lia. nia.
Qed.

Lemma canonical_bounds (m : positive) (e : Z) :
  canonical_mantissa prec emax m e = true ->
  -1074 <= e /\ Z.pos m < 2 ^ 53
  /\ (-1074 < e -> 2 ^ 52 <= Z.pos m).
Proof.
  unfold canonical_mantissa. intros H. apply Z.eqb_eq in H.
  rewrite fexp_eq in H.
  pose proof (digits2_spec m) as [Hlo Hhi].
  set (d := Z.pos (digits2_pos m)) in *.
  assert (Hd : 1 <= d) by (unfold d; lia).
  split; [lia|]. split.
  - assert (2 ^ d <= 2 ^ 53) by (apply Z.pow_le_mono_r; lia). lia.
  - intros He. replace d with 53 in Hlo by lia. exact Hlo.
Qed.

(** Normalising a value that fits in 53 bits is exact, and the result is
    in canonical form. *)
Lemma binary_normalize_fits (z : positive) (ez k g : Z) :
  0 < k < 2 ^ 53 -> -1074 <= g <= 971 ->
  (ez <= g -> Z.pos z = k * 2 ^ (g - ez)) ->
  (g <= ez -> k = Z.pos z * 2 ^ (ez - g)) ->
  exists M E,
    binary_normalize prec emax (Z.pos z) ez false = S754_finite false M E
    /\ canonical_mantissa prec emax M E = true
    /\ E <= g /\ Z.pos M = k * 2 ^ (g - E).
Proof.
  intros Hk Hg Hle Hge.
  pose proof (Zdigits2_lt k ltac:(lia)) as Hdk.
  assert (Hdk1 : 1 <= Zdigits2 k <= 53).
  { split; [destruct k; simpl in *; lia|].
    apply Zdigits2_le; lia. }
  set (D := Zdigits2 k + g).
  assert (HD : Z.pos (digits2_pos z) + ez = D).
  { change (Z.pos (digits2_pos z)) with (Zdigits2 (Z.pos z)).
    destruct (Z.le_ge_cases ez g) as [H|H].
    - rewrite (Hle H), Zdigits2_pow by lia. unfold D. lia.
    - assert (Hk' := Hge ltac:(lia)).
      assert (Zdigits2 k = Zdigits2 (Z.pos z) + (ez - g))
        by (rewrite Hk'; apply Zdigits2_pow; lia).
      unfold D. lia. }
  set (E := fexp prec emax D).
  assert (HE : E <= g /\ -1074 <= E /\ D - 53 <= E /\ E <= 971).
  { unfold E. rewrite fexp_eq. unfold D. lia. }
  assert (H2 : 0 < 2 ^ (g - E)) by (apply Z.pow_pos_nonneg; lia).
  remember (k * 2 ^ (g - E)) as M eqn:HMk.
  assert (HM : 0 < M) by (rewrite HMk; nia).
  assert (HMd : Zdigits2 M + E = D).
  { rewrite HMk, Zdigits2_pow by lia. unfold D. lia. }
  destruct M as [|Mp|Mp]; try lia.
  exists Mp, E.
  assert (Hcan : canonical_mantissa prec emax Mp E = true).
  { unfold canonical_mantissa. apply Z.eqb_eq.
    cbn [Zdigits2] in HMd. rewrite HMd. reflexivity. }
  split; [|split; [exact Hcan | split; [lia | exact HMk]]].
  (* the aligned mantissa *)
  assert (Haux : forall mz ez',
             ez' <= E -> Z.pos mz = Z.pos Mp * 2 ^ (E - ez') ->
             binary_round_aux prec emax false (Z.pos mz) ez' loc_Exact
             = S754_finite false Mp E).
  { intros mz ez' Hez Hmz.
    assert (Hdz : Zdigits2 (Z.pos mz) + ez' = D).
    { rewrite Hmz, Zdigits2_pow by lia. lia. }
    unfold binary_round_aux, shr_fexp. rewrite Hdz. fold E.
    cbn [shr_record_of_loc].
    assert (Hsecond :
              (let '(mrs'', e'') :=
                 shr (Build_shr_record (Z.pos Mp) false false) E
                     (fexp prec emax (Zdigits2 (Z.pos Mp) + E) - E) in
               match shr_m mrs'' with
               | 0 => S754_zero false
               | Z.pos m =>
                   if e'' <=? emax - prec then S754_finite false m e''
                   else S754_infinity false
               | Z.neg _ => S754_nan
               end) = S754_finite false Mp E).
    { rewrite HMd. fold E. rewrite Z.sub_diag. cbn [shr shr_m].
      replace (E <=? emax - prec) with true
        by (symmetry; apply Z.leb_le; unfold emax, prec; lia).
      reflexivity. }
    destruct (E - ez') as [|p|p] eqn:Hp; try lia.
    - cbn [shr]. cbn [shr_m loc_of_shr_record round_nearest_even].
      assert (ez' = E) by lia. subst ez'.
      assert (mz = Mp) by (change (2 ^ 0) with 1 in Hmz; lia).
      subst mz. exact Hsecond.
    - cbn [shr]. rewrite Hmz, iter_shr_1_exact by lia.
      cbn [shr_m loc_of_shr_record round_nearest_even].
      replace (ez' + Z.pos p) with E by lia. exact Hsecond. }
  unfold binary_normalize, binary_round, shl_align.
  rewrite HD. fold E.
  destruct (E - ez) as [|p|p] eqn:Hp.
  - apply Haux; [lia|].
    replace (E - ez) with 0 by lia. change (2 ^ 0) with 1.
    assert (ez = E) by lia.
    rewrite (Hle ltac:(lia)), HMk.
    replace (g - ez) with (g - E) by lia. lia.
  - apply Haux; [lia|].
    rewrite (Hle ltac:(lia)), HMk.
    replace (g - ez) with ((g - E) + (E - ez)) by lia.
    rewrite Z.pow_add_r by lia. ring.
  - apply Haux; [lia|].
    rewrite Z.sub_diag, pos_iter_xO. change (2 ^ 0) with 1.
    rewrite HMk.
    replace (Z.pos p) with (ez - E) by lia.
    destruct (Z.le_ge_cases ez g) as [H|H].
    + rewrite (Hle H).
      replace (g - E) with ((g - ez) + (ez - E)) by lia.
      rewrite Z.pow_add_r by lia. ring.
    + rewrite (Hge H).
      replace (ez - E) with ((ez - g) + (g - E)) by lia.
      rewrite Z.pow_add_r by lia. ring.
Qed.

Lemma fraction_of_fits (M : positive) (E k g : Z) :
  canonical_mantissa prec emax M E = true ->
  E <= g -> g < 0 -> Z.pos M = k * 2 ^ (g - E) -> k mod 2 ^ (- g) <> 0 ->
  positive_fraction (S754_finite false M E).
Proof.
  intros Hcan HE Hg HM Hk. exists M, E.
  split; [reflexivity|]. split; [exact Hcan|]. split; [lia|].
  rewrite HM.
  replace (- E) with ((- g) + (g - E)) by lia.
  rewrite Z.pow_add_r by lia.
  assert (0 < 2 ^ (g - E)) by (apply Z.pow_pos_nonneg; lia).
  assert (0 < 2 ^ (- g)) by (apply Z.pow_pos_nonneg; lia).
  rewrite Z.mul_mod_distr_r by lia. nia.
Qed.

(** The remainder of a number that is not an integer by an integer is not
    an integer. *)
Lemma fmod_fraction (x : number) (q : Z) :
  positive_fraction x -> 0 < q < 2 ^ 53 ->
  positive_fraction (fmod x (Z2F q)).
Proof.
  intros (m & e & -> & Hcan & He & Hm) Hq.
  destruct (Z2F_normal q Hq) as (Mq & Eq & -> & Nq & HEq & HMq).
  destruct (canonical_bounds m e Hcan) as (Hlo & Hm53 & _).
  unfold fmod.
  set (e0 := Z.min e Eq).
  rewrite !Z.shiftl_mul_pow2 by (unfold e0; lia).
  set (w := 2 ^ (- e)) in *.
  set (u := 2 ^ (e - e0)).
  assert (Hw : 0 < w) by (apply Z.pow_pos_nonneg; lia).
  assert (Hu : 0 < u) by (apply Z.pow_pos_nonneg; unfold e0; lia).
  assert (Hb : Z.pos Mq * 2 ^ (Eq - e0) = q * w * u).
  { rewrite HMq. unfold w, u.
    rewrite <- !Z.mul_assoc, <- !Z.pow_add_r by (unfold e0; lia).
    f_equal. f_equal. lia. }
  rewrite Hb, Z.mul_mod_distr_r by nia.
  set (k := Z.pos m mod (q * w)).
  assert (Hkw : k mod w = Z.pos m mod w).
  { unfold k. apply Z.mod_mod_divide. exists q. reflexivity. }
  assert (Hk : 0 < k <= Z.pos m).
  { pose proof (Z.mod_pos_bound (Z.pos m) (q * w) ltac:(nia)).
    pose proof (Z.mod_le (Z.pos m) (q * w) ltac:(lia) ltac:(nia)).
    fold k in H, H0.
    assert (k <> 0); [|lia].
    intros Hz. rewrite Hz, Z.mod_0_l in Hkw by lia. congruence. }
  destruct (k * u) as [|z|z] eqn:Hz; try nia.
  destruct (binary_normalize_fits z e0 k e) as (M & E & -> & HcanM & HE & HM).
  - lia.
  - assert (e <= emax - prec); [|unfold emax, prec in *; lia].
    unfold emax, prec. lia.
  - intros _. rewrite <- Hz. reflexivity.
  - intros Hge. assert (e0 = e) by (unfold e0 in *; lia).
    rewrite <- Hz. unfold u. rewrite H, !Z.sub_diag. simpl. lia.
  - apply (fraction_of_fits M E k e); auto. fold w. congruence.
Qed.

(** Taking 10 off a number of at least 10 that is not an integer gives a
    number that is not an integer. *)
Lemma sub_10_fraction (x : number) :
  positive_fraction x -> num_ge x (Z2F 10) = true ->
  positive_fraction (sub x (Z2F 10)).
Proof.
  intros (m & e & -> & Hcan & He & Hm) Hge.
  destruct (canonical_bounds m e Hcan) as (Hlo & Hm53 & Hnorm).
  change (Z2F 10) with (S754_finite false 5629499534213120 (-49)) in *.
  assert (He49 : -49 <= e) by (apply num_ge_exponent in Hge; exact Hge).
  assert (Hm10 : e = -49 -> 5629499534213120 <= Z.pos m).
  { intros ->. unfold num_ge, SFleb, SFcompare in Hge.
    cbn [Z.compare Pos.compare] in Hge.
    change (Pos.compare_cont Eq 5629499534213120 m)
      with (5629499534213120 ?= m)%positive in Hge.
    destruct (Pos.compare_spec 5629499534213120 m); try discriminate Hge;
      lia. }
  assert (H2e : 0 < 2 ^ (- e)) by (apply Z.pow_pos_nonneg; lia).
  assert (H49 : 2 ^ 49 = 2 ^ (- e) * 2 ^ (e + 49)).
  { rewrite <- Z.pow_add_r by lia. f_equal. lia. }
  assert (H2u : 0 < 2 ^ (e + 49)) by (apply Z.pow_pos_nonneg; lia).
  set (k := Z.pos m - 10 * 2 ^ (- e)).
  assert (Hkmod : k mod 2 ^ (- e) = Z.pos m mod 2 ^ (- e)).
  { unfold k.
    replace (Z.pos m - 10 * 2 ^ (- e))
      with (Z.pos m + (- 10) * 2 ^ (- e)) by lia.
    apply Z.mod_add. lia. }
  assert (Hk : 0 < k < 2 ^ 53).
  { split; [|unfold k; lia].
    assert (10 * 2 ^ (- e) <= Z.pos m).
    { destruct (Z.eq_dec e (-49)) as [->|Hne].
      - specialize (Hm10 eq_refl). change (2 ^ (- -49)) with 562949953421312.
        lia.
      - specialize (Hnorm ltac:(lia)).
        assert (2 ^ (- e) <= 2 ^ 48) by (apply Z.pow_le_mono_r; lia).
        change (2 ^ 52) with 4503599627370496 in Hnorm.
        change (2 ^ 48) with 281474976710656 in *. lia. }
    assert (k <> 0); [|unfold k in *; lia].
    intros Hz. rewrite Hz, Z.mod_0_l in Hkmod by lia. congruence. }
  assert (Hz : exists z,
             Z.pos (fst (shl_align m e (-49))) - 5629499534213120 = Z.pos z
             /\ Z.pos z = k * 2 ^ (e + 49)).
  { assert (Hal : Z.pos (fst (shl_align m e (-49))) = Z.pos m * 2 ^ (e + 49)).
    { unfold shl_align. destruct (-49 - e) as [|p|p] eqn:Hp; cbn [fst].
      - replace (e + 49) with 0 by lia. simpl. lia.
      - lia.
      - rewrite pos_iter_xO. f_equal. f_equal. lia. }
    rewrite Hal.
    assert (Hv : Z.pos m * 2 ^ (e + 49) - 5629499534213120
                 = k * 2 ^ (e + 49)).
    { unfold k. change 5629499534213120 with (10 * 2 ^ 49).
      rewrite H49. ring. }
    rewrite Hv.
    destruct (k * 2 ^ (e + 49)) as [|z|z] eqn:Hkz; try nia.
    exists z. split; reflexivity. }
  destruct Hz as (z & Hz & Hzk).
  unfold sub, SFsub.
  replace (Z.min e (-49)) with (-49) by lia.
  cbn [cond_Zopp].
  change (fst (shl_align 5629499534213120 (-49) (-49)))
    with 5629499534213120%positive.
  rewrite Hz.
  destruct (binary_normalize_fits z (-49) k e) as (M & E & -> & HcanM & HE & HM).
  - exact Hk.
  - lia.
  - intros _. rewrite Hzk. replace (e - -49) with (e + 49) by lia.
    reflexivity.
  - intros Hge'. assert (e = -49) by lia. subst e.
    rewrite Hzk. simpl. lia.
  - apply (fraction_of_fits M E k e); auto. congruence.
Qed.

Lemma fraction_gt_zero (x : number) :
  positive_fraction x -> num_gt x zero = true.
Proof. intros (m & e & -> & _). reflexivity. Qed.

(** A number that is not an integer is not an index of an array. *)
Lemma index_fraction (tbl : list jsstring) (x : number) :
  positive_fraction x -> index tbl x = None.
Proof.
  intros (m & e & -> & _ & He & Hm). unfold index, ratio_of.
  replace (0 <=? e) with false by (symmetry; apply Z.leb_gt; lia).
  replace (Z.pos m mod 2 ^ (- e) =? 0) with false
    by (symmetry; apply Z.eqb_neq; exact Hm).
  reflexivity.
Qed.

(** On a number that is not an integer the last thing [convertHundreds]
    appends is [undefined]. *)
Lemma convertHundreds_fraction (x : number) :
  positive_fraction x ->
  exists pre, convertHundreds x = pre ++ lit "undefined".
Proof.
  intros Hx.
  assert (Hrest : forall result num,
             positive_fraction num ->
             exists pre,
               (if num_ge num (Z2F 20) then
                  if num_gt (fmod num (Z2F 10)) zero
                  then (result
                        ++ or_undefined
                             (index TENS (floor (div num (Z2F 10)))))
                       ++ lit "-"
                       ++ or_undefined (index ONES (fmod num (Z2F 10)))
                  else result
                       ++ or_undefined
                            (index TENS (floor (div num (Z2F 10))))
                else if num_ge num (Z2F 10) then
                  result ++ or_undefined (index TEENS (sub num (Z2F 10)))
                else result ++ or_undefined (index ONES num))
               = pre ++ lit "undefined").
  { intros result num Hnum.
    destruct (num_ge num (Z2F 20)).
    - pose proof (fmod_fraction num 10 Hnum ltac:(split; reflexivity)) as H3.
      rewrite (fraction_gt_zero _ H3), (index_fraction ONES _ H3).
      eexists. cbn [or_undefined]. rewrite !app_assoc. reflexivity.
    - destruct (num_ge num (Z2F 10)) eqn:H10.
      + rewrite (index_fraction TEENS _ (sub_10_fraction num Hnum H10)).
        eexists. reflexivity.
      + rewrite (index_fraction ONES _ Hnum).
        eexists. reflexivity. }
  unfold convertHundreds.
  destruct (num_ge x (Z2F 100)).
  - pose proof (fmod_fraction x 100 Hx ltac:(split; reflexivity)) as H2.
    rewrite (fraction_gt_zero _ H2). cbv beta iota zeta.
    apply Hrest, H2.
  - rewrite (fraction_gt_zero _ Hx). cbv beta iota zeta. apply Hrest, Hx.
Qed.

Lemma words_loop_keeps_parts (fuel : nat) :
  forall x i parts r,
    words_loop fuel x i parts = Some r -> exists pre, r = pre ++ parts.
Proof.
  induction fuel as [|fuel IH]; intros x i parts r H; cbn [words_loop] in H;
    destruct (num_gt x zero); try discriminate H;
    try (injection H as <-; exists []; reflexivity).
  apply IH in H as (pre & ->).
  destruct (num_gt (fmod x (Z2F 1000)) zero); [|eauto].
  destruct (0 <? i)%nat;
    match goal with
    | |- exists p, pre ++ ?c :: parts = _ =>
        exists (pre ++ [c]); rewrite <- app_assoc; reflexivity
    end.
Qed.

Lemma join_last (sep : jsstring) (pre : list jsstring) (p : jsstring) :
  exists q, join sep (pre ++ [p]) = q ++ p.
Proof.
  induction pre as [|a pre (q & IH)]; [exists []; reflexivity|].
  destruct pre as [|b pre].
  - exists (a ++ sep). cbn [app join]. rewrite <- app_assoc. reflexivity.
  - exists (a ++ sep ++ q).
    change (join sep ((a :: b :: pre) ++ [p]))
      with (a ++ sep ++ join sep ((b :: pre) ++ [p])).
    rewrite IH, <- !app_assoc. reflexivity.
Qed.

Lemma numberToWords_positive_fraction (fuel : nat) (x : number) w :
  positive_fraction x -> numberToWords fuel x = Some w ->
  exists pre, w = pre ++ lit "undefined".
Proof.
  intros Hx H.
  assert (H0 : num_eq x zero = false /\ num_lt x zero = false).
  { destruct Hx as (m & e & -> & _). split; reflexivity. }
  destruct H0 as [H0 Hlt].
  destruct fuel as [|fuel].
  { cbn [numberToWords] in H. rewrite H0 in H. discriminate H. }
  rewrite numberToWords_step, Hlt in H by exact H0.
  destruct (words_loop fuel x 0 []) as [r|] eqn:Hr; [|discriminate H].
  injection H as <-.
  destruct fuel as [|fuel].
  { cbn [words_loop] in Hr. rewrite (fraction_gt_zero _ Hx) in Hr.
    discriminate Hr. }
  rewrite words_loop_step in Hr by (apply fraction_gt_zero, Hx).
  pose proof (fmod_fraction x 1000 Hx ltac:(split; reflexivity)) as Hc.
  rewrite (fraction_gt_zero _ Hc) in Hr. cbn [Nat.ltb Nat.leb] in Hr.
  apply words_loop_keeps_parts in Hr as (pre & ->).
  destruct (convertHundreds_fraction _ Hc) as (p & ->).
  destruct (join_last (lit " ") pre (p ++ lit "undefined")) as (q & ->).
  exists (q ++ p). rewrite <- app_assoc. reflexivity.
Qed.

Lemma numberToWords_noninteger (fuel : nat) (x : number) w :
  valid_binary prec emax x = true ->
  noninteger x = true ->
  numberToWords fuel x = Some w ->
  exists pre, w = pre ++ lit "undefined".
Proof.
  intros Hv Hn H.
  destruct x as [sx|sx| |sx m e]; try discriminate Hn.
  cbn [noninteger] in Hn. apply andb_true_iff in Hn as [He Hm].
  apply Z.ltb_lt in He. apply negb_true_iff, Z.eqb_neq in Hm.
  unfold valid_binary, bounded in Hv. apply andb_true_iff in Hv as [Hcan _].
  assert (Hx : positive_fraction (S754_finite false m e)).
  { exists m, e. auto. }
  destruct sx.
  - destruct fuel as [|fuel]; [discriminate H|].
    rewrite numberToWords_negative in H by reflexivity.
    cbn [neg SFopp negb] in H.
    destruct (numberToWords fuel (S754_finite false m e)) as [w'|] eqn:Hw;
      [|discriminate H].
    injection H as <-.
    destruct (numberToWords_positive_fraction fuel _ w' Hx Hw) as (pre & ->).
    exists (lit "negative " ++ pre). rewrite <- app_assoc. reflexivity.
  - apply (numberToWords_positive_fraction fuel _ w Hx H).
Qed.

(** X15. The words of a binary64 number that is not an integer end with
    [undefined]: the last chunk reaches an array index that is not an
    integer. *)
Theorem numberToWords_fraction_undefined (fuel : nat) (x : number) w :
  valid_binary prec emax x = true ->
  noninteger x = true ->
  numberToWords fuel x = Some w ->
  exists pre, w = pre ++ lit "undefined".
Proof. exact (numberToWords_noninteger fuel x w). Qed.

Lemma numberToWords_fraction_undefined_witness :
  exists pre,
    lit "one thousand two hundred thirty-undefined" = pre ++ lit "undefined".
Proof.
  apply (numberToWords_fraction_undefined 4
           (S754_finite false 5429314350776320 (-42)));
    [reflexivity | reflexivity | vm_compute; reflexivity].
Defined.

(** ** The results of the arithmetic are binary64 numbers *)

Lemma Zdigits2_div_exact (m s : Z) :
  0 < m -> 0 <= s < Zdigits2 m -> Zdigits2 (m / 2 ^ s) = Zdigits2 m - s.
Proof.
  intros Hm Hs. destruct m as [|p|p]; try lia. cbn [Zdigits2] in *.
  pose proof (digits2_spec p) as [Hlo Hhi].
  set (d := Z.pos (digits2_pos p)) in *.
  assert (H2 : 0 < 2 ^ s) by (apply Z.pow_pos_nonneg; lia).
  assert (Hq : 2 ^ (d - s - 1) <= Z.pos p / 2 ^ s < 2 ^ (d - s)).
  { split.
    - apply Z.div_le_lower_bound; [lia|].
      rewrite <- Z.pow_add_r by lia.
      replace (s + (d - s - 1)) with (d - 1) by lia. exact Hlo.
    - apply Z.div_lt_upper_bound; [lia|].
      rewrite <- Z.pow_add_r by lia.
      replace (s + (d - s)) with d by lia. exact Hhi. }
  assert (0 < 2 ^ (d - s - 1)) by (apply Z.pow_pos_nonneg; lia).
  destruct (Z.pos p / 2 ^ s) as [|q|q]; try lia.
  cbn [Zdigits2]. apply digits2_unique. exact Hq.
Qed.

Lemma fexp_mono (x y : Z) : x <= y -> fexp prec emax x <= fexp prec emax y.
Proof. rewrite !fexp_eq. lia. Qed.

(** The result of a rounding is in canonical form when the mantissa
    rounded has the bits that the format asks for. *)
Lemma binary_round_aux_valid (s s' : bool) (m e : Z) (l : location) m' e' :
  0 <= m -> e <= fexp prec emax (Zdigits2 m + e) ->
  binary_round_aux prec emax s m e l = S754_finite s' m' e' ->
  valid_binary prec emax (S754_finite s' m' e') = true.
Proof.
  intros Hm He. unfold binary_round_aux.
  destruct (shr_fexp_div m e l ltac:(lia)) as (mrs1 & -> & Hm1).
  replace (Z.max e (fexp prec emax (Zdigits2 m + e)))
    with (fexp prec emax (Zdigits2 m + e)) in * by lia.
  set (D0 := Zdigits2 m + e) in *.
  set (E1 := fexp prec emax D0) in *.
  assert (Hdm : 0 <= Zdigits2 m) by (apply Zdigits2_nonneg; lia).
  assert (HE1 : E1 = Z.max (D0 - 53) (-1074)) by apply fexp_eq.
  assert (HD0 : D0 = Zdigits2 m + e) by reflexivity.
  assert (H2 : 0 < 2 ^ (E1 - e)) by (apply Z.pow_pos_nonneg; lia).
  assert (Hm1' : 0 <= shr_m mrs1) by (rewrite Hm1; apply Z.div_pos; lia).
  pose proof (round_nearest_even_bounds (shr_m mrs1) (loc_of_shr_record mrs1))
    as Hr.
  set (m2 := round_nearest_even (shr_m mrs1) (loc_of_shr_record mrs1)) in *.
  assert (Hm2 : 0 <= m2) by lia.
  (* the size of the rounded mantissa *)
  assert (Hd2 : m2 = 0 \/ (0 < m2 /\ E1 <= fexp prec emax (Zdigits2 m2 + E1)
                           /\ Zdigits2 m2 + E1 <= Z.max D0 (-1073) + 1)).
  { destruct (Z.eq_dec m2 0) as [|Hne]; [left; assumption|right].
    split; [lia|].
    destruct (Z.lt_ge_cases (E1 - e) (Zdigits2 m)) as [Hlt|Hge].
    - assert (Hmpos : 0 < m) by (destruct m; simpl in *; lia).
      pose proof (Zdigits2_div_exact m (E1 - e) Hmpos ltac:(lia)) as Hd1.
      rewrite <- Hm1 in Hd1.
      assert (0 < shr_m mrs1).
      { destruct (shr_m mrs1) as [|q|q]; simpl in Hd1; lia. }
      assert (Zdigits2 (shr_m mrs1) <= Zdigits2 m2).
      { apply Zdigits2_le; try lia.
        - apply Zdigits2_nonneg; lia.
        - pose proof (Zdigits2_lt m2 ltac:(lia)). lia. }
      pose proof (Zdigits2_succ (shr_m mrs1) m2 ltac:(lia) ltac:(lia)).
      split; [|lia].
      unfold E1 at 1. apply fexp_mono. unfold D0. lia.
    - assert (shr_m mrs1 = 0).
      { rewrite Hm1. apply Z.div_small. split; [lia|].
        pose proof (Zdigits2_lt m ltac:(lia)).
        assert (2 ^ Zdigits2 m <= 2 ^ (E1 - e))
          by (apply Z.pow_le_mono_r; lia).
        lia. }
      assert (Hone : m2 = 1) by lia.
      assert (Hmin : E1 = -1074) by lia.
      rewrite Hone. change (Zdigits2 1) with 1. rewrite fexp_eq. lia. }
  destruct (shr_fexp_div m2 E1 loc_Exact Hm2) as (mrs3 & -> & Hm3).
  destruct Hd2 as [H0|(Hpos & Hbits & Hsize)].
  { rewrite H0 in Hm3. cbn [Z.div Z.div_eucl] in Hm3.
    rewrite Hm3. discriminate. }
  replace (Z.max E1 (fexp prec emax (Zdigits2 m2 + E1)))
    with (fexp prec emax (Zdigits2 m2 + E1)) in * by lia.
  set (D2 := Zdigits2 m2 + E1) in *.
  set (E3 := fexp prec emax D2) in *.
  assert (Hd2 : 1 <= Zdigits2 m2) by (destruct m2; simpl in *; lia).
  assert (HE3 : E3 = Z.max (D2 - 53) (-1074)) by apply fexp_eq.
  assert (HD2 : D2 = Zdigits2 m2 + E1) by reflexivity.
  assert (Hsh : E3 - E1 < Zdigits2 m2) by lia.
  pose proof (Zdigits2_div_exact m2 (E3 - E1) Hpos ltac:(lia)) as Hd3.
  rewrite <- Hm3 in Hd3.
  destruct (shr_m mrs3) as [|p|p]; try discriminate.
  destruct (E3 <=? emax - prec) eqn:Hle; [|discriminate].
  intros H. injection H as _ <- <-.
  unfold valid_binary, bounded, canonical_mantissa.
  rewrite Hle, andb_true_r. apply Z.eqb_eq.
  cbn [Zdigits2] in Hd3. rewrite Hd3.
  replace (Zdigits2 m2 - (E3 - E1) + E3) with D2 by (unfold D2; lia).
  reflexivity.
Qed.

Lemma iter_shr_1_zero (p : positive) :
  iter_pos shr_1 p (Build_shr_record 0 false false)
  = Build_shr_record 0 false false.
Proof.
  induction p as [p IH|p IH|]; cbn [iter_pos shr_1 orb];
    rewrite ?IH; reflexivity.
Qed.

Lemma binary_round_aux_zero (s : bool) (e : Z) :
  binary_round_aux prec emax s 0 e loc_Exact = S754_zero s.
Proof.
  unfold binary_round_aux, shr_fexp. cbn [shr_record_of_loc Zdigits2].
  assert (H : forall n e0,
             shr (Build_shr_record 0 false false) e0 n
             = (Build_shr_record 0 false false,
                match n with Z.pos _ => e0 + n | _ => e0 end)).
  { intros n e0. destruct n; cbn [shr]; rewrite ?iter_shr_1_zero;
      reflexivity. }
  rewrite H. cbn [shr_m loc_of_shr_record round_nearest_even Zdigits2].
  rewrite H. reflexivity.
Qed.

(** The quotient that [round_ratio] rounds has the bits that the format
    asks for. *)
Lemma SFdiv_core_bits (a b : Z) :
  0 < a -> 0 < b ->
  let '(q, e, _) := SFdiv_core_binary prec emax a 0 b 0 in
  0 <= q /\ e <= fexp prec emax (Zdigits2 q + e).
Proof.
  intros Ha Hb. unfold SFdiv_core_binary.
  pose proof (Zdigits2_lt a ltac:(lia)) as Ha2.
  pose proof (Zdigits2_lt b ltac:(lia)) as Hb2.
  assert (Hd1 : 1 <= Zdigits2 a) by (destruct a; simpl in *; lia).
  assert (Hd2 : 1 <= Zdigits2 b) by (destruct b; simpl in *; lia).
  set (d1 := Zdigits2 a) in *. set (d2 := Zdigits2 b) in *.
  assert (Hlo : 2 ^ (d1 - 1) <= a).
  { unfold d1. destruct a as [|p|p]; try lia. apply digits2_spec. }
  replace (d1 + 0 - (d2 + 0)) with (d1 - d2) by lia.
  replace (0 - 0) with 0 by lia.
  set (F := fexp prec emax (d1 - d2)).
  assert (HF : F = Z.max (d1 - d2 - 53) (-1074)) by apply fexp_eq.
  set (e := Z.min F 0).
  set (s := 0 - e).
  assert (Hs : 0 <= s) by (unfold s, e; lia).
  set (m' := match s with
             | 0 => a
             | Z.pos _ => Z.shiftl a s
             | Z.neg _ => 0
             end).
  assert (Hm' : m' = a * 2 ^ s).
  { unfold m'. destruct s as [|p|p] eqn:Hp; try lia.
    rewrite Z.shiftl_mul_pow2 by lia. reflexivity. }
  pose proof (Z.div_eucl_eq m' b ltac:(lia)) as Hqr.
  pose proof (Z.mod_pos_bound m' b ltac:(lia)) as Hr.
  unfold Z.modulo in Hr.
  destruct (Z.div_eucl m' b) as [q r].
  assert (H2s : 0 < 2 ^ s) by (apply Z.pow_pos_nonneg; lia).
  assert (Hq : 0 <= q) by nia.
  split; [exact Hq|].
  assert (Hm'lo : 2 ^ (d1 + s - 1) <= m').
  { rewrite Hm'. replace (d1 + s - 1) with ((d1 - 1) + s) by lia.
    rewrite Z.pow_add_r by lia. nia. }
  rewrite fexp_eq.
  destruct (Z.eq_dec q 0) as [->|Hne].
  - (* the quotient is below one half of the least number *)
    cbn [Zdigits2].
    assert (d1 + s - 1 < d2).
    { destruct (Z.lt_ge_cases (d1 + s - 1) d2); auto. exfalso.
      assert (2 ^ d2 <= 2 ^ (d1 + s - 1)) by (apply Z.pow_le_mono_r; lia).
      lia. }
    unfold s, e in *. lia.
  - pose proof (Zdigits2_lt q Hq) as Hq2.
    assert (Hdq : d1 + s - d2 <= Zdigits2 q).
    { destruct (Z.le_gt_cases (d1 + s - d2) (Zdigits2 q)); auto. exfalso.
      pose proof (Zdigits2_nonneg q Hq).
      assert (2 ^ Zdigits2 q <= 2 ^ (d1 + s - d2 - 1))
        by (apply Z.pow_le_mono_r; lia).
      assert (Hpw : 2 ^ (d1 + s - 1) = 2 ^ (d1 + s - d2 - 1) * 2 ^ d2).
      { rewrite <- Z.pow_add_r by lia. f_equal. lia. }
      assert (0 < 2 ^ (d1 + s - d2 - 1)) by (apply Z.pow_pos_nonneg; lia).
      nia. }
    unfold s, e in *. lia.
Qed.

Lemma round_ratio_valid (s : bool) (a b : Z) :
  0 <= a -> 0 < b -> valid_binary prec emax (round_ratio s a b) = true.
Proof.
  intros Ha Hb. unfold round_ratio.
  destruct (Z.eq_dec a 0) as [->|Hne].
  - unfold SFdiv_core_binary. cbn [Zdigits2].
    assert (Hm : forall sh, match sh with
                            | 0 => 0
                            | Z.pos _ => Z.shiftl 0 sh
                            | Z.neg _ => 0
                            end = 0).
    { intros [|p|p]; try reflexivity. apply Z.shiftl_0_l. }
    rewrite Hm. cbn [Z.div_eucl].
    assert (Hl : new_location b 0 = loc_Exact).
    { unfold new_location, new_location_even, new_location_odd.
      destruct (Z.even b); reflexivity. }
    rewrite Hl, binary_round_aux_zero. reflexivity.
  - pose proof (SFdiv_core_bits a b ltac:(lia) Hb) as Hbits.
    destruct (SFdiv_core_binary prec emax a 0 b 0) as [[q e] l].
    destruct Hbits as [Hq He].
    destruct (binary_round_aux_cases s q e l Hq) as [H|[H|(m' & e' & H)]];
      rewrite H; try reflexivity.
    apply (binary_round_aux_valid s s q e l m' e' Hq He H).
Qed.

Lemma mul_valid (x : number) (my : positive) (ey : Z) :
  normal my ey ->
  valid_binary prec emax (mul x (S754_finite false my ey)) = true.
Proof.
  intros [Hd He].
  destruct x as [sx|sx| |sx mx ex]; try reflexivity.
  unfold mul, SFmul.
  destruct (binary_round_aux_cases (xorb sx false) (Z.pos (mx * my))
              (ex + ey) loc_Exact ltac:(lia))
    as [H|[H|(m' & e' & H)]]; rewrite H; try reflexivity.
  apply (binary_round_aux_valid (xorb sx false) (xorb sx false)
           (Z.pos (mx * my)) (ex + ey) loc_Exact m' e'); [lia | | exact H].
  rewrite fexp_eq.
  assert (Z.pos (digits2_pos mx) + 52 <= Zdigits2 (Z.pos (mx * my))); [|lia].
  pose proof (digits2_spec mx) as [Hx _].
  pose proof (digits2_spec my) as [Hy _]. rewrite Hd in Hy.
  change (2 ^ (53 - 1)) with (2 ^ 52) in Hy.
  set (dx := Z.pos (digits2_pos mx)) in *.
  assert (1 <= dx) by (unfold dx; lia).
  destruct (Z.le_gt_cases (dx + 52) (Zdigits2 (Z.pos (mx * my)))); auto.
  exfalso.
  pose proof (Zdigits2_lt (Z.pos (mx * my)) ltac:(lia)) as Hlt.
  assert (Hpw : 2 ^ Zdigits2 (Z.pos (mx * my)) <= 2 ^ (dx + 51))
    by (apply Z.pow_le_mono_r; cbn [Zdigits2] in *; lia).
  replace (dx + 51) with ((dx - 1) + 52) in Hpw by lia.
  rewrite Z.pow_add_r in Hpw by lia.
  assert (Z.pos (mx * my) = Z.pos mx * Z.pos my) by apply Pos2Z.inj_mul.
  assert (0 <= 2 ^ (dx - 1)) by (apply Z.pow_nonneg; lia).
  assert (2 ^ (dx - 1) * 2 ^ 52 <= Z.pos mx * Z.pos my)
    by (apply Z.mul_le_mono_nonneg; [assumption | exact Hx | | exact Hy];
        apply Z.pow_nonneg; lia).
  lia.
Qed.

Lemma parseFloat_valid (s : jsstring) :
  valid_binary prec emax (parseFloat s) = true.
Proof.
  unfold parseFloat.
  destruct (match trim_start s with
            | [] => (false, trim_start s)
            | c :: r =>
                if (c =? 45)%N then (true, r)
                else if (c =? 43)%N then (false, r) else (false, trim_start s)
            end) as [sg s'].
  destruct (starts_with (lit "Infinity") s'); [reflexivity|].
  destruct (span is_digit s') as [ip r1] eqn:Hip.
  apply span_digits_spec in Hip as (_ & Hip & _).
  assert (Hfp : forall fp r2,
             match r1 with
             | [] => ([], r1)
             | c :: r => if (c =? 46)%N then span is_digit r else ([], r1)
             end = (fp, r2) -> forallb is_digit fp = true).
  { intros fp r2 H. destruct r1 as [|c r].
    - injection H as <- _. reflexivity.
    - destruct (c =? 46)%N.
      + apply span_digits_spec in H as (_ & H & _). exact H.
      + injection H as <- _. reflexivity. }
  destruct (match r1 with
            | [] => ([], r1)
            | c :: r => if (c =? 46)%N then span is_digit r else ([], r1)
            end) as [fp r2].
  specialize (Hfp fp r2 eq_refl).
  assert (Hds : forallb is_digit (ip ++ fp) = true)
    by (rewrite forallb_app, Hip, Hfp; reflexivity).
  destruct (ip ++ fp) as [|c ds]; [reflexivity|].
  pose proof (digits_val_nonneg (c :: ds) Hds) as Hv.
  match goal with
  | |- context [scale10 ?a 1 ?j] =>
      pose proof (scale10_sign a j Hv) as [Ha Hb];
      destruct (scale10 a 1 j) as [a' b']
  end.
  cbn [fst snd] in Ha, Hb. apply round_ratio_valid; assumption.
Qed.

(** The number decoded from an input is a binary64 number. *)
Lemma decode_valid (t : jsstring) : valid_binary prec emax (decode t) = true.
Proof.
  unfold decode. destruct (parseShorthand t) as [v|] eqn:Hp.
  - apply parseShorthand_Some in Hp as (ip & dot & fp & sfx & _ & ->).
    destruct (Z2F_normal (magnitude sfx) (magnitude_range sfx))
      as (M & E & -> & HN & _).
    apply mul_valid, HN.
  - apply parseFloat_valid.
Qed.

Lemma valid_result_words (fuel : nat) (input : jsstring) r :
  convertNumber fuel input = Some r -> isValid r = true ->
  numericValue r = decode (trim input)
  /\ exists words,
       numberToWords fuel (numericValue r) = Some words
       /\ match currency r with
          | Some c =>
              exists w, currency_word c = Some w
                        /\ wordsForm r = words ++ lit " " ++ w
          | None => wordsForm r = words
          end.
Proof.
  unfold convertNumber. intros H Hv.
  destruct (trim input) as [|c t].
  { injection H as <-. discriminate Hv. }
  destruct (isNaN (decode (c :: t))).
  { injection H as <-. discriminate Hv. }
  destruct (numberToWords fuel (decode (c :: t))) as [words|] eqn:Hw;
    [|discriminate H].
  injection H as <-. cbn [numericValue wordsForm currency].
  split; [reflexivity|]. exists words. split; [exact Hw|].
  destruct (extractCurrency (c :: t)) as [sym|] eqn:Hsym; [|reflexivity].
  destruct (extractCurrency_has_word _ _ Hsym) as (w & Hword).
  exists w. rewrite Hword. split; reflexivity.
Qed.

(** X16. A valid result whose number is not an integer has [undefined] in
    its words: at their end when the input holds no currency symbol, just
    before the space and the currency word otherwise. *)
Theorem convertNumber_fraction_undefined (fuel : nat) (input : jsstring) r :
  convertNumber fuel input = Some r ->
  isValid r = true ->
  noninteger (numericValue r) = true ->
  exists pre,
    match currency r with
    | Some c =>
        exists w, currency_word c = Some w
                  /\ wordsForm r = pre ++ lit "undefined" ++ lit " " ++ w
    | None => wordsForm r = pre ++ lit "undefined"
    end.
Proof.
  intros H Hv Hn.
  destruct (valid_result_words fuel input r H Hv)
    as (Hnum & words & Hw & Hform).
  assert (Hvalid : valid_binary prec emax (numericValue r) = true)
    by (rewrite Hnum; apply decode_valid).
  destruct (numberToWords_noninteger fuel _ words Hvalid Hn Hw)
    as (pre & ->).
  exists pre. destruct (currency r) as [c|].
  - destruct Hform as (w & Hword & Hform). exists w.
    split; [exact Hword|]. rewrite Hform, <- app_assoc. reflexivity.
  - exact Hform.
Qed.

Lemma convertNumber_fraction_undefined_witness :
  exists r pre,
    convertNumber 4 (lit "$12.75") = Some r
    /\ wordsForm r = pre ++ lit "undefined dollars".
Proof.
  destruct (convertNumber 4 (lit "$12.75")) as [r|] eqn:H;
    [|vm_compute in H; discriminate H].
  assert (Hv : isValid r = true)
    by (vm_compute in H; injection H as <-; reflexivity).
  assert (Hn : noninteger (numericValue r) = true)
    by (vm_compute in H; injection H as <-; reflexivity).
  assert (Hc : currency r = Some [36%N])
    by (vm_compute in H; injection H as <-; reflexivity).
  destruct (convertNumber_fraction_undefined 4 (lit "$12.75") r H Hv Hn)
    as (pre & Hw).
  rewrite Hc in Hw. destruct Hw as (w & Hword & Hw).
  change (currency_word [36%N]) with (Some (lit "dollars")) in Hword.
  injection Hword as <-.
  exists r, pre. split; [reflexivity | exact Hw].
Defined.
